(** * gosible: the task facade (internal/pkg/sshtask) and the vault password
      source (internal/cmd/vault), embedded in Rocq.

    Go strings are modelled as the sequence of their Unicode code points
    (valid UTF-8 text); this is the level at which [regexp], [strings.TrimSpace]
    and [strings.HasPrefix] see them. *)

From Stdlib Require Import NArith Ascii String List Lia.
From stdpp Require Import base decidable option list sorting countable gmap.

Local Open Scope N_scope.

(** ** Strings *)

Definition rune := N.
Definition gostring := list rune.

(** An ASCII literal as a Go string. *)
Definition str (s : string) : gostring :=
  map N_of_ascii (list_ascii_of_string s).
Arguments str : simpl never.

Definition str_eqb (a b : gostring) : bool := bool_decide (a = b).

(** [s == ""]. *)
Definition is_empty (s : gostring) : bool :=
  match s with [] => true | _ :: _ => false end.

Definition LF : rune := 10.
Definition CR : rune := 13.

(** [unicode.IsSpace]: the Latin-1 cases, then the White_Space table. *)
Definition IsSpace (r : rune) : bool :=
  if r <=? 255 then
    (r =? 9) || (r =? 10) || (r =? 11) || (r =? 12) || (r =? 13)
    || (r =? 32) || (r =? 133) || (r =? 160)
  else
    (r =? 5760) || ((8192 <=? r) && (r <=? 8202))
    || (r =? 8232) || (r =? 8233) || (r =? 8239) || (r =? 8287)
    || (r =? 12288).

Fixpoint TrimLeftSpace (s : gostring) : gostring :=
  match s with
  | c :: s' => if IsSpace c then TrimLeftSpace s' else s
  | [] => []
  end.

Definition TrimRightSpace (s : gostring) : gostring :=
  rev (TrimLeftSpace (rev s)).

(** [strings.TrimSpace]. *)
Definition TrimSpace (s : gostring) : gostring :=
  TrimRightSpace (TrimLeftSpace s).

(** [strings.HasPrefix]. *)
Fixpoint HasPrefix (s p : gostring) : bool :=
  match p, s with
  | [], _ => true
  | c :: p', d :: s' => (c =? d) && HasPrefix s' p'
  | _ :: _, [] => false
  end.

(** [strings.ReplaceAll(s, "\r\n", "\n")]. *)
Fixpoint crlf_to_lf (s : gostring) : gostring :=
  match s with
  | [] => []
  | c :: s' =>
      match s' with
      | d :: s'' =>
          if (c =? CR) && (d =? LF) then LF :: crlf_to_lf s''
          else c :: crlf_to_lf s'
      | [] => [c]
      end
  end.

(** ** The regular expression of the sudo prompt

    The fragment of RE2 syntax that [sudoPromptRegex] uses: literals,
    character sets, greedy repetition of a set, concatenation, ordered
    alternation.  Go's [regexp] returns the leftmost match and, among those,
    the one a backtracking search finds first; [rx_match] is that search,
    written with a success continuation. *)

Inductive regex : Type :=
| RxEps : regex
| RxSet (p : rune -> bool) : regex
| RxStar (p : rune -> bool) : regex
| RxCat (a b : regex) : regex
| RxAlt (a b : regex) : regex.

Definition or_else {A} (x : option A) (y : option A) : option A :=
  match x with Some _ => x | None => y end.

(** Greedy [p*]: take as many runes as possible, give one back at a time. *)
Fixpoint rx_star (p : rune -> bool) (s : gostring)
    (k : gostring -> option gostring) : option gostring :=
  match s with
  | c :: s' => if p c then or_else (rx_star p s' k) (k s) else k s
  | [] => k []
  end.

Fixpoint rx_match (r : regex) (s : gostring)
    (k : gostring -> option gostring) : option gostring :=
  match r with
  | RxEps => k s
  | RxSet p => match s with c :: s' => if p c then k s' else None | [] => None end
  | RxStar p => rx_star p s k
  | RxCat a b => rx_match a s (fun s' => rx_match b s' k)
  | RxAlt a b => or_else (rx_match a s k) (rx_match b s k)
  end.

(** A match starting at the head of [s]; the result is what follows it. *)
Definition rx_here (r : regex) (s : gostring) : option gostring :=
  rx_match r s Some.

(** Leftmost match: the text before it and the text after it. *)
Fixpoint rx_find (r : regex) (s : gostring) : option (gostring * gostring) :=
  match rx_here r s with
  | Some rest => Some ([], rest)
  | None =>
      match s with
      | c :: s' =>
          match rx_find r s' with
          | Some (before, rest) => Some (c :: before, rest)
          | None => None
          end
      | [] => None
      end
  end.

(** [re.ReplaceAllString(s, "")] for a pattern without empty matches: the
    successive leftmost matches are cut out.  Every match consumes a rune, so
    [length s] rounds after the first are enough ([rx_delete_all_fuel]). *)
Fixpoint rx_delete_all (fuel : nat) (r : regex) (s : gostring) : gostring :=
  match fuel with
  | O => s
  | S fuel' =>
      match rx_find r s with
      | Some (before, rest) => before ++ rx_delete_all fuel' r rest
      | None => s
      end
  end.

Definition ReplaceAllEmpty (r : regex) (s : gostring) : gostring :=
  rx_delete_all (S (length s)) r s.

Definition rx_lit (c : rune) : regex := RxSet (N.eqb c).
Definition rx_str (s : gostring) : regex :=
  fold_right (fun c r => RxCat (rx_lit c) r) RxEps s.
Definition rx_any : rune -> bool := fun _ => true.
Definition rx_opt (r : regex) : regex := RxAlt r RxEps.
Definition rx_plus (p : rune -> bool) : regex := RxCat (RxSet p) (RxStar p).

(** [[a-zA-Z0-9_.-]] *)
Definition linuxUserChar (c : rune) : bool :=
  ((97 <=? c) && (c <=? 122)) || ((65 <=? c) && (c <=? 90))
  || ((48 <=? c) && (c <=? 57)) || (c =? 95) || (c =? 46) || (c =? 45).

(** [linuxUserRegex = "[a-zA-Z0-9_.-]+[$]?"] *)
Definition linuxUserRegex : regex :=
  RxCat (rx_plus linuxUserChar) (rx_opt (rx_lit 36)).

Definition sudo_en_head : gostring := str "[sudo] password for ".
Definition sudo_zh_head : gostring := str "[sudo] ".
(** [" 的密码："] *)
Definition sudo_zh_tail : gostring := [32; 30340; 23494; 30721; 65306].

(** [\[sudo\] password for U:(\n|)] *)
Definition sudo_en_body : regex :=
  RxCat (rx_str sudo_en_head)
    (RxCat linuxUserRegex (RxCat (rx_lit 58) (RxAlt (rx_lit LF) RxEps))).

(** [\[sudo\] U 的密码：(\n|)] *)
Definition sudo_zh_body : regex :=
  RxCat (rx_str sudo_zh_head)
    (RxCat linuxUserRegex
       (RxCat (rx_str sudo_zh_tail) (RxAlt (rx_lit LF) RxEps))).

(** [(?s).*\[sudo\] password for U:(\n|)|(?s).*\[sudo\] U 的密码：(\n|)] *)
Definition sudoPromptRegex : regex :=
  RxAlt (RxCat (RxStar rx_any) sudo_en_body)
        (RxCat (RxStar rx_any) sudo_zh_body).

(** Whether every match of [r] holds at least one rune. *)
Fixpoint rx_consumes (r : regex) : bool :=
  match r with
  | RxEps | RxStar _ => false
  | RxSet _ => true
  | RxCat a b => rx_consumes a || rx_consumes b
  | RxAlt a b => rx_consumes a && rx_consumes b
  end.

(** ** HandleOutput: what is logged as the [output] field of one record *)

Definition trimSudoPrompt (s : gostring) : gostring :=
  ReplaceAllEmpty sudoPromptRegex s.

Definition handledOutput (raw : gostring) : gostring :=
  let outputNoR := crlf_to_lf raw in
  let outputNoSudoPrompt := trimSudoPrompt outputNoR in
  TrimSpace outputNoSudoPrompt.

(** The claim about suppressed output, in the spec's words: the lines of the
    raw output that are not themselves a prompt and that are missing from
    what is logged. *)
Fixpoint split_lines (cur : gostring) (s : gostring) : list gostring :=
  match s with
  | [] => [rev cur]
  | c :: s' => if c =? LF then rev cur :: split_lines [] s'
               else split_lines (c :: cur) s'
  end.

Definition lines (s : gostring) : list gostring := split_lines [] s.

Definition is_prompt_line (l : gostring) : bool :=
  match rx_find sudoPromptRegex l with Some _ => true | None => false end.

Definition lost_lines (raw : gostring) : list gostring :=
  filter (fun l => negb (is_prompt_line l)
                   && negb (bool_decide (l ∈ lines (handledOutput raw))))
         (lines (crlf_to_lf raw)).

Definition nl (s : string) : gostring := str s ++ [LF].

(** ** Deduplication *)

(** [keys[v]] on a [map[string]bool]: a missing key reads as [false]. *)
Definition map_get (keys : gmap gostring bool) (v : gostring) : bool :=
  default false (keys !! v).

(** One round of the loop in [deDuplicate]. *)
Definition deDuplicate_step (st : list gostring * gmap gostring bool)
    (v : gostring) : list gostring * gmap gostring bool :=
  let '(set, keys) := st in
  if negb (map_get keys v) then (set ++ [v], <[v := true]> keys)
  else (set, keys).

Definition deDuplicate (hosts : list gostring) : list gostring :=
  fst (fold_left deDuplicate_step hosts ([], ∅)).

(** ** Data of the ssh layer and of the inventory

    [pkg/batchssh], [pkg/inventory] and [internal/pkg/configflags] are not
    among the sources verified here; the records list the fields the facade
    reads and writes. *)

Definition Signer := N.
Definition AgentConn := N.

Inductive AuthMethod : Type :=
| PublicKeys (signers : list Signer)
| Password (secret : gostring).

(** [batchssh.Host] *)
Record Host := mkHost {
  Alias : gostring;
  HostAddr : gostring;
  Port : Z;
  User : gostring;
  HostPassword : gostring;
  Keys : list gostring;
  SSHAuths : list AuthMethod
}.

(** [inventory.Host] *)
Record InvHost := mkInvHost {
  inv_Alias : gostring;
  inv_Host : gostring;
  inv_Port : Z;
  inv_User : gostring;
  inv_Password : gostring;
  inv_Keys : list gostring;
  inv_Passphrase : gostring
}.

(** [batchssh.Result] *)
Record Result := mkResult {
  res_Host : gostring;
  res_Status : gostring;
  res_Message : gostring
}.

Record Auth := mkAuth {
  auth_User : gostring;
  auth_Password : gostring;
  auth_AskPass : bool;
  auth_PassFile : gostring;
  auth_IdentityFiles : list gostring;
  auth_Passphrase : gostring;
  auth_VaultPassFile : gostring
}.

Record HostsConf := mkHostsConf {
  hosts_Inventory : gostring;
  hosts_Port : Z;
  hosts_List : bool
}.

Record RunConf := mkRunConf {
  run_Sudo : bool;
  run_AsUser : gostring
}.

Record ConfigFlags := mkConfigFlags {
  cfg_Auth : Auth;
  cfg_Hosts : HostsConf;
  cfg_Run : RunConf;
  cfg_TimeoutTask : Z
}.

(** One round of the loop in [deDuplSSHHosts]. *)
Definition deDuplSSHHosts_step (st : list Host * gmap gostring bool)
    (v : Host) : list Host * gmap gostring bool :=
  let '(set, keys) := st in
  if negb (map_get keys (Alias v)) then (set ++ [v], <[Alias v := true]> keys)
  else (set, keys).

Definition deDuplSSHHosts (hosts : list Host) : list Host :=
  fst (fold_left deDuplSSHHosts_step hosts ([], ∅)).

(** ** Errors, the terminal and the process

    An [error] value is either one a library call returned or one built with
    [fmt.Errorf] / [fmt.Sprintf] (format and string arguments, with the
    wrapped cause when there is one). *)

Inductive Error : Type :=
| LibError (code : N)
| Errorf (format : string) (args : list gostring)
| Wrapf (format : string) (args : list gostring) (cause : Error).

(** What the process does that can be observed from outside. *)
Inductive Event : Type :=
| EvPrompt (text : gostring)   (* text on stderr, then term.ReadPassword(0) *)
| EvPrint (text : gostring)    (* text on stdout *)
| EvMkdirAll (path : gostring)
| EvHostsCount (n : nat)       (* "\nhosts (%d)\n" on stderr *)
| EvStat (path : gostring)
| EvReadFile (path : gostring)
| EvExec (bin : gostring).

(** The terminal holds the lines the user will type; when they are used up
    [term.ReadPassword] fails. *)
Record World := mkWorld {
  tty : list gostring;
  trace : list Event
}.

Inductive Outcome (A : Type) : Type :=
| Done (a : A) (w : World)
| Exited (e : Error) (w : World).   (* os.Exit(1) after printing [e] *)
Arguments Done {A} a w.
Arguments Exited {A} e w.

Definition M (A : Type) : Type := World -> Outcome A.

#[export] Instance M_ret : MRet M := fun A a w => Done a w.

#[export] Instance M_bind : MBind M := fun A B f m w =>
  match m w with
  | Done a w' => f a w'
  | Exited e w' => Exited e w'
  end.

Definition emit (e : Event) : M unit :=
  fun w => Done tt (mkWorld (tty w) (trace w ++ [e])).

(** Modelled from the spec: [util.CheckErr] lives in [pkg/util], which is not
    among the sources verified here.  Fatal kinds "terminate the process with
    non-zero exit".  The call sites agree: a [nil] argument must do nothing
    (it is called on the error of every successful read), and after a
    non-nil one the callers go on as if nothing had failed
    ([getVaultPasswordFromFile] returns the empty password it has just
    rejected, [assignRealPass] logs "success", the [Args] of [vault view]
    return [nil] for a missing file), which is only sound if the call does
    not return. *)
Definition CheckErr (msg : option Error) : M unit :=
  fun w => match msg with
           | None => Done tt w
           | Some e => Exited e w
           end.

(** [term.ReadPassword(0)] *)
Definition term_ReadPassword : M (gostring * option Error) :=
  fun w => match tty w with
           | a :: rest => Done (a, None) (mkWorld rest (trace w))
           | [] => Done ([], Some (LibError 0)) w
           end.

(** ** What the task sends on its channels *)

(** [detailResult] *)
Record detailResult := mkDetail {
  d_taskID : gostring;
  d_hostname : gostring;
  d_status : gostring;
  d_output : gostring
}.

(** [taskResult]; [elapsed] is left out (a float). *)
Record taskResult := mkTaskResult {
  r_taskID : gostring;
  hostsSuccessCount : Z;
  hostsFailureCount : Z
}.

Inductive Output : Type :=
| OnDetailOutput (d : detailResult)
| OnTaskOutput (r : taskResult).

(** Go's [int] is 64 bits wide here; [x++] wraps. *)
Definition wrap64 (z : Z) : Z := ((z + 2 ^ 63) mod 2 ^ 64 - 2 ^ 63)%Z.
Definition int_incr (x : Z) : Z := wrap64 (x + 1).

(** ** The environment: file system, libraries, inventory

    Everything the facade calls outside the sources verified here. *)

Inductive ParsedKey : Type :=
| KeyParsed (k : Signer)
| KeyPassphraseMissing
| KeyParseError.

Record Env := mkEnv {
  (* os, io/ioutil, os/exec *)
  os_Stat : gostring -> option N;              (* the file mode bits *)
  ioutil_ReadFile : gostring -> gostring * option Error;
  exec_Output : gostring -> gostring * option Error;
  os_Getenv : string -> gostring;
  time_Now : gostring;
  (* internal/pkg/aes *)
  aes_IsAES256CipherText : gostring -> bool;
  aes_AES256Decode : gostring -> gostring -> gostring * option Error;
  (* golang.org/x/crypto/ssh, ssh/agent, ScaleFT/sshkeys, net *)
  ssh_ParsePrivateKey : gostring -> ParsedKey;
  sshkeys_ParseEncryptedPrivateKey : gostring -> gostring -> option Signer;
  net_Dial : gostring -> option AgentConn;
  agent_Signers : AgentConn -> list Signer * option Error;
  (* go-project-pkg/expandhost *)
  expandhost_PatternToHosts : gostring -> list gostring * option Error;
  (* pkg/inventory *)
  inventory_Parse : gostring -> option Error;
  inventory_GetAllHosts : list InvHost;
  inventory_GetHostsByGroup : gostring -> option (list InvHost);
  inventory_GetHostByAlias : gostring -> option InvHost;
  inventory_DeDuplHosts : list InvHost -> list InvHost;
  (* pkg/util, pkg/batchssh *)
  util_DirExists : gostring -> bool;
  os_MkdirAll : gostring -> option Error;
  batchssh_SuccessIdentifier : gostring;
  (* the results [sshClient.BatchRun] sends before it closes its channel *)
  batchssh_BatchRun : list Host -> list Result
}.

Section Facade.

Variable env : Env.
(** [configflags.Config], which is also the task's [configFlags]. *)
Variable Config : ConfigFlags.

(** *** package vault *)

(** [isExectuable]: [f.Mode().Perm()&0111 != 0] *)
Definition isExectuable (file : gostring) : M (bool * option Error) :=
  emit (EvStat file);;
  match os_Stat env file with
  | None => mret (false, Some (LibError 1))
  | Some mode => mret (negb (N.land (N.land mode 511) 73 =? 0), None)
  end.

Definition getVaultPasswordFromFile : M gostring :=
  let vaultPassFile := auth_VaultPassFile (cfg_Auth Config) in
  if negb (is_empty vaultPassFile) then
    '(ok, err) ← isExectuable vaultPassFile;
    CheckErr err;;
    if ok : bool then
      let bin := str "./" ++ vaultPassFile in
      emit (EvExec bin);;
      let '(out, err1) := exec_Output env bin in
      match err1 with
      | Some e =>
          CheckErr (Some (Wrapf
            "problem executing file '%s': %s, if this is not a executable file, remove the executable bit from the file"
            [vaultPassFile] e))
      | None => mret tt
      end;;
      let vaultPass := TrimSpace out in
      (if is_empty vaultPass then
         CheckErr (Some (Errorf
           "problem executing file '%s': output cannot be empty, if this is not a script, remove the executable bit from the file"
           [vaultPassFile]))
       else mret tt);;
      mret vaultPass
    else
      emit (EvReadFile vaultPassFile);;
      let '(passwordContent, err) := ioutil_ReadFile env vaultPassFile in
      let err :=
        match err with
        | Some e => Some (Wrapf "read vault password file '%s' failed: %w"
                            [vaultPassFile] e)
        | None => None
        end in
      CheckErr err;;
      let vaultPass := TrimSpace passwordContent in
      (if is_empty vaultPass then
         CheckErr (Some (Errorf "vault password file cannot be empty" []))
       else mret tt);;
      (if HasPrefix vaultPass (str "#!/") then
         CheckErr (Some (Errorf
           "'%s' looks like a script file, please add the executable bit to this file"
           [vaultPassFile]))
       else mret tt);;
      mret vaultPass
  else mret [].

(** [vault.getPasswordFromPrompt] *)
Definition vault_getPasswordFromPrompt (prompt : gostring)
    : M (gostring * option Error) :=
  emit (EvPrompt prompt);;
  '(passwordByte, err) ← term_ReadPassword;
  match err with
  | Some e => mret ([], Some e)
  | None => emit (EvPrint [LF]);; mret (passwordByte, None)
  end.

Definition vault_prompt : gostring := str "Vault password: ".

(** The [for] loop of [GetVaultPassword], by recursion on the lines still to
    be typed: one line is read per round, and the round that finds the
    terminal exhausted exits. *)
Fixpoint GetVaultPassword_loop (inputs : list gostring) (tr : list Event)
    : Outcome gostring :=
  let tr1 := tr ++ [EvPrompt vault_prompt] in
  match inputs with
  | [] =>
      Exited (Wrapf "get vault password from terminal prompt '%s' failed: %s"
                [vault_prompt] (LibError 0))
             (mkWorld [] tr1)
  | password :: rest =>
      let tr2 := tr1 ++ [EvPrint [LF]] in
      if negb (is_empty password) then Done password (mkWorld rest tr2)
      else GetVaultPassword_loop rest
             (tr2 ++ [EvPrint (nl "password can not be null, retry")])
  end.

(** One round of that loop as the source writes it; [again] is the next
    round. *)
Definition GetVaultPassword_round (again : M gostring) : M gostring :=
  '(password, err) ← vault_getPasswordFromPrompt vault_prompt;
  match err with
  | Some e =>
      CheckErr (Some (Wrapf
        "get vault password from terminal prompt '%s' failed: %s"
        [vault_prompt] e))
  | None => mret tt
  end;;
  if negb (is_empty password) then mret password
  else emit (EvPrint (nl "password can not be null, retry"));; again.

Definition GetVaultPassword_prompt : M gostring :=
  fun w => GetVaultPassword_loop (tty w) (trace w).

Definition GetVaultPassword : M gostring :=
  password ← getVaultPasswordFromFile;
  if negb (is_empty password) then mret password
  else GetVaultPassword_prompt.

(** *** package sshtask *)

Inductive TaskType : Type := CommandTask | ScriptTask | PushTask | FetchTask.

Record Task := mkTask {
  id : gostring;
  taskType : TaskType;
  sshAgent : option AgentConn;
  defaultUser : gostring;
  defaultPass : gostring;
  defaultIdentityFiles : list gostring;
  defaultSSHAuthMethods : list AuthMethod;
  argHosts : list gostring;
  command : gostring;
  scriptFile : gostring;
  pushFiles : option (list gostring * list gostring);
  fetchFiles : list gostring;
  dstDir : gostring;
  err : option Error
}.

Definition set_argHosts (t : Task) (hosts : list gostring) : Task :=
  mkTask (id t) (taskType t) (sshAgent t) (defaultUser t) (defaultPass t)
    (defaultIdentityFiles t) (defaultSSHAuthMethods t) hosts (command t)
    (scriptFile t) (pushFiles t) (fetchFiles t) (dstDir t) (err t).

Definition set_command (t : Task) (c : gostring) : Task :=
  mkTask (id t) (taskType t) (sshAgent t) (defaultUser t) (defaultPass t)
    (defaultIdentityFiles t) (defaultSSHAuthMethods t) (argHosts t) c
    (scriptFile t) (pushFiles t) (fetchFiles t) (dstDir t) (err t).

Definition set_err (t : Task) (e : option Error) : Task :=
  mkTask (id t) (taskType t) (sshAgent t) (defaultUser t) (defaultPass t)
    (defaultIdentityFiles t) (defaultSSHAuthMethods t) (argHosts t)
    (command t) (scriptFile t) (pushFiles t) (fetchFiles t) (dstDir t) e.

Definition set_auth (t : Task) (agent : option AgentConn) (pass : gostring)
    (auths : list AuthMethod) : Task :=
  mkTask (id t) (taskType t) agent (defaultUser t) pass
    (defaultIdentityFiles t) auths (argHosts t) (command t) (scriptFile t)
    (pushFiles t) (fetchFiles t) (dstDir t) (err t).

(** [sshtask.getPasswordFromPrompt] *)
Definition getPasswordFromPrompt (loginUser : gostring) : M gostring :=
  emit (EvPrompt (str "Password for " ++ loginUser ++ str ": "));;
  '(passwordByte, err) ← term_ReadPassword;
  let err :=
    match err with
    | Some e => Some (Wrapf "get password from terminal failed: %s" [] e)
    | None => None
    end in
  CheckErr err;;
  emit (EvPrint [LF]);;
  mret passwordByte.

(** [assignRealPass]; the new value of [*pass] is the result. *)
Definition assignRealPass (pass : gostring) (host objectType : gostring)
    : M gostring :=
  if aes_IsAES256CipherText env pass then
    vaultPass ← GetVaultPassword;
    let '(pass', err) := aes_AES256Decode env pass vaultPass in
    match err with
    | Some e => CheckErr (Some e)
    | None => mret tt
    end;;
    mret pass'
  else mret pass.

Definition getDefaultPassword (auth : Auth) : M gostring :=
  let authFile := auth_PassFile auth in
  password ←
    (if negb (is_empty authFile) then
       emit (EvReadFile authFile);;
       let '(passwordContent, err) := ioutil_ReadFile env authFile in
       let err :=
         match err with
         | Some e => Some (Wrapf "read password file '%s' failed: %w"
                             [authFile] e)
         | None => None
         end in
       CheckErr err;;
       mret (TrimSpace passwordContent)
     else mret []);
  let passwordFromFlag := auth_Password auth in
  let password :=
    if negb (is_empty passwordFromFlag) then passwordFromFlag else password in
  password ← assignRealPass password (str "default") (str "password");
  if auth_AskPass auth then getPasswordFromPrompt (auth_User auth)
  else mret password.

(** [strings.Replace(file, "~", homeDir, 1)] *)
Fixpoint replace_first (c : rune) (new : gostring) (s : gostring) : gostring :=
  match s with
  | [] => []
  | d :: s' => if d =? c then new ++ s' else d :: replace_first c new s'
  end.

Definition parseItentityFiles (identityFiles : list gostring)
    : list gostring :=
  let homeDir := os_Getenv env "HOME" in
  map (fun file =>
         if HasPrefix file (str "~/") then replace_first 126 homeDir file
         else file)
      identityFiles.

(** [getSigner], without the message it returns for the debug log. *)
Definition getSigner (keyfile passphrase : gostring) : option Signer :=
  match ioutil_ReadFile env keyfile with
  | (_, Some _) => None
  | (buf, None) =>
      match ssh_ParsePrivateKey env buf with
      | KeyParsed pubkey => Some pubkey
      | KeyPassphraseMissing =>
          sshkeys_ParseEncryptedPrivateKey env buf passphrase
      | KeyParseError => None
      end
  end.

Definition getSigners (keyfiles : list gostring) (passphrase : gostring)
    : list Signer :=
  fold_left (fun signers f =>
               match getSigner f passphrase with
               | Some signer => signers ++ [signer]
               | None => signers
               end)
            keyfiles [].

Definition NewTask (taskType : TaskType) : M Task :=
  let defaultIdentityFiles :=
    parseItentityFiles (auth_IdentityFiles (cfg_Auth Config)) in
  defaultPass ← getDefaultPassword (cfg_Auth Config);
  mret {| id := time_Now env;
          taskType := taskType;
          sshAgent := None;
          defaultUser := auth_User (cfg_Auth Config);
          defaultPass := defaultPass;
          defaultIdentityFiles := defaultIdentityFiles;
          defaultSSHAuthMethods := [];
          argHosts := [];
          command := [];
          scriptFile := [];
          pushFiles := None;
          fetchFiles := [];
          dstDir := [];
          err := None |}.

Definition SetTargetHosts (t : Task) (hosts : list gostring) : Task :=
  set_argHosts t hosts.

Definition SetCommand (t : Task) (c : gostring) : Task := set_command t c.

(** The agent part of [setDefaultSSHAuthMethods]: the signers it yields and
    the connection kept in [t.sshAgent]. *)
Definition agentSigners : list Signer * option AgentConn :=
  let sshAuthSock := os_Getenv env "SSH_AUTH_SOCK" in
  if negb (is_empty sshAuthSock) then
    match net_Dial env sshAuthSock with
    | None => ([], None)
    | Some conn => (fst (agent_Signers env conn), Some conn)
    end
  else ([], None).

Definition setDefaultSSHAuthMethods (t : Task) : M Task :=
  let '(signers, agentConn) := agentSigners in
  let sshAgent' :=
    if negb (is_empty (os_Getenv env "SSH_AUTH_SOCK")) then agentConn
    else sshAgent t in
  let signers :=
    if negb (length (defaultIdentityFiles t) =? 0)%nat then
      let sshSigners :=
        getSigners (defaultIdentityFiles t)
                   (auth_Passphrase (cfg_Auth Config)) in
      if negb (length sshSigners =? 0)%nat then signers ++ sshSigners
      else signers
    else signers in
  let auths := [] in
  let auths :=
    if negb (length signers =? 0)%nat then auths ++ [PublicKeys signers]
    else auths in
  let auths :=
    if negb (is_empty (defaultPass t)) then auths ++ [Password (defaultPass t)]
    else auths in
  '(pass, auths) ←
    (if is_empty (defaultPass t) && run_Sudo (cfg_Run Config) then
       pass ← getPasswordFromPrompt (defaultUser t);
       mret (pass, auths ++ [Password pass])
     else mret (defaultPass t, auths));
  mret (set_auth t sshAgent' pass auths).

Definition invalid_pattern (e : Error) : Error :=
  Wrapf "invalid host pattern: %s" [] e.

(** The lookup of one expanded name in [getInventoryHosts]: a group, else a
    host alias, else an anonymous host. *)
Definition lookupInventory (host : gostring) : list InvHost :=
  match inventory_GetHostsByGroup env host with
  | Some _fileHosts => _fileHosts
  | None =>
      match inventory_GetHostByAlias env host with
      | Some _host => [_host]
      | None =>
          [ {| inv_Alias := host; inv_Host := host; inv_Port := 0%Z;
               inv_User := []; inv_Password := []; inv_Keys := [];
               inv_Passphrase := [] |} ]
      end
  end.

Fixpoint getInventoryHosts_args (args : list gostring)
    (fileHosts : list InvHost) : list InvHost * option Error :=
  match args with
  | [] => (fileHosts, None)
  | v :: args' =>
      match expandhost_PatternToHosts env v with
      | (_, Some e) => ([], Some (invalid_pattern e))
      | (hostList, None) =>
          getInventoryHosts_args args'
            (fold_left (fun acc host => acc ++ lookupInventory host)
                       hostList fileHosts)
      end
  end.

Definition getInventoryHosts (t : Task) : list InvHost * option Error :=
  match inventory_Parse env (hosts_Inventory (cfg_Hosts Config)) with
  | Some e => ([], Some e)
  | None =>
      if (length (argHosts t) =? 0)%nat then (inventory_GetAllHosts env, None)
      else getInventoryHosts_args (argHosts t) []
  end.

Definition helpErr : Error :=
  Errorf
    "need target hosts, you can specify hosts file by flag '-i', provide host/pattern/group as positional arguments"
    [].

(** The loop of [getAllHosts] over the command-line arguments, when no
    inventory is configured. *)
Fixpoint getAllHosts_args (t : Task) (args : list gostring)
    (hosts : list Host) : list Host * option Error :=
  match args with
  | [] => (hosts, None)
  | hostOrPattern :: args' =>
      let hostOrPattern := TrimSpace hostOrPattern in
      if is_empty hostOrPattern then getAllHosts_args t args' hosts
      else
        match expandhost_PatternToHosts env hostOrPattern with
        | (_, Some e) => ([], Some (invalid_pattern e))
        | (hostList, None) =>
            getAllHosts_args t args'
              (hosts ++
               map (fun v =>
                      {| Alias := v; HostAddr := v;
                         Port := hosts_Port (cfg_Hosts Config);
                         User := defaultUser t;
                         HostPassword := defaultPass t;
                         Keys := defaultIdentityFiles t;
                         SSHAuths := defaultSSHAuthMethods t |})
                   hostList)
        end
  end.

(** The body of the loop of [getAllHosts] over the inventory hosts. *)
Definition getAllHosts_host (t : Task) (v : InvHost) : M Host :=
  let hostSSHAuths := [] in
  let vPort :=
    if (inv_Port v =? 0)%Z then hosts_Port (cfg_Hosts Config)
    else inv_Port v in
  let vUser := if is_empty (inv_User v) then defaultUser t else inv_User v in
  hostSSHAuths ←
    (if negb (length (inv_Keys v) =? 0)%nat then
       let keys := parseItentityFiles (inv_Keys v) in
       vPassphrase ←
         assignRealPass (inv_Passphrase v) (inv_Alias v) (str "passphrase");
       let sshSigners := getSigners keys vPassphrase in
       if (length sshSigners =? 0)%nat then mret hostSSHAuths
       else mret (hostSSHAuths ++ [PublicKeys sshSigners])
     else mret hostSSHAuths);
  '(vPassword, hostSSHAuths) ←
    (if is_empty (inv_Password v) then
       vPassword ←
         assignRealPass (defaultPass t) (inv_Alias v) (str "password");
       mret (vPassword, hostSSHAuths)
     else
       vPassword ←
         assignRealPass (inv_Password v) (inv_Alias v) (str "password");
       mret (vPassword, hostSSHAuths ++ [Password vPassword]));
  let hostSSHAuths := hostSSHAuths ++ defaultSSHAuthMethods t in
  mret {| Alias := inv_Alias v; HostAddr := inv_Host v; Port := vPort;
          User := vUser; HostPassword := vPassword; Keys := inv_Keys v;
          SSHAuths := hostSSHAuths |}.

Fixpoint getAllHosts_inventory (t : Task) (vs : list InvHost)
    (hosts : list Host) : M (list Host) :=
  match vs with
  | [] => mret hosts
  | v :: vs' =>
      h ← getAllHosts_host t v;
      getAllHosts_inventory t vs' (hosts ++ [h])
  end.

Definition getAllHosts (t : Task) : M (list Host * option Error) :=
  if is_empty (hosts_Inventory (cfg_Hosts Config)) then
    if negb (length (argHosts t) =? 0)%nat then
      match getAllHosts_args t (argHosts t) [] with
      | (_, Some e) => mret ([], Some e)
      | (hosts, None) => mret (deDuplSSHHosts hosts, None)
      end
    else mret ([], Some helpErr)
  else
    match getInventoryHosts t with
    | (_, Some e) => mret ([], Some e)
    | (targetHosts, None) =>
        if (length targetHosts =? 0)%nat then mret ([], Some helpErr)
        else
          hosts ← getAllHosts_inventory t
                    (inventory_DeDuplHosts env targetHosts) [];
          mret (hosts, None)
    end.

(** The loop of [ListHosts] over the command-line arguments. *)
Fixpoint ListHosts_args (args : list gostring) (hosts : list gostring)
    : list gostring * option Error :=
  match args with
  | [] => (hosts, None)
  | hostOrPattern :: args' =>
      let hostOrPattern := TrimSpace hostOrPattern in
      if is_empty hostOrPattern then ListHosts_args args' hosts
      else
        match expandhost_PatternToHosts env hostOrPattern with
        | (_, Some e) => ([], Some (invalid_pattern e))
        | (hostList, None) => ListHosts_args args' (hosts ++ hostList)
        end
  end.

Definition ListHosts (t : Task) : list gostring * option Error :=
  if is_empty (hosts_Inventory (cfg_Hosts Config)) then
    match ListHosts_args (argHosts t) [] with
    | (_, Some e) => ([], Some e)
    | (hosts, None) => (deDuplicate hosts, None)
    end
  else
    match getInventoryHosts t with
    | (_, Some e) => ([], Some e)
    | (targetHosts, None) =>
        (map inv_Alias (inventory_DeDuplHosts env targetHosts), None)
    end.

(** One round of the loop of [BatchRun] over the results. *)
Definition BatchRun_step (t : Task) (st : Z * Z * list Output) (v : Result)
    : Z * Z * list Output :=
  let '(successCount, failedCount, sent) := st in
  let '(successCount, failedCount) :=
    if str_eqb (res_Status v) (batchssh_SuccessIdentifier env)
    then (int_incr successCount, failedCount)
    else (successCount, int_incr failedCount) in
  (successCount, failedCount,
   sent ++ [OnDetailOutput {| d_taskID := id t; d_hostname := res_Host v;
                              d_status := res_Status v;
                              d_output := res_Message v |}]).

(** [BatchRun] from [result := t.sshClient.BatchRun(allHosts, t)] on: what is
    sent on [detailOutput] and [taskOutput], in order. *)
Definition BatchRun_collect (t : Task) (result : list Result) : list Output :=
  let '(successCount, failedCount, sent) :=
    fold_left (BatchRun_step t) result (0%Z, 0%Z, []) in
  sent ++ [OnTaskOutput {| r_taskID := id t;
                           hostsSuccessCount := successCount;
                           hostsFailureCount := failedCount |}].

Definition need_execute : Error :=
  Errorf "need flag '-e/--execute' or '-l/--hosts.list'" [].
Definition need_files : Error :=
  Errorf "need flag '-f/--files' or '-l/--hosts.list'" [].
Definition need_dest : Error :=
  Errorf "need flag '-d/--dest-path' or '-l/--hosts.list'" [].

(** The [switch t.taskType] of [BatchRun]. *)
Definition BatchRun_check (t : Task) : M Task :=
  match taskType t with
  | CommandTask =>
      if is_empty (command t) then mret (set_err t (Some need_execute))
      else mret t
  | ScriptTask =>
      if is_empty (scriptFile t) then mret (set_err t (Some need_execute))
      else mret t
  | PushTask =>
      match pushFiles t with
      | None => mret (set_err t (Some need_files))
      | Some (files, _) =>
          if (length files =? 0)%nat then mret (set_err t (Some need_files))
          else mret t
      end
  | FetchTask =>
      if (length (fetchFiles t) =? 0)%nat then
        mret (set_err t (Some need_files))
      else if (length (dstDir t) =? 0)%nat then
        mret (set_err t (Some need_dest))
      else if negb (util_DirExists env (dstDir t)) then
        emit (EvMkdirAll (dstDir t));;
        CheckErr (os_MkdirAll env (dstDir t));;
        mret t
      else mret t
  end.

(** [BatchRun]: the task afterwards and what it sent on its channels.
    [buildSSHClient] only stores the configured client and is left out. *)
Definition BatchRun (t : Task) : M (Task * list Output) :=
  if hosts_List (cfg_Hosts Config) then
    match ListHosts t with
    | (_, Some e) => mret (set_err t (Some e), [])
    | (allHosts, None) =>
        fold_right (fun v k => emit (EvPrint (v ++ [LF]));; k)
                   (mret tt) allHosts;;
        emit (EvHostsCount (length allHosts));;
        mret (t, [])
    end
  else
    t ← BatchRun_check t;
    match err t with
    | Some _ => mret (t, [])
    | None =>
        t ← setDefaultSSHAuthMethods t;
        '(allHosts, e) ← getAllHosts t;
        match e with
        | Some e => mret (set_err t (Some e), [])
        | None =>
            mret (t, BatchRun_collect t (batchssh_BatchRun env allHosts))
        end
    end.

End Facade.

(** ** Start: the three goroutines and the two channels

    [Start] runs [BatchRun] in a goroutine that closes both channels when it
    returns (deferred: [detailOutput] first, then [taskOutput]), starts the
    timer goroutine when [Timeout.Task > 0], and drains the channels in
    [HandleOutput].  A state holds where each goroutine stands and whether
    each channel is still open; a schedule says which goroutine moves next.
    Closing a closed channel and sending on a closed channel panic. *)

Module Start.

Inductive Panic : Type := CloseOfClosedChannel | SendOnClosedChannel.

Inductive LogEntry : Type :=
| LogSuccess (hostname output : gostring)
| LogFailed (hostname status output : gostring)
| LogSummary (success failed : Z)
| LogTaskTimeout (taskID : gostring) (timeout : Z).

(** The goroutine running [BatchRun]: what it has still to send, then its
    deferred calls. *)
Inductive Runner : Type :=
| Sending (todo : list Output)
| DeferCloseDetail
| DeferCloseTask
| RunnerDone.

(** The goroutine of the task timeout. *)
Inductive Timer : Type :=
| NoTimer
| Sleeping
| TimerCloseDetail
| TimerCloseTask
| TimerDone.

(** [HandleOutput] in the calling goroutine. *)
Inductive Handler : Type :=
| RangeDetail
| RangeTask
| Returned.

Record State := mkState {
  runner : Runner;
  timer : Timer;
  handler : Handler;
  detailOpen : bool;              (* detailOutput, unbuffered *)
  taskOpen : bool;                (* taskOutput, capacity 1 *)
  taskBuf : list taskResult;
  log : list LogEntry;
  panicked : option Panic
}.

Inductive Goroutine : Type := GoRunner | GoTimer | GoHandler.

Section Run.

Variable successIdentifier : gostring.
Variable taskID : gostring.
Variable taskTimeout : Z.

Definition init (sent : list Output) : State :=
  {| runner := Sending sent;
     timer := if (0 <? taskTimeout)%Z then Sleeping else NoTimer;
     handler := RangeDetail;
     detailOpen := true; taskOpen := true; taskBuf := [];
     log := []; panicked := None |}.

Definition set_panic (s : State) (p : Panic) : State :=
  mkState (runner s) (timer s) (handler s) (detailOpen s) (taskOpen s)
    (taskBuf s) (log s) (Some p).

(** The body of the first loop of [HandleOutput] for one record. *)
Definition logDetail (res : detailResult) : LogEntry :=
  let output := handledOutput (d_output res) in
  if str_eqb (d_status res) successIdentifier
  then LogSuccess (d_hostname res) output
  else LogFailed (d_hostname res) (d_status res) output.

Definition step_runner (s : State) : option State :=
  match runner s with
  | Sending (OnDetailOutput d :: todo) =>
      if negb (detailOpen s) then Some (set_panic s SendOnClosedChannel)
      else
        match handler s with
        | RangeDetail =>
            Some (mkState (Sending todo) (timer s) (handler s) (detailOpen s)
                    (taskOpen s) (taskBuf s) (log s ++ [logDetail d])
                    (panicked s))
        | _ => None
        end
  | Sending (OnTaskOutput r :: todo) =>
      if negb (taskOpen s) then Some (set_panic s SendOnClosedChannel)
      else
        match taskBuf s with
        | [] =>
            Some (mkState (Sending todo) (timer s) (handler s) (detailOpen s)
                    (taskOpen s) [r] (log s) (panicked s))
        | _ :: _ => None
        end
  | Sending [] =>
      Some (mkState DeferCloseDetail (timer s) (handler s) (detailOpen s)
              (taskOpen s) (taskBuf s) (log s) (panicked s))
  | DeferCloseDetail =>
      if negb (detailOpen s) then Some (set_panic s CloseOfClosedChannel)
      else Some (mkState DeferCloseTask (timer s) (handler s) false
                   (taskOpen s) (taskBuf s) (log s) (panicked s))
  | DeferCloseTask =>
      if negb (taskOpen s) then Some (set_panic s CloseOfClosedChannel)
      else Some (mkState RunnerDone (timer s) (handler s) (detailOpen s)
                   false (taskBuf s) (log s) (panicked s))
  | RunnerDone => None
  end.

Definition step_timer (s : State) : option State :=
  match timer s with
  | NoTimer | TimerDone => None
  | Sleeping =>
      Some (mkState (runner s) TimerCloseDetail (handler s) (detailOpen s)
              (taskOpen s) (taskBuf s)
              (log s ++ [LogTaskTimeout taskID taskTimeout]) (panicked s))
  | TimerCloseDetail =>
      if negb (detailOpen s) then Some (set_panic s CloseOfClosedChannel)
      else Some (mkState (runner s) TimerCloseTask (handler s) false
                   (taskOpen s) (taskBuf s) (log s) (panicked s))
  | TimerCloseTask =>
      if negb (taskOpen s) then Some (set_panic s CloseOfClosedChannel)
      else Some (mkState (runner s) TimerDone (handler s) (detailOpen s)
                   false (taskBuf s) (log s) (panicked s))
  end.

(** A receive from [detailOutput] happens together with the runner's send
    (see [step_runner]); on its own the handler only notices a closed
    channel or takes the buffered summary. *)
Definition step_handler (s : State) : option State :=
  match handler s with
  | RangeDetail =>
      if negb (detailOpen s) then
        Some (mkState (runner s) (timer s) RangeTask (detailOpen s)
                (taskOpen s) (taskBuf s) (log s) (panicked s))
      else None
  | RangeTask =>
      match taskBuf s with
      | r :: buf =>
          Some (mkState (runner s) (timer s) RangeTask (detailOpen s)
                  (taskOpen s) buf
                  (log s ++ [LogSummary (hostsSuccessCount r)
                                        (hostsFailureCount r)])
                  (panicked s))
      | [] =>
          if negb (taskOpen s) then
            Some (mkState (runner s) (timer s) Returned (detailOpen s)
                    (taskOpen s) (taskBuf s) (log s) (panicked s))
          else None
      end
  | Returned => None
  end.

(** A panic ends the process; nothing moves after it. *)
Definition step (g : Goroutine) (s : State) : option State :=
  match panicked s with
  | Some _ => None
  | None =>
      match g with
      | GoRunner => step_runner s
      | GoTimer => step_timer s
      | GoHandler => step_handler s
      end
  end.

Fixpoint run (schedule : list Goroutine) (s : State) : option State :=
  match schedule with
  | [] => Some s
  | g :: schedule' =>
      match step g s with
      | Some s' => run schedule' s'
      | None => None
      end
  end.

End Run.

(** Without a task timeout nothing panics: the channels are closed only by
    the deferred calls of the runner, each once. *)
Definition no_timer_inv (s : State) : Prop :=
  timer s = NoTimer /\ panicked s = None /\
  match runner s with
  | Sending _ | DeferCloseDetail => detailOpen s = true /\ taskOpen s = true
  | DeferCloseTask => taskOpen s = true
  | RunnerDone => True
  end.

(** The schedule on which the timer fires first and the runner then goes
    on. *)
Definition timer_first (sent : list Output) : list Goroutine :=
  [GoTimer; GoTimer; GoTimer; GoRunner]
  ++ match sent with [] => [GoRunner] | _ :: _ => [] end.

End Start.

(** ** Properties the claims speak of *)

(** [i] is the position in [l] of the first entry that has its key. *)
Definition first_at {A} (key : A -> gostring) (l : list A) (i : nat) : Prop :=
  exists x, l !! i = Some x /\
    forall j y, (j < i)%nat -> l !! j = Some y -> key y <> key x.

(** [res] holds exactly the first occurrence of every key of [l], in the
    order of [l]: it is [l] read at the positions of the first occurrences,
    taken in increasing order. *)
Definition first_occurrences {A} (key : A -> gostring) (l res : list A)
    : Prop :=
  exists positions : list nat,
    StronglySorted lt positions /\
    (forall i, i ∈ positions <-> first_at key l i) /\
    Forall2 (fun i x => l !! i = Some x) positions res.

(** The record [BatchRun] forwards for one result. *)
Definition detailOf (taskID : gostring) (v : Result) : detailResult :=
  {| d_taskID := taskID; d_hostname := res_Host v;
     d_status := res_Status v; d_output := res_Message v |}.

Definition succeeded (env : Env) (v : Result) : Prop :=
  res_Status v = batchssh_SuccessIdentifier env.

#[export] Instance succeeded_dec env v : Decision (succeeded env v).
Proof. unfold succeeded. apply _. Defined.

(** ** Notions used in the statements *)

(** A continuation that can only succeed on a text beginning with '['. *)
Definition starts_with_bracket (k : gostring -> option gostring) : Prop :=
  forall t, head t <> Some 91 -> k t = None.

(** A user name as [linuxUserRegex] reads it: one or more of the characters
    [[a-zA-Z0-9_.-]]. *)
Definition user_name (name : gostring) : Prop :=
  name <> [] /\ Forall (fun c => linuxUserChar c = true) name.

(** The optional '$' after the name. *)
Definition dollar_opt (d : gostring) : Prop := d = [] \/ d = [36].

(** The two prompts of sudo, up to the colon. *)
Inductive sudo_prompt : gostring -> Prop :=
| prompt_en name d :
    user_name name -> dollar_opt d ->
    sudo_prompt (sudo_en_head ++ name ++ d ++ [58])
| prompt_zh name d :
    user_name name -> dollar_opt d ->
    sudo_prompt (sudo_zh_head ++ name ++ d ++ sudo_zh_tail).

(** No prompt anywhere in [s]. *)
Definition prompt_free (s : gostring) : Prop :=
  forall a p b, s = a ++ p ++ b -> ~ sudo_prompt p.

(** The newline directly after the prompt goes with it. *)
Definition drop_newline (s : gostring) : gostring :=
  match s with
  | c :: s' => if c =? LF then s' else s
  | [] => []
  end.

(** Where a run of name characters ends is decided by the text. *)
Definition stops (r : gostring) : Prop :=
  match r with c :: _ => linuxUserChar c = false | [] => True end.

(** The loop body shared by [deDuplicate] and [deDuplSSHHosts]. *)
Definition dedup_step {A} (key : A -> gostring)
    (st : list A * gmap gostring bool) (v : A)
    : list A * gmap gostring bool :=
  let '(set, keys) := st in
  if negb (map_get keys (key v)) then (set ++ [v], <[key v := true]> keys)
  else (set, keys).

(** The loop run from the empty list and the empty map. *)
Definition dedup_by {A} (key : A -> gostring) (l : list A) : list A :=
  fst (fold_left (dedup_step key) l ([], ∅)).

(** What is on the trace after [n] empty answers. *)
Definition retried (n : nat) : list Event :=
  concat (replicate n [EvPrompt vault_prompt; EvPrint [LF];
                       EvPrint (nl "password can not be null, retry")]).

Definition executable_bits (mode : N) : bool :=
  negb (N.land (N.land mode 511) 73 =? 0).

Definition after (w : World) (evs : list Event) : World :=
  mkWorld (tty w) (trace w ++ evs).

Definition exec_empty_error (file : gostring) : Error :=
  Errorf
    "problem executing file '%s': output cannot be empty, if this is not a script, remove the executable bit from the file"
    [file].

Definition file_empty_error : Error :=
  Errorf "vault password file cannot be empty" [].

Definition looks_like_script_error (file : gostring) : Error :=
  Errorf
    "'%s' looks like a script file, please add the executable bit to this file"
    [file].

Definition login_prompt (user : gostring) : gostring :=
  str "Password for " ++ user ++ str ": ".

(** The signers of the agent, then those of the default identity files. *)
Definition defaultSigners (env : Env) (Config : ConfigFlags) (t : Task)
    : list Signer :=
  fst (agentSigners env)
  ++ getSigners env (defaultIdentityFiles t)
       (auth_Passphrase (cfg_Auth Config)).

Definition publicKeyMethod (signers : list Signer) : list AuthMethod :=
  match signers with [] => [] | _ :: _ => [PublicKeys signers] end.

(** The password a host without identity files ends up with is decrypted
    from its own password, or from the default one when it has none. *)
Definition password_source (t : Task) (v : InvHost) : gostring :=
  if is_empty (inv_Password v) then defaultPass t else inv_Password v.

(** A host whose own password is a ciphertext that the typed answer opens. *)
Definition opens (env : Env) (v : InvHost) (answer : gostring) : Prop :=
  inv_Keys v = [] /\ inv_Password v <> [] /\
  aes_IsAES256CipherText env (inv_Password v) = true /\
  answer <> [] /\
  snd (aes_AES256Decode env (inv_Password v) answer) = None.

Definition decoded (env : Env) (v : InvHost) (vaultPass : gostring)
    : gostring :=
  fst (aes_AES256Decode env (inv_Password v) vaultPass).

(** A host whose own password is a ciphertext that [vaultPass] opens. *)
Definition opened_by (env : Env) (vaultPass : gostring) (v : InvHost)
    : Prop :=
  inv_Keys v = [] /\ inv_Password v <> [] /\
  aes_IsAES256CipherText env (inv_Password v) = true /\
  snd (aes_AES256Decode env (inv_Password v) vaultPass) = None.

(** ** Sample environments, for the concrete runs below *)

Module Sample.

Definition header : gostring := str "GOSSH-AES256:".

(** A stand-in codec: the ciphertext of [p] is the header followed by [p],
    and only the vault password [secret] opens it. *)
Definition decode (c vaultPass : gostring) : gostring * option Error :=
  if str_eqb vaultPass (str "secret") then (drop (length header) c, None)
  else ([], Some (LibError 7)).

(** No files, no agent, no inventory. *)
Definition env0 : Env :=
  {| os_Stat := fun _ => None;
     ioutil_ReadFile := fun _ => ([], Some (LibError 2));
     exec_Output := fun _ => ([], Some (LibError 3));
     os_Getenv := fun _ => [];
     time_Now := str "20240101120000";
     aes_IsAES256CipherText := fun s => HasPrefix s header;
     aes_AES256Decode := decode;
     ssh_ParsePrivateKey := fun _ => KeyParseError;
     sshkeys_ParseEncryptedPrivateKey := fun _ _ => None;
     net_Dial := fun _ => None;
     agent_Signers := fun _ => ([], None);
     expandhost_PatternToHosts := fun p => ([p], None);
     inventory_Parse := fun _ => None;
     inventory_GetAllHosts := [];
     inventory_GetHostsByGroup := fun _ => None;
     inventory_GetHostByAlias := fun _ => None;
     inventory_DeDuplHosts := fun hs => hs;
     util_DirExists := fun _ => true;
     os_MkdirAll := fun _ => None;
     batchssh_SuccessIdentifier := str "success";
     batchssh_BatchRun := fun _ => [] |}.

Definition with_files (e : Env) (stat : gostring -> option N)
    (read exec : gostring -> gostring * option Error) : Env :=
  mkEnv stat read exec (os_Getenv e) (time_Now e)
    (aes_IsAES256CipherText e) (aes_AES256Decode e) (ssh_ParsePrivateKey e)
    (sshkeys_ParseEncryptedPrivateKey e) (net_Dial e) (agent_Signers e)
    (expandhost_PatternToHosts e) (inventory_Parse e)
    (inventory_GetAllHosts e) (inventory_GetHostsByGroup e)
    (inventory_GetHostByAlias e) (inventory_DeDuplHosts e)
    (util_DirExists e) (os_MkdirAll e) (batchssh_SuccessIdentifier e)
    (batchssh_BatchRun e).

Definition with_inventory (e : Env) (hosts : list InvHost) : Env :=
  mkEnv (os_Stat e) (ioutil_ReadFile e) (exec_Output e) (os_Getenv e)
    (time_Now e) (aes_IsAES256CipherText e) (aes_AES256Decode e)
    (ssh_ParsePrivateKey e) (sshkeys_ParseEncryptedPrivateKey e)
    (net_Dial e) (agent_Signers e) (expandhost_PatternToHosts e)
    (inventory_Parse e) hosts (inventory_GetHostsByGroup e)
    (inventory_GetHostByAlias e) (inventory_DeDuplHosts e)
    (util_DirExists e) (os_MkdirAll e) (batchssh_SuccessIdentifier e)
    (batchssh_BatchRun e).

(** A live agent behind [SSH_AUTH_SOCK] holding [agentKeys]; every identity
    file parses to the key [fileKey]. *)
Definition with_agent (e : Env) (agentKeys : list Signer) (fileKey : Signer)
    : Env :=
  mkEnv (os_Stat e) (fun _ => (str "key", None)) (exec_Output e)
    (fun name => if String.eqb name "SSH_AUTH_SOCK" then str "/tmp/agent.sock"
                 else str "/home/alice")
    (time_Now e) (aes_IsAES256CipherText e) (aes_AES256Decode e)
    (fun _ => KeyParsed fileKey) (sshkeys_ParseEncryptedPrivateKey e)
    (fun _ => Some 1) (fun _ => (agentKeys, None))
    (expandhost_PatternToHosts e) (inventory_Parse e)
    (inventory_GetAllHosts e) (inventory_GetHostsByGroup e)
    (inventory_GetHostByAlias e) (inventory_DeDuplHosts e)
    (util_DirExists e) (os_MkdirAll e) (batchssh_SuccessIdentifier e)
    (batchssh_BatchRun e).

Definition task0 (pass : gostring) (identityFiles : list gostring) : Task :=
  {| id := str "20240101120000"; taskType := CommandTask; sshAgent := None;
     defaultUser := str "alice"; defaultPass := pass;
     defaultIdentityFiles := identityFiles; defaultSSHAuthMethods := [];
     argHosts := []; command := str "id -un"; scriptFile := [];
     pushFiles := None; fetchFiles := []; dstDir := []; err := None |}.

Definition auth0 : Auth :=
  {| auth_User := str "alice"; auth_Password := []; auth_AskPass := false;
     auth_PassFile := []; auth_IdentityFiles := []; auth_Passphrase := [];
     auth_VaultPassFile := [] |}.

Definition config (auth : Auth) (inventory : gostring) (sudo : bool)
    (timeout : Z) : ConfigFlags :=
  {| cfg_Auth := auth;
     cfg_Hosts := {| hosts_Inventory := inventory; hosts_Port := 22%Z;
                     hosts_List := false |};
     cfg_Run := {| run_Sudo := sudo; run_AsUser := str "root" |};
     cfg_TimeoutTask := timeout |}.

Definition typed (answers : list gostring) : World := mkWorld answers [].

(** A host as [getAllHosts] builds it for the name [alias]. *)
Definition resolved_sample (alias : gostring) : Host :=
  {| Alias := alias; HostAddr := alias; Port := 22%Z; User := str "alice";
     HostPassword := []; Keys := []; SSHAuths := [] |}.

Definition inv_host (alias password : gostring) : InvHost :=
  {| inv_Alias := alias; inv_Host := alias; inv_Port := 0%Z; inv_User := [];
     inv_Password := password; inv_Keys := []; inv_Passphrase := [] |}.

End Sample.

(** How often the trace shows the vault password being obtained: prompts
    for it, and reads or executions of the vault password file. *)
Definition is_vault_prompt (e : Event) : bool :=
  match e with
  | EvPrompt text => str_eqb text (str "Vault password: ")
  | _ => false
  end.

Definition vault_prompts (tr : list Event) : nat :=
  length (List.filter is_vault_prompt tr).

(** The host [getAllHosts] builds for an inventory host without identity
    files that has a password of its own, once that password is [pw]. *)
Definition resolved (Config : ConfigFlags) (t : Task) (v : InvHost)
    (pw : gostring) : Host :=
  {| Alias := inv_Alias v; HostAddr := inv_Host v;
     Port := if (inv_Port v =? 0)%Z then hosts_Port (cfg_Hosts Config)
             else inv_Port v;
     User := if is_empty (inv_User v) then defaultUser t else inv_User v;
     HostPassword := pw; Keys := inv_Keys v;
     SSHAuths := [Password pw] ++ defaultSSHAuthMethods t |}.

(** The host [getAllHosts] builds for an inventory host without identity
    files and without a password of its own, once the default password it is
    given has become [pw]. *)
Definition resolved_default (Config : ConfigFlags) (t : Task) (v : InvHost)
    (pw : gostring) : Host :=
  {| Alias := inv_Alias v; HostAddr := inv_Host v;
     Port := if (inv_Port v =? 0)%Z then hosts_Port (cfg_Hosts Config)
             else inv_Port v;
     User := if is_empty (inv_User v) then defaultUser t else inv_User v;
     HostPassword := pw; Keys := inv_Keys v;
     SSHAuths := defaultSSHAuthMethods t |}.

(** How often the trace shows a prompt on the terminal. *)
Definition is_prompt (e : Event) : bool :=
  match e with EvPrompt _ => true | _ => false end.

Definition prompts (tr : list Event) : nat :=
  length (List.filter is_prompt tr).

(** A command run up to the point where [BatchRun] resolves the hosts:
    [NewTask], [SetTargetHosts], [SetCommand], and, in [BatchRun],
    [setDefaultSSHAuthMethods]. *)
Definition prepareTask (env : Env) (Config : ConfigFlags)
    (args : list gostring) (cmd : gostring) : M Task :=
  t ← NewTask env Config CommandTask;
  setDefaultSSHAuthMethods env Config (SetCommand (SetTargetHosts t args) cmd).

Module C1Sample.
Import Sample.

(** Two inventory hosts: the password of [h1] is a ciphertext, that of [h2]
    is plain.  The user types a wrong vault password. *)
Definition h1 : InvHost := inv_host (str "h1") (header ++ str "hunter2").
Definition h2 : InvHost := inv_host (str "h2") (str "plain").
Definition env : Env := with_inventory env0 [h1; h2].
Definition cfg : ConfigFlags := config auth0 (str "hosts.ini") false 0%Z.
Definition w : World := typed [str "wrong"].
Definition t : Task := task0 [] [].

(** What a command run does: [NewTask], [SetCommand], then [BatchRun]. *)
Definition run : M (Task * list Output) :=
  t ← NewTask env cfg CommandTask;
  BatchRun env cfg (SetCommand t (str "uptime")).

End C1Sample.

Module C2Sample.

(** A command prints three lines, then sudo asks for the password, then the
    command prints [root]. *)
Definition raw : gostring :=
  nl "alpha" ++ nl "beta" ++ nl "gamma" ++ nl "[sudo] password for alice:"
  ++ str "root".

End C2Sample.

Module C3Sample.
Import Sample.

(** Two inventory hosts, both with a ciphertext for password; no vault
    password file; the user types the vault password twice. *)
Definition h1 : InvHost := inv_host (str "h1") (header ++ str "hunter2").
Definition h2 : InvHost := inv_host (str "h2") (header ++ str "swordfish").
Definition env : Env := with_inventory env0 [h1; h2].
Definition cfg : ConfigFlags := config auth0 (str "hosts.ini") false 0%Z.
Definition t : Task := task0 [] [].

Definition run : M (Task * list Output) :=
  t ← NewTask env cfg CommandTask;
  BatchRun env cfg (SetCommand t (str "uptime")).

Definition trace_of {A} (o : Outcome A) : list Event :=
  match o with Done _ w => trace w | Exited _ w => trace w end.

Definition returned {A} (o : Outcome A) : bool :=
  match o with Done _ _ => true | Exited _ _ => false end.

End C3Sample.

Module C6Sample.
Import Sample.

Definition env : Env := with_agent env0 [11; 12] 21.
Definition cfg : ConfigFlags := config auth0 [] false 0%Z.
Definition t : Task := task0 (str "pw") [str "/home/alice/.ssh/id_rsa"].

End C6Sample.

Module C7Sample.
Import Sample.

Definition cfg : ConfigFlags := config auth0 [] true 0%Z.

(** The same with ask-pass set. *)
Definition cfg_ask : ConfigFlags :=
  config (mkAuth (str "alice") [] true [] [] [] []) [] true 0%Z.

Definition trace_of {A} (o : Outcome A) : list Event :=
  match o with Done _ w => trace w | Exited _ w => trace w end.

End C7Sample.

Module C8Sample.
Import Sample.

Definition vault_file : gostring := str "vault.txt".

Definition cfg : ConfigFlags :=
  config (mkAuth (str "alice") [] false [] [] [] vault_file) [] false 0%Z.

(** [vault.txt] with mode 0755 prints [" secret\n"]. *)
Definition env_script : Env :=
  with_files env0 (fun _ => Some 493) (fun _ => ([], Some (LibError 2)))
    (fun _ => (str " secret" ++ [LF], None)).

(** [vault.txt] with mode 0644 holds [content]. *)
Definition env_plain (content : gostring) : Env :=
  with_files env0 (fun _ => Some 420) (fun _ => (content, None))
    (fun _ => ([], Some (LibError 3))).

Definition cfg_prompt : ConfigFlags := config auth0 [] false 0%Z.

End C8Sample.

Module C10Sample.
Import Sample.

(** The password file holds [" filepw\n"]; the configured password is the
    ciphertext of ["hunter2"]; ask-pass is set. *)
Definition env : Env :=
  with_files env0 (fun _ => None) (fun _ => (str " filepw" ++ [LF], None))
    (fun _ => ([], Some (LibError 3))).

Definition auth : Auth :=
  mkAuth (str "alice") (header ++ str "hunter2") true (str "pass.txt") [] []
    [].

Definition cfg : ConfigFlags := config auth [] false 0%Z.

(** The user types the vault password, then, at the login prompt, a text
    that looks like a ciphertext. *)
Definition w : World := typed [str "secret"; header ++ str "typed"].

Definition w1 : World :=
  mkWorld [header ++ str "typed"]
    [EvReadFile (str "pass.txt"); EvPrompt vault_prompt; EvPrint [LF]].

(** Ask-pass and nothing else; the inventory holds one host without a
    password of its own.  The user types a text that looks like a
    ciphertext at the login prompt and, when asked, the vault password. *)
Definition auth_ask : Auth := mkAuth (str "alice") [] true [] [] [] [].
Definition cfg_inv : ConfigFlags :=
  config auth_ask (str "hosts.ini") false 0%Z.
Definition env_inv : Env := with_inventory env0 [inv_host (str "h1") []].
Definition w_inv : World := typed [header ++ str "typed"; str "secret"].

(** A command run up to the resolved hosts: the default password of the
    task and the passwords of the hosts. *)
Definition run_inv : M (gostring * list gostring) :=
  t ← prepareTask env_inv cfg_inv [] (str "uptime");
  '(hosts, _) ← getAllHosts env_inv cfg_inv t;
  mret (defaultPass t, HostPassword <$> hosts).

End C10Sample.

(** What was sent on [taskOutput], and what on [detailOutput]. *)
Definition summaries (sent : list Output) : list taskResult :=
  omap (fun o => match o with OnTaskOutput r => Some r | _ => None end) sent.

Definition details (sent : list Output) : list detailResult :=
  omap (fun o => match o with OnDetailOutput d => Some d | _ => None end)
       sent.

Module C5Sample.
Import Sample.

(** Three hosts named on the command line; the ssh client reports two
    successes and one failure. *)
Definition results : list Result :=
  [mkResult (str "h1") (str "success") (str "hi");
   mkResult (str "h2") (str "failed") (str "auth");
   mkResult (str "h3") (str "success") (str "hi")].

Definition env : Env :=
  mkEnv (os_Stat env0) (ioutil_ReadFile env0) (exec_Output env0)
    (os_Getenv env0) (time_Now env0) (aes_IsAES256CipherText env0)
    (aes_AES256Decode env0) (ssh_ParsePrivateKey env0)
    (sshkeys_ParseEncryptedPrivateKey env0) (net_Dial env0)
    (agent_Signers env0) (expandhost_PatternToHosts env0)
    (inventory_Parse env0) (inventory_GetAllHosts env0)
    (inventory_GetHostsByGroup env0) (inventory_GetHostByAlias env0)
    (inventory_DeDuplHosts env0) (util_DirExists env0) (os_MkdirAll env0)
    (batchssh_SuccessIdentifier env0) (fun _ => results).

Definition cfg : ConfigFlags := config auth0 [] false 0%Z.

Definition t : Task :=
  SetTargetHosts (task0 [] []) [str "h1"; str "h2"; str "h3"].

(** The task when [BatchRun] returns, and what it has sent. *)
Definition t' : Task := set_auth t None [] [].

Definition sent : list Output :=
  (OnDetailOutput <$> (detailOf (str "20240101120000") <$> results))
  ++ [OnTaskOutput (mkTaskResult (str "20240101120000") 2 1)].

End C5Sample.

(** A text without white space at either end. *)
Definition trimmed (s : gostring) : Prop :=
  (forall c t, s = c :: t -> IsSpace c = false) /\
  (forall u c, s = u ++ [c] -> IsSpace c = false).

(** The operand a task of each type cannot do without, as the [switch] of
    [BatchRun] checks it. *)
Definition missing_operand (t : Task) : option Error :=
  match taskType t with
  | CommandTask => if is_empty (command t) then Some need_execute else None
  | ScriptTask => if is_empty (scriptFile t) then Some need_execute else None
  | PushTask =>
      match pushFiles t with
      | None | Some ([], _) => Some need_files
      | Some (_ :: _, _) => None
      end
  | FetchTask =>
      match fetchFiles t, dstDir t with
      | [], _ => Some need_files
      | _ :: _, [] => Some need_dest
      | _ :: _, _ :: _ => None
      end
  end.

(** What [--hosts.list] prints for the names [names]. *)
Definition listed (names : list gostring) : list Event :=
  ((fun v => EvPrint (v ++ [LF])) <$> names) ++ [EvHostsCount (length names)].

(** [~/] at the head of a path replaced by the home directory. *)
Definition expand_home (home file : gostring) : gostring :=
  if HasPrefix file (str "~/") then home ++ drop 1 file else file.

(** ** The jump host

    [configFlags.Proxy], as far as [getProxySSHAuthMethods] reads it. *)
Record ProxyConf := mkProxyConf {
  proxy_Server : gostring;
  proxy_User : gostring;
  proxy_Password : gostring;
  proxy_IdentityFiles : list gostring;
  proxy_Passphrase : gostring
}.

(** [getProxySSHAuthMethods] *)
Definition getProxySSHAuthMethods (env : Env) (Proxy : ProxyConf) (t : Task)
    : list AuthMethod :=
  let signers :=
    match sshAgent t with
    | Some conn => fst (agent_Signers env conn)
    | None => []
    end in
  let proxyKeyfiles := parseItentityFiles env (proxy_IdentityFiles Proxy) in
  let signers :=
    if negb (length proxyKeyfiles =? 0)%nat then
      let sshSigners :=
        getSigners env proxyKeyfiles (proxy_Passphrase Proxy) in
      if negb (length sshSigners =? 0)%nat then signers ++ sshSigners
      else signers
    else signers in
  let proxyAuths := [] in
  let proxyAuths :=
    if negb (length signers =? 0)%nat then proxyAuths ++ [PublicKeys signers]
    else proxyAuths in
  if negb (is_empty (proxy_Password Proxy))
  then proxyAuths ++ [Password (proxy_Password Proxy)]
  else proxyAuths ++ [Password (defaultPass t)].

(** The signers offered to the jump host: those of the agent kept by the
    task, then those of the proxy's identity files. *)
Definition proxySigners (env : Env) (Proxy : ProxyConf) (t : Task)
    : list Signer :=
  match sshAgent t with
  | Some conn => fst (agent_Signers env conn)
  | None => []
  end
  ++ getSigners env (parseItentityFiles env (proxy_IdentityFiles Proxy))
       (proxy_Passphrase Proxy).

(** The host [getAllHosts] builds for an inventory host none of whose
    secrets is a ciphertext. *)
Definition resolved_plain (env : Env) (Config : ConfigFlags) (t : Task)
    (v : InvHost) : Host :=
  {| Alias := inv_Alias v; HostAddr := inv_Host v;
     Port := if (inv_Port v =? 0)%Z then hosts_Port (cfg_Hosts Config)
             else inv_Port v;
     User := if is_empty (inv_User v) then defaultUser t else inv_User v;
     HostPassword := if is_empty (inv_Password v) then defaultPass t
                     else inv_Password v;
     Keys := inv_Keys v;
     SSHAuths :=
       publicKeyMethod
         (getSigners env (parseItentityFiles env (inv_Keys v))
            (inv_Passphrase v))
       ++ (if is_empty (inv_Password v) then []
           else [Password (inv_Password v)])
       ++ defaultSSHAuthMethods t |}.

(** ** package vault: the confirmed password and encrypted files *)

(** [strings.ToLower] on ASCII text, which is all it is applied to here (the
    prompt "New Vault password: "); runes outside ASCII are left alone. *)
Definition ToLower (s : gostring) : gostring :=
  (fun c => if (65 <=? c) && (c <=? 90) then c + 32 else c) <$> s.

(** One of the two [for] loops of [getConfirmPasswordFromPrompt], by
    recursion on the lines still to be typed: it ends with the first
    non-empty line, or with the error of [term.ReadPassword] when the
    terminal is exhausted. *)
Fixpoint confirm_loop (prompt warnStr : gostring) (inputs : list gostring)
    (tr : list Event) : (gostring * option Error) * World :=
  let tr1 := tr ++ [EvPrompt prompt] in
  match inputs with
  | [] => (([], Some (LibError 0)), mkWorld [] tr1)
  | password :: rest =>
      let tr2 := tr1 ++ [EvPrint [LF]] in
      if negb (is_empty password) then ((password, None), mkWorld rest tr2)
      else confirm_loop prompt warnStr rest
             (tr2 ++ [EvPrint (warnStr ++ [LF])])
  end.

(** One round of such a loop as the source writes it. *)
Definition confirm_round (prompt warnStr : gostring)
    (again : M (gostring * option Error)) : M (gostring * option Error) :=
  '(password, err) ← vault_getPasswordFromPrompt prompt;
  match err with
  | Some e => mret ([], Some e)
  | None =>
      if negb (is_empty password) then mret (password, None)
      else emit (EvPrint (warnStr ++ [LF]));; again
  end.

Definition two_inputs_differ : Error := Errorf "two inputs do not match" [].

(** [getConfirmPasswordFromPrompt]; [YellowString] is [color.YellowString]
    of [fatih/color]. *)
Definition getConfirmPasswordFromPrompt (YellowString : gostring -> gostring)
    (prompt : gostring) : M (gostring * option Error) :=
  fun w =>
    let warnStr := YellowString (str "input can not be null, retry") in
    match confirm_loop prompt warnStr (tty w) (trace w) with
    | ((_, Some e), w1) => Done ([], Some e) w1
    | ((password, None), w1) =>
        match confirm_loop (str "Confirm " ++ ToLower prompt) warnStr
                (tty w1) (trace w1) with
        | ((_, Some e), w2) => Done ([], Some e) w2
        | ((passwordConfirm, None), w2) =>
            if negb (str_eqb password passwordConfirm)
            then Done ([], Some two_inputs_differ) w2
            else Done (password, None) w2
        end
    end.

Definition new_vault_prompt : gostring := str "New Vault password: ".

(** [getVaultConfirmPassword] *)
Definition getVaultConfirmPassword (env : Env) (Config : ConfigFlags)
    (YellowString : gostring -> gostring) : M gostring :=
  password ← getVaultPasswordFromFile env Config;
  if negb (is_empty password) then mret password
  else
    '(password, err) ←
      getConfirmPasswordFromPrompt YellowString new_vault_prompt;
    match err with
    | Some e =>
        CheckErr (Some (Wrapf
          "get vault password from terminal prompt failed: %s" [] e))
    | None => mret tt
    end;;
    mret password.

(** [decryptFile] *)
Definition decryptFile (env : Env) (file vaultPass : gostring)
    : M (gostring * option Error) :=
  emit (EvReadFile file);;
  let '(p, err) := ioutil_ReadFile env file in
  match err with
  | Some e => mret ([], Some e)
  | None =>
      let content := p in
      if negb (aes_IsAES256CipherText env content) then
        mret ([], Some (Errorf "'%s' is not vault encrypted file" [file]))
      else
        let '(decryptContent, err) :=
          aes_AES256Decode env content vaultPass in
        match err with
        | Some e => mret ([], Some (Wrapf "decrypt failed: %w" [] e))
        | None => mret (decryptContent, None)
        end
  end.

(** The [Run] of [vault view]; [LessContent] is [util.LessContent]. *)
Definition viewRun (env : Env) (Config : ConfigFlags)
    (LessContent : gostring -> M (option Error)) (file : gostring) : M unit :=
  vaultPass ← GetVaultPassword env Config;
  '(decryptContent, err) ← decryptFile env file vaultPass;
  CheckErr err;;
  err ← LessContent decryptContent;
  CheckErr err.

(** What is on the trace when a prompt has been answered with [n] empty
    lines and then a non-empty one. *)
Definition asked (prompt warnStr : gostring) (n : nat) : list Event :=
  concat (replicate n [EvPrompt prompt; EvPrint [LF];
                       EvPrint (warnStr ++ [LF])])
  ++ [EvPrompt prompt; EvPrint [LF]].

Definition confirm_failed (e : Error) : Error :=
  Wrapf "get vault password from terminal prompt failed: %s" [] e.

(** The world an outcome leaves behind. *)
Definition outcome_world {A} (o : Outcome A) : World :=
  match o with Done _ w => w | Exited _ w => w end.

(** ** Start without a task timeout: what [HandleOutput] has logged *)

Module StartLog.
Import Start.

(** What the runner has still to send. *)
Definition todo_of (r : Runner) : list Output :=
  match r with Sending todo => todo | _ => [] end.

(** The log entry [HandleOutput] writes for what was sent. *)
Definition entry_of (successIdentifier : gostring) (o : Output) : LogEntry :=
  match o with
  | OnDetailOutput d => logDetail successIdentifier d
  | OnTaskOutput r => LogSummary (hostsSuccessCount r) (hostsFailureCount r)
  end.

(** What [BatchRun] sends: the detail records and then the summary, or
    nothing at all when it returns early. *)
Definition sent_of (ds : list detailResult) (r : option taskResult)
    : list Output :=
  (OnDetailOutput <$> ds) ++ (OnTaskOutput <$> option_list r).

(** The state of a run without timer that is sending [sent_of ds r]: what
    is logged, what waits in the buffer and what is still to be sent make up
    the whole, in order; the channels are closed by the runner only. *)
Definition log_inv (successIdentifier : gostring) (ds : list detailResult)
    (r : option taskResult) (s : State) : Prop :=
  timer s = NoTimer /\ panicked s = None /\
  log s ++ (entry_of successIdentifier <$> (OnTaskOutput <$> taskBuf s))
        ++ (entry_of successIdentifier <$> todo_of (runner s))
  = entry_of successIdentifier <$> sent_of ds r /\
  (taskBuf s = [] \/ todo_of (runner s) = []) /\
  (todo_of (runner s) = [] \/
   exists rest, todo_of (runner s) = sent_of rest r) /\
  match runner s with
  | Sending _ | DeferCloseDetail => detailOpen s = true /\ taskOpen s = true
  | DeferCloseTask => taskOpen s = true
  | RunnerDone => True
  end /\
  (taskOpen s = false -> runner s = RunnerDone) /\
  (handler s = Returned -> taskBuf s = [] /\ taskOpen s = false).

(** The schedule on which every record is handed over and the run ends:
    one move of the runner per record sent, the return of [BatchRun] and the
    two deferred closes, then the handler: it leaves the first loop, logs
    the summary if there is one, and leaves the second loop. *)
Definition run_to_end (ds : list detailResult) (r : option taskResult)
    : list Goroutine :=
  replicate (length ds) GoRunner
  ++ replicate (length (option_list r)) GoRunner
  ++ [GoRunner; GoRunner; GoRunner; GoHandler]
  ++ replicate (length (option_list r)) GoHandler
  ++ [GoHandler].

End StartLog.

(** The host of the inventory made up for a name that is neither a group
    nor an alias. *)
Definition anonymous (name : gostring) : InvHost :=
  {| inv_Alias := name; inv_Host := name; inv_Port := 0%Z; inv_User := [];
     inv_Password := []; inv_Keys := []; inv_Passphrase := [] |}.

Module MoreSamples.
Import Sample.

Definition cfg : ConfigFlags := config auth0 [] false 0%Z.

(** [--hosts.list] *)
Definition cfg_list : ConfigFlags :=
  {| cfg_Auth := auth0;
     cfg_Hosts := {| hosts_Inventory := []; hosts_Port := 22%Z;
                     hosts_List := true |};
     cfg_Run := {| run_Sudo := false; run_AsUser := str "root" |};
     cfg_TimeoutTask := 0%Z |}.

Definition cfg_inventory : ConfigFlags :=
  config auth0 (str "hosts.ini") false 0%Z.

Definition t_args (args : list gostring) : Task :=
  SetTargetHosts (task0 [] []) args.

Definition env_inventory : Env :=
  with_inventory env0 [inv_host (str "h1") (str "plain");
                       inv_host (str "h2") []].

(** A vault file [secret.txt] that the vault password [secret] opens. *)
Definition env_vault_file : Env :=
  with_files env0 (fun _ => None)
    (fun _ => (header ++ str "hunter2", None))
    (fun _ => ([], Some (LibError 3))).

(** A pager that prints what it is given. *)
Definition pager (content : gostring) : M (option Error) :=
  emit (EvPrint content);; mret None.

End MoreSamples.

(** * Proofs *)

(** ** Facts about the matcher *)

Lemma rx_star_cons p c s k :
  rx_star p (c :: s) k
  = if p c then or_else (rx_star p s k) (k (c :: s)) else k (c :: s).
Proof. reflexivity. Qed.

Lemma rx_find_here r s rest :
  rx_here r s = Some rest -> rx_find r s = Some ([], rest).
Proof. intros H. destruct s; cbn [rx_find]; rewrite H; reflexivity. Qed.

Lemma rx_star_keep p pre t k r :
  Forall (fun c => p c = true) pre ->
  rx_star p t k = Some r ->
  rx_star p (pre ++ t) k = Some r.
Proof.
  intros Hpre Ht. induction Hpre as [|c pre Hc _ IH]; simpl; [exact Ht|].
  rewrite Hc, IH. reflexivity.
Qed.

Lemma rx_star_no_bracket p t k :
  starts_with_bracket k -> 91 ∉ t -> rx_star p t k = None.
Proof.
  intros Hk. induction t as [|c t IH]; intros Hnot; simpl.
  - apply Hk. discriminate.
  - assert (Hc : k (c :: t) = None).
    { apply Hk. simpl. intros [= ->]. apply Hnot. left. }
    rewrite Hc. destruct (p c); [|reflexivity].
    rewrite IH; [reflexivity|]. intros Hin. apply Hnot. right. exact Hin.
Qed.

Lemma rx_str_bracket r k :
  starts_with_bracket (fun s => rx_match (RxCat (rx_lit 91) r) s k).
Proof.
  intros [|c u] Hh; unfold rx_lit; cbn [rx_match]; [reflexivity|].
  destruct (N.eqb_spec 91 c) as [<-|]; [|reflexivity].
  exfalso. apply Hh. reflexivity.
Qed.

Lemma sudoPromptRegex_no_bracket t :
  91 ∉ t -> rx_here sudoPromptRegex t = None.
Proof.
  intros Hnot. unfold rx_here, sudoPromptRegex.
  cbn [rx_match].
  rewrite !rx_star_no_bracket; try assumption; try reflexivity.
  - apply rx_str_bracket.
  - apply rx_str_bracket.
Qed.

Lemma rx_find_no_bracket t :
  91 ∉ t -> rx_find sudoPromptRegex t = None.
Proof.
  induction t as [|c t IH]; intros Hnot; cbn [rx_find];
    rewrite (sudoPromptRegex_no_bracket _ Hnot); [reflexivity|].
  rewrite IH; [reflexivity|]. intros Hin. apply Hnot. right. exact Hin.
Qed.

Lemma rx_delete_all_no_bracket fuel t :
  91 ∉ t -> rx_delete_all fuel sudoPromptRegex t = t.
Proof.
  intros Hnot. destruct fuel; cbn [rx_delete_all]; [reflexivity|].
  rewrite rx_find_no_bracket by assumption. reflexivity.
Qed.

Lemma linuxUserChar_not_bracket name :
  Forall (fun c => linuxUserChar c = true) name -> 91 ∉ name.
Proof.
  intros Hall Hin. rewrite Forall_forall in Hall.
  specialize (Hall _ Hin). vm_compute in Hall. discriminate.
Qed.

(** Every match of the prompt pattern consumes a rune, so the rounds given
    to [rx_delete_all] never run out before the matches do. *)
Lemma rx_star_shorter p s k x :
  rx_star p s k = Some x ->
  exists s', k s' = Some x /\ (length s' <= length s)%nat.
Proof.
  induction s as [|c s IH]; cbn [rx_star]; intros H.
  - exists []. split; [exact H|reflexivity].
  - destruct (p c).
    + destruct (rx_star p s k) as [y|] eqn:Hs; cbn [or_else] in H.
      * injection H as ->. destruct (IH eq_refl) as (s' & Hk & Hlen).
        exists s'. split; [exact Hk|]. cbn [length]. lia.
      * exists (c :: s). split; [exact H|reflexivity].
    + exists (c :: s). split; [exact H|reflexivity].
Qed.

Lemma rx_match_shorter r :
  forall s k x,
    rx_match r s k = Some x ->
    exists s', k s' = Some x /\
      (length s' + (if rx_consumes r then 1 else 0) <= length s)%nat.
Proof.
  induction r as [|p|p|a IHa b IHb|a IHa b IHb]; intros s k x H;
    cbn [rx_match rx_consumes] in *.
  - exists s. split; [exact H|lia].
  - destruct s as [|c s]; [discriminate|].
    destruct (p c); [|discriminate].
    exists s. split; [exact H|]. cbn [length]. lia.
  - destruct (rx_star_shorter p s k x H) as (s' & Hk & Hlen).
    exists s'. split; [exact Hk|lia].
  - destruct (IHa _ _ _ H) as (s1 & H1 & Hlen1).
    destruct (IHb _ _ _ H1) as (s2 & H2 & Hlen2).
    exists s2. split; [exact H2|].
    destruct (rx_consumes a), (rx_consumes b); cbn [orb]; lia.
  - destruct (rx_match a s k) as [y|] eqn:Ha; cbn [or_else] in H.
    + injection H as ->. destruct (IHa _ _ _ Ha) as (s' & Hk & Hlen).
      exists s'. split; [exact Hk|].
      destruct (rx_consumes a), (rx_consumes b); cbn [andb]; lia.
    + destruct (IHb _ _ _ H) as (s' & Hk & Hlen).
      exists s'. split; [exact Hk|].
      destruct (rx_consumes a), (rx_consumes b); cbn [andb]; lia.
Qed.

Lemma rx_find_shorter r s before rest :
  rx_consumes r = true ->
  rx_find r s = Some (before, rest) ->
  (length before + length rest < length s)%nat.
Proof.
  intros Hr. revert before rest.
  induction s as [|c s IH]; intros before rest H; cbn [rx_find] in H.
  - unfold rx_here in H.
    destruct (rx_match r [] Some) as [y|] eqn:Hm; [|discriminate].
    destruct (rx_match_shorter r _ _ _ Hm) as (s' & _ & Hlen).
    rewrite Hr in Hlen. cbn [length] in Hlen. lia.
  - unfold rx_here in H.
    destruct (rx_match r (c :: s) Some) as [y|] eqn:Hm.
    + injection H as <- <-.
      destruct (rx_match_shorter r _ _ _ Hm) as (s' & Hs' & Hlen).
      injection Hs' as ->. rewrite Hr in Hlen. cbn [length] in *. lia.
    + destruct (rx_find r s) as [[b' r']|] eqn:Hf; [|discriminate].
      injection H as <- <-. specialize (IH _ _ eq_refl).
      cbn [length]. lia.
Qed.

Lemma rx_delete_all_fuel r :
  rx_consumes r = true ->
  forall n m s,
    (length s < n)%nat -> (length s < m)%nat ->
    rx_delete_all n r s = rx_delete_all m r s.
Proof.
  intros Hr. induction n as [|n IH]; intros m s Hn Hm; [lia|].
  destruct m as [|m]; [lia|]. cbn [rx_delete_all].
  destruct (rx_find r s) as [[before rest]|] eqn:Hf; [|reflexivity].
  pose proof (rx_find_shorter r s before rest Hr Hf).
  f_equal. apply IH; lia.
Qed.

Lemma trimSudoPrompt_fuel s k :
  rx_delete_all (S (length s) + k) sudoPromptRegex s = trimSudoPrompt s.
Proof.
  unfold trimSudoPrompt, ReplaceAllEmpty.
  apply rx_delete_all_fuel; [reflexivity|lia|lia].
Qed.

Lemma trimSudoPrompt_no_bracket s :
  91 ∉ s -> trimSudoPrompt s = s.
Proof. intros H. apply rx_delete_all_no_bracket, H. Qed.

Lemma rx_star_suffix p s k x :
  rx_star p s k = Some x -> exists s', k s' = Some x /\ s' `suffix_of` s.
Proof.
  induction s as [|c s IH]; cbn [rx_star]; intros H.
  - exists []. split; [exact H|reflexivity].
  - destruct (p c).
    + destruct (rx_star p s k) as [y|] eqn:Hs; cbn [or_else] in H.
      * injection H as ->. destruct (IH eq_refl) as (s' & Hk & Hsuf).
        exists s'. split; [exact Hk|]. apply suffix_cons_r, Hsuf.
      * exists (c :: s). split; [exact H|reflexivity].
    + exists (c :: s). split; [exact H|reflexivity].
Qed.

Lemma rx_match_suffix r :
  forall s k x,
    rx_match r s k = Some x -> exists s', k s' = Some x /\ s' `suffix_of` s.
Proof.
  induction r as [|p|p|a IHa b IHb|a IHa b IHb]; intros s k x H;
    cbn [rx_match] in *.
  - exists s. split; [exact H|reflexivity].
  - destruct s as [|c s]; [discriminate|].
    destruct (p c); [|discriminate].
    exists s. split; [exact H|]. apply suffix_cons_r. reflexivity.
  - apply (rx_star_suffix p s k x H).
  - destruct (IHa _ _ _ H) as (s1 & H1 & Hsuf1).
    destruct (IHb _ _ _ H1) as (s2 & H2 & Hsuf2).
    exists s2. split; [exact H2|]. etrans; eassumption.
  - destruct (rx_match a s k) as [y|] eqn:Ha; cbn [or_else] in H.
    + injection H as ->. apply (IHa _ _ _ Ha).
    + apply (IHb _ _ _ H).
Qed.

Lemma rx_here_suffix r s rest :
  rx_here r s = Some rest -> rest `suffix_of` s.
Proof.
  intros H. destruct (rx_match_suffix r s Some rest H) as (s' & Hs' & Hsuf).
  injection Hs' as ->. exact Hsuf.
Qed.

(** The pattern begins with [(?s).*] in both alternatives: a match that
    starts further right can be started one rune earlier. *)
Lemma sudoPromptRegex_here_cons c s :
  rx_here sudoPromptRegex s <> None ->
  rx_here sudoPromptRegex (c :: s) <> None.
Proof.
  unfold rx_here, sudoPromptRegex. cbn [rx_match].
  assert (Hany : forall k, rx_star rx_any (c :: s) k
                           = or_else (rx_star rx_any s k) (k (c :: s)))
    by reflexivity.
  rewrite !Hany.
  destruct (rx_star rx_any s (fun s' => rx_match sudo_en_body s' Some))
    as [x|]; cbn [or_else]; [intros _; discriminate|].
  destruct (rx_star rx_any s (fun s' => rx_match sudo_zh_body s' Some))
    as [y|]; cbn [or_else]; [|intros H; exfalso; apply H; reflexivity].
  intros _.
  destruct (rx_match sudo_en_body (c :: s) Some); cbn [or_else]; discriminate.
Qed.

Lemma rx_find_first r s rest :
  rx_find r s = Some ([], rest) -> rx_here r s = Some rest.
Proof.
  destruct s as [|c s]; cbn [rx_find];
    destruct (rx_here r _) as [x|]; try congruence.
  destruct (rx_find r s) as [[b r']|]; discriminate.
Qed.

Lemma sudoPromptRegex_find_at_start s before rest :
  rx_find sudoPromptRegex s = Some (before, rest) -> before = [].
Proof.
  revert before rest. induction s as [|c s IH]; intros before rest H.
  - cbn [rx_find] in H.
    destruct (rx_here sudoPromptRegex []); [|discriminate]. congruence.
  - cbn [rx_find] in H.
    destruct (rx_here sudoPromptRegex (c :: s)) as [x|] eqn:Hc; [congruence|].
    destruct (rx_find sudoPromptRegex s) as [[b r']|] eqn:Hf; [|discriminate].
    exfalso. pose proof (IH _ _ eq_refl) as ->.
    apply rx_find_first in Hf.
    apply (sudoPromptRegex_here_cons c s); congruence.
Qed.

Lemma rx_delete_all_sudo_suffix fuel :
  forall s, (length s < fuel)%nat ->
    rx_delete_all fuel sudoPromptRegex s `suffix_of` s /\
    rx_find sudoPromptRegex (rx_delete_all fuel sudoPromptRegex s) = None.
Proof.
  induction fuel as [|fuel IH]; intros s Hlen; [lia|].
  cbn [rx_delete_all].
  destruct (rx_find sudoPromptRegex s) as [[before rest]|] eqn:Hf.
  - pose proof (sudoPromptRegex_find_at_start _ _ _ Hf) as ->.
    pose proof (rx_find_shorter sudoPromptRegex s [] rest eq_refl Hf) as Hsh.
    cbn [length] in Hsh.
    destruct (IH rest ltac:(lia)) as [Hsuf Hnone].
    cbn [app]. split; [|exact Hnone].
    etrans; [exact Hsuf|]. apply rx_here_suffix with sudoPromptRegex.
    apply rx_find_first, Hf.
  - split; [reflexivity|exact Hf].
Qed.

(** ** Deduplication *)

Section Dedup.

Context {A : Type} (key : A -> gostring).

Lemma map_get_insert keys k k' :
  map_get (<[k := true]> keys) k' = true <-> k' = k \/ map_get keys k' = true.
Proof.
  unfold map_get. destruct (decide (k = k')) as [->|Hne].
  - rewrite lookup_insert_eq. simpl. tauto.
  - rewrite lookup_insert_ne by assumption. split; [tauto|].
    intros [->|H]; [congruence|exact H].
Qed.

(** The map of the loop holds the keys seen so far. *)
Lemma dedup_loop_keys l :
  forall k, map_get (snd (fold_left (dedup_step key) l ([], ∅))) k = true
            <-> k ∈ (key <$> l).
Proof.
  induction l as [|x l IH] using rev_ind; intros k.
  - cbn. unfold map_get. rewrite lookup_empty. cbn.
    rewrite elem_of_nil. split; [discriminate|tauto].
  - rewrite fold_left_app. cbn [fold_left].
    destruct (fold_left (dedup_step key) l ([], ∅)) as [set keys].
    cbn [snd] in IH. unfold dedup_step.
    rewrite fmap_app, elem_of_app. cbn [fmap list_fmap].
    rewrite list_elem_of_singleton.
    destruct (map_get keys (key x)) eqn:Hget; cbn [negb snd].
    + rewrite IH. split; [tauto|].
      intros [H| ->]; [exact H|]. apply IH, Hget.
    + rewrite map_get_insert, IH. tauto.
Qed.

(** One more entry: it is kept exactly when its key is new. *)
Lemma dedup_by_snoc l x :
  dedup_by key (l ++ [x])
  = if decide (key x ∈ (key <$> l)) then dedup_by key l
    else dedup_by key l ++ [x].
Proof.
  unfold dedup_by. rewrite fold_left_app. cbn [fold_left].
  pose proof (dedup_loop_keys l) as Hkeys.
  destruct (fold_left (dedup_step key) l ([], ∅)) as [set keys].
  cbn [fst snd] in *. unfold dedup_step.
  destruct (map_get keys (key x)) eqn:Hget; cbn [negb fst].
  - rewrite decide_True; [reflexivity|]. apply Hkeys, Hget.
  - rewrite decide_False; [reflexivity|].
    intros Hin. apply Hkeys in Hin. congruence.
Qed.

Lemma dedup_by_sublist l : sublist (dedup_by key l) l.
Proof.
  induction l as [|x l IH] using rev_ind; [constructor|].
  rewrite dedup_by_snoc. destruct (decide (key x ∈ key <$> l)).
  - apply sublist_inserts_r, IH.
  - apply sublist_app; [exact IH|reflexivity].
Qed.

Lemma dedup_by_NoDup_keys l : NoDup (key <$> dedup_by key l).
Proof.
  induction l as [|x l IH] using rev_ind; [constructor|].
  rewrite dedup_by_snoc. destruct (decide (key x ∈ key <$> l)) as [|Hnew];
    [exact IH|].
  rewrite fmap_app. apply NoDup_app. split; [exact IH|]. split.
  - intros k Hk Hk'. apply list_elem_of_singleton in Hk'. subst k.
    apply Hnew. revert Hk. apply sublist_subseteq.
    apply fmap_sublist, dedup_by_sublist.
  - apply NoDup_singleton.
Qed.

Lemma first_at_snoc_old l x i :
  (i < length l)%nat -> first_at key (l ++ [x]) i <-> first_at key l i.
Proof.
  intros Hi. unfold first_at. split; intros (y & Hy & Hfirst); exists y.
  - rewrite lookup_app_l in Hy by assumption. split; [exact Hy|].
    intros j z Hj Hz. apply (Hfirst j z Hj). apply lookup_app_l_Some, Hz.
  - split; [apply lookup_app_l_Some, Hy|].
    intros j z Hj Hz. apply (Hfirst j z Hj).
    rewrite lookup_app_l in Hz by lia. exact Hz.
Qed.

Lemma first_at_snoc_new l x :
  first_at key (l ++ [x]) (length l) <-> key x ∉ (key <$> l).
Proof.
  unfold first_at. split.
  - intros (y & Hy & Hfirst) Hin.
    rewrite lookup_app_r, Nat.sub_diag in Hy by lia. injection Hy as <-.
    apply list_elem_of_fmap in Hin as (z & Hkz & Hz).
    apply list_elem_of_lookup in Hz as (j & Hj).
    pose proof (lookup_lt_Some _ _ _ Hj).
    apply (Hfirst j z); [lia| |congruence].
    apply lookup_app_l_Some, Hj.
  - intros Hnew. exists x. split.
    + rewrite lookup_app_r, Nat.sub_diag by lia. reflexivity.
    + intros j z Hj Hz Hk. apply Hnew.
      rewrite lookup_app_l in Hz by assumption.
      rewrite <- Hk. apply list_elem_of_fmap. exists z. split; [reflexivity|].
      apply list_elem_of_lookup. exists j. exact Hz.
Qed.

Lemma first_at_lt l i : first_at key l i -> (i < length l)%nat.
Proof. intros (y & Hy & _). apply (lookup_lt_Some _ _ _ Hy). Qed.

Lemma first_occurrences_snoc_seen l res x :
  key x ∈ (key <$> l) ->
  first_occurrences key l res ->
  first_occurrences key (l ++ [x]) res.
Proof.
  intros Hseen (ps & Hsorted & Hin & Hread). exists ps.
  split; [exact Hsorted|]. split.
  - intros i. rewrite Hin. split.
    + intros Hi. apply first_at_snoc_old; [apply first_at_lt, Hi|exact Hi].
    + intros Hi. pose proof (first_at_lt _ _ Hi) as Hlt.
      rewrite length_app in Hlt. cbn [length] in Hlt.
      destruct (decide (i = length l)) as [->|Hne].
      * exfalso. apply first_at_snoc_new in Hi. tauto.
      * apply first_at_snoc_old in Hi; [exact Hi|lia].
  - eapply Forall2_impl; [exact Hread|].
    intros i y Hy. apply lookup_app_l_Some, Hy.
Qed.

Lemma first_occurrences_snoc_new l res x :
  key x ∉ (key <$> l) ->
  first_occurrences key l res ->
  first_occurrences key (l ++ [x]) (res ++ [x]).
Proof.
  intros Hnew (ps & Hsorted & Hin & Hread). exists (ps ++ [length l]).
  split; [|split].
  - apply StronglySorted_app_2; [|exact Hsorted|repeat constructor].
    intros i j Hi Hj. apply list_elem_of_singleton in Hj. subst j.
    apply first_at_lt, Hin, Hi.
  - intros i. rewrite elem_of_app, list_elem_of_singleton, Hin. split.
    + intros [Hi| ->].
      * apply first_at_snoc_old; [apply first_at_lt, Hi|exact Hi].
      * apply first_at_snoc_new, Hnew.
    + intros Hi. pose proof (first_at_lt _ _ Hi) as Hlt.
      rewrite length_app in Hlt. cbn [length] in Hlt.
      destruct (decide (i = length l)) as [->|Hne]; [right; reflexivity|].
      left. apply first_at_snoc_old in Hi; [exact Hi|lia].
  - apply Forall2_app.
    + eapply Forall2_impl; [exact Hread|].
      intros i y Hy. apply lookup_app_l_Some, Hy.
    + repeat constructor.
      rewrite lookup_app_r, Nat.sub_diag by lia. reflexivity.
Qed.

Lemma dedup_by_first_occurrences l :
  first_occurrences key l (dedup_by key l).
Proof.
  induction l as [|x l IH] using rev_ind.
  - exists []. split; [constructor|]. split; [|constructor].
    intros i. rewrite elem_of_nil. split; [tauto|].
    intros (y & Hy & _). rewrite lookup_nil in Hy. discriminate.
  - rewrite dedup_by_snoc. destruct (decide (key x ∈ key <$> l)).
    + apply first_occurrences_snoc_seen; assumption.
    + apply first_occurrences_snoc_new; assumption.
Qed.

Lemma sorted_lt_NoDup (ps : list nat) : StronglySorted lt ps -> NoDup ps.
Proof.
  induction 1 as [|i ps _ IH Hall]; constructor; [|exact IH].
  intros Hi. rewrite Forall_forall in Hall. specialize (Hall i Hi). lia.
Qed.

(** The first occurrences in order are one list, not several. *)
Lemma first_occurrences_unique l res res' :
  first_occurrences key l res -> first_occurrences key l res' -> res = res'.
Proof.
  intros (ps & Hs & Hin & Hread) (ps' & Hs' & Hin' & Hread').
  assert (ps = ps') as <-.
  { apply (StronglySorted_unique_strong lt); [intros; lia|exact Hs|exact Hs'|].
    apply NoDup_Permutation; [apply sorted_lt_NoDup, Hs
                             |apply sorted_lt_NoDup, Hs'|].
    intros i. rewrite Hin, Hin'. reflexivity. }
  clear Hs Hs' Hin Hin'. revert res' Hread'.
  induction Hread as [|i y ps res Hy _ IH]; intros res' Hread';
    inversion Hread' as [|? y' ? res'' Hy' Hrest]; subst; [reflexivity|].
  f_equal; [congruence|]. apply IH, Hrest.
Qed.

End Dedup.

(** C9. Deduplication by alias ([deDuplSSHHosts]) returns the hosts at the
    positions where an alias occurs for the first time, in increasing order
    of position, and nothing else is such a list: exactly the first
    occurrence of each alias is kept and the survivors stay in first-seen
    order.  The result is a sublist of the input without a repeated alias.
    The same holds for [deDuplicate] on plain host names. *)
Theorem C9_dedup_keeps_first_occurrences :
  (forall hosts res : list Host,
      first_occurrences Alias hosts res <-> res = deDuplSSHHosts hosts) /\
  (forall hosts res : list gostring,
      first_occurrences (fun v => v) hosts res <-> res = deDuplicate hosts) /\
  (forall hosts : list Host,
      sublist (deDuplSSHHosts hosts) hosts /\
      NoDup (Alias <$> deDuplSSHHosts hosts)) /\
  (forall hosts : list gostring,
      sublist (deDuplicate hosts) hosts /\ NoDup (deDuplicate hosts)).
Proof.
  split; [|split; [|split]].
  - intros hosts res. split.
    + intros H. apply (first_occurrences_unique Alias hosts); [exact H|].
      apply (dedup_by_first_occurrences Alias hosts).
    + intros ->. apply (dedup_by_first_occurrences Alias hosts).
  - intros hosts res. split.
    + intros H.
      apply (first_occurrences_unique (fun v : gostring => v) hosts);
        [exact H|].
      apply (dedup_by_first_occurrences (fun v : gostring => v) hosts).
    + intros ->.
      apply (dedup_by_first_occurrences (fun v : gostring => v) hosts).
  - intros hosts. split.
    + apply (dedup_by_sublist Alias hosts).
    + apply (dedup_by_NoDup_keys Alias hosts).
  - intros hosts. split.
    + apply (dedup_by_sublist (fun v : gostring => v) hosts).
    + pose proof (dedup_by_NoDup_keys (fun v : gostring => v) hosts) as H.
      rewrite list_fmap_id in H. exact H.
Qed.

(** ** BatchRun: counting and forwarding *)

Lemma wrap64_small z : (- 2 ^ 63 <= z < 2 ^ 63)%Z -> wrap64 z = z.
Proof.
  intros Hz. unfold wrap64.
  rewrite Z.mod_small by lia. lia.
Qed.

Lemma triple_eq {A B C} (a a' : A) (b b' : B) (c c' : C) :
  a = a' -> b = b' -> c = c' -> (a, b, c) = (a', b', c').
Proof. congruence. Qed.

Lemma BatchRun_loop_spec env t results :
  forall s0 f0 sent0,
    (0 <= s0)%Z -> (0 <= f0)%Z ->
    (s0 + f0 + Z.of_nat (length results) < 2 ^ 63)%Z ->
    fold_left (BatchRun_step env t) results (s0, f0, sent0)
    = ((s0 + Z.of_nat (length (filter (succeeded env) results)))%Z,
       (f0 + Z.of_nat (length (filter (fun v => ~ succeeded env v) results)))%Z,
       sent0 ++ (OnDetailOutput <$> (detailOf (id t) <$> results))).
Proof.
  induction results as [|v results IH]; intros s0 f0 sent0 Hs Hf Hlen.
  - simpl. rewrite !Z.add_0_r, app_nil_r. reflexivity.
  - cbn [fold_left]. unfold BatchRun_step at 2. unfold str_eqb.
    rewrite !filter_cons. cbn [length] in Hlen.
    destruct (decide (succeeded env v)) as [Hv|Hv].
    + rewrite bool_decide_eq_true_2 by exact Hv.
      rewrite decide_False by tauto.
      unfold int_incr. rewrite wrap64_small by lia.
      rewrite IH by lia. cbn [length fmap list_fmap].
      rewrite <- app_assoc. apply triple_eq; (lia || reflexivity).
    + rewrite bool_decide_eq_false_2 by exact Hv.
      rewrite decide_True by exact Hv.
      unfold int_incr. rewrite wrap64_small by lia.
      rewrite IH by lia. cbn [length fmap list_fmap].
      rewrite <- app_assoc. apply triple_eq; (lia || reflexivity).
Qed.

Lemma filter_split_length {A} (P : A -> Prop) `{!forall x, Decision (P x)}
    (l : list A) :
  (length (filter P l) + length (filter (fun x => ~ P x) l))%nat = length l.
Proof.
  induction l as [|x l IH]; [reflexivity|].
  rewrite !filter_cons.
  destruct (decide (P x)) as [Hx|Hx].
  - rewrite decide_False by tauto. simpl. lia.
  - rewrite decide_True by exact Hx. simpl. lia.
Qed.

(** Whenever [BatchRun] returns, what it has sent is nothing at all (hosts
    listed, or an error kept in [t.err]) or what the loop over the results of
    the resolved hosts sends. *)
Lemma BatchRun_sent env Config t w t' sent w' :
  BatchRun env Config t w = Done (t', sent) w' ->
  sent = [] \/
  exists allHosts, sent = BatchRun_collect env t' (batchssh_BatchRun env allHosts).
Proof.
  unfold BatchRun. intros H.
  destruct (hosts_List (cfg_Hosts Config)).
  - left. destruct (ListHosts env Config t) as [hs [e|]].
    + injection H as _ <- _. reflexivity.
    + unfold mbind, M_bind in H.
      match type of H with
      | match ?m with _ => _ end = _ =>
          destruct m as [[] w1|e w1]; [|discriminate]
      end.
      cbn in H. injection H as _ <- _. reflexivity.
  - unfold mbind, M_bind in H.
    destruct (BatchRun_check env t w) as [t1 w1|e w1]; [|discriminate].
    destruct (err t1).
    + left. injection H as _ <- _. reflexivity.
    + destruct (setDefaultSSHAuthMethods env Config t1 w1) as [t2 w2|e w2];
        [|discriminate].
      destruct (getAllHosts env Config t2 w2) as [[allHosts [e|]] w3|e w3];
        [| |discriminate].
      * left. injection H as _ <- _. reflexivity.
      * right. injection H as <- <- _. exists allHosts. reflexivity.
Qed.

(** ** Start: the task timeout against the deferred closes *)

Module StartFacts.
Import Start.

Lemma no_timer_inv_step sid tid tt g s s' :
  no_timer_inv s -> step sid tid tt g s = Some s' -> no_timer_inv s'.
Proof.
  intros (Ht & Hp & Hr) Hstep. unfold step in Hstep. rewrite Hp in Hstep.
  destruct s as [r tm h dO tO buf lg p]; simpl in *; subst tm p.
  destruct g; simpl in Hstep; [| discriminate |].
  - unfold step_runner in Hstep; simpl in Hstep.
    destruct r as [[|[d|tr] todo]| | |], h, dO, tO, buf; simpl in *;
      try discriminate; try (destruct Hr; discriminate);
      inversion Hstep; subst; unfold no_timer_inv; simpl; intuition congruence.
  - unfold step_handler in Hstep; simpl in Hstep.
    destruct r as [[|[d|tr] todo]| | |], h, dO, tO, buf; simpl in *;
      try discriminate; try (destruct Hr; discriminate);
      inversion Hstep; subst; unfold no_timer_inv; simpl; intuition congruence.
Qed.

Lemma no_timer_never_panics sid tid tt sent schedule s :
  (tt <= 0)%Z ->
  run sid tid tt schedule (init tt sent) = Some s ->
  panicked s = None.
Proof.
  intros Htt.
  assert (Hinit : no_timer_inv (init tt sent)).
  { unfold no_timer_inv, init; simpl.
    destruct (Z.ltb_spec 0 tt); [lia|]. auto. }
  revert Hinit. generalize (init tt sent) as s0.
  induction schedule as [|g schedule IH]; intros s0 Hinv Hrun; simpl in Hrun.
  - injection Hrun as <-. apply Hinv.
  - destruct (step sid tid tt g s0) as [s1|] eqn:Hstep; [|discriminate].
    apply (IH s1); [|exact Hrun].
    eapply no_timer_inv_step; eassumption.
Qed.

End StartFacts.

(** C4. With a task timeout [Tt > 0], whatever [BatchRun] has to send, there
    is a schedule on which the timer goroutine logs the task-timeout warning
    and closes both channels, and the goroutine running [BatchRun] then
    panics: it sends on a channel the timer has closed, or its deferred
    [close] closes [detailOutput] a second time. *)
Theorem C4_timeout_shutdown_panics sid tid tt (sent : list Output) :
  (0 < tt)%Z ->
  exists s,
    Start.run sid tid tt (Start.timer_first sent) (Start.init tt sent)
    = Some s /\
    Start.LogTaskTimeout tid tt ∈ Start.log s /\
    Start.detailOpen s = false /\ Start.taskOpen s = false /\
    Start.panicked s <> None.
Proof.
  intros Htt. unfold Start.init.
  destruct (Z.ltb_spec 0 tt) as [_|]; [|lia].
  destruct sent as [|[d|r] sent]; eexists; (split; [reflexivity|]); simpl;
    (split; [apply list_elem_of_singleton; reflexivity|]); auto.
Qed.

(** ** The vault password source *)

Section VaultFacts.

Variable env : Env.
Variable Config : ConfigFlags.

Lemma bind_Done {A B} (m : M A) (k : A -> M B) w a w' :
  m w = Done a w' -> (m ≫= k) w = k a w'.
Proof. intros H. unfold mbind, M_bind. rewrite H. reflexivity. Qed.

Lemma bind_Exited {A B} (m : M A) (k : A -> M B) w e w' :
  m w = Exited e w' -> (m ≫= k) w = Exited e w'.
Proof. intros H. unfold mbind, M_bind. rewrite H. reflexivity. Qed.

(** The recursion on the typed lines is the loop of the source. *)
Lemma GetVaultPassword_prompt_unfold w :
  GetVaultPassword_prompt w
  = GetVaultPassword_round GetVaultPassword_prompt w.
Proof.
  destruct w as [inputs tr].
  unfold GetVaultPassword_prompt, GetVaultPassword_round.
  destruct inputs as [|a rest]; [reflexivity|].
  destruct a as [|c a]; reflexivity.
Qed.

Lemma GetVaultPassword_loop_retries n a rest tr :
  a <> [] ->
  GetVaultPassword_loop (replicate n [] ++ a :: rest) tr
  = Done a (mkWorld rest
              (tr ++ retried n ++ [EvPrompt vault_prompt; EvPrint [LF]])).
Proof.
  intros Ha. revert tr. induction n as [|n IH]; intros tr.
  - destruct a; [congruence|]. simpl. rewrite <- app_assoc. reflexivity.
  - cbn [replicate app GetVaultPassword_loop is_empty negb].
    rewrite IH. unfold retried. cbn [replicate concat].
    rewrite <- !app_assoc. reflexivity.
Qed.

Lemma GetVaultPassword_loop_exhausted n tr :
  exists e w, GetVaultPassword_loop (replicate n []) tr = Exited e w.
Proof.
  revert tr. induction n as [|n IH]; intros tr.
  - simpl. eauto.
  - cbn [replicate GetVaultPassword_loop is_empty negb]. apply IH.
Qed.

End VaultFacts.

Section VaultSource.

Variable env : Env.
Variable Config : ConfigFlags.

Let vaultPassFile := auth_VaultPassFile (cfg_Auth Config).

Lemma GetVaultPassword_executable w mode out :
  vaultPassFile <> [] ->
  os_Stat env vaultPassFile = Some mode ->
  executable_bits mode = true ->
  exec_Output env (str "./" ++ vaultPassFile) = (out, None) ->
  GetVaultPassword env Config w
  = let w' := after w [EvStat vaultPassFile;
                       EvExec (str "./" ++ vaultPassFile)] in
    if is_empty (TrimSpace out)
    then Exited (exec_empty_error vaultPassFile) w'
    else Done (TrimSpace out) w'.
Proof.
  subst vaultPassFile. intros Hf Hstat Hx Hexec.
  unfold GetVaultPassword, getVaultPasswordFromFile, isExectuable.
  destruct (auth_VaultPassFile (cfg_Auth Config)) as [|c f] eqn:Ef;
    [congruence|].
  cbn [is_empty negb].
  unfold mbind, M_bind, mret, M_ret, emit, CheckErr. cbn.
  rewrite Hstat. unfold executable_bits in Hx. rewrite Hx.
  cbn in Hexec. cbn. rewrite Hexec. unfold after. cbn.
  rewrite <- app_assoc.
  destruct (TrimSpace out) as [|d o] eqn:Et; reflexivity.
Qed.

Lemma GetVaultPassword_plain_file w mode content :
  vaultPassFile <> [] ->
  os_Stat env vaultPassFile = Some mode ->
  executable_bits mode = false ->
  ioutil_ReadFile env vaultPassFile = (content, None) ->
  GetVaultPassword env Config w
  = let w' := after w [EvStat vaultPassFile; EvReadFile vaultPassFile] in
    if is_empty (TrimSpace content) then Exited file_empty_error w'
    else if HasPrefix (TrimSpace content) (str "#!/")
    then Exited (looks_like_script_error vaultPassFile) w'
    else Done (TrimSpace content) w'.
Proof.
  subst vaultPassFile. intros Hf Hstat Hx Hread.
  unfold GetVaultPassword, getVaultPasswordFromFile, isExectuable.
  destruct (auth_VaultPassFile (cfg_Auth Config)) as [|c f] eqn:Ef;
    [congruence|].
  cbn [is_empty negb].
  unfold mbind, M_bind, mret, M_ret, emit, CheckErr. cbn.
  rewrite Hstat. unfold executable_bits in Hx. rewrite Hx.
  cbn. rewrite Hread. unfold after. cbn.
  rewrite <- app_assoc.
  destruct (TrimSpace content) as [|d o] eqn:Et; [reflexivity|].
  cbn [is_empty].
  destruct (HasPrefix (d :: o) (str "#!/")); reflexivity.
Qed.

Lemma GetVaultPassword_no_file w :
  vaultPassFile = [] ->
  GetVaultPassword env Config w = GetVaultPassword_loop (tty w) (trace w).
Proof.
  subst vaultPassFile. intros Hf.
  unfold GetVaultPassword, getVaultPasswordFromFile. rewrite Hf.
  reflexivity.
Qed.

Lemma GetVaultPassword_prompted w n a rest :
  vaultPassFile = [] ->
  tty w = replicate n [] ++ a :: rest ->
  a <> [] ->
  GetVaultPassword env Config w
  = Done a (mkWorld rest
              (trace w ++ retried n ++ [EvPrompt vault_prompt; EvPrint [LF]])).
Proof.
  intros Hf Htty Ha. rewrite GetVaultPassword_no_file by exact Hf.
  rewrite Htty. apply GetVaultPassword_loop_retries, Ha.
Qed.

End VaultSource.

(** C8 (as amended). The vault password source: a configured file with an
    executable bit is executed and its trimmed stdout is the password, unless
    that is empty, which ends the process; a configured file without one is
    read and its trimmed contents are the password, unless they are empty or
    begin with "#!/", which both end the process with a diagnostic; with no
    file configured the user is prompted, and after [n] empty answers (each
    re-prompted) the first non-empty answer is the password. *)
Theorem C8_vault_password_source env Config w :
  let file := auth_VaultPassFile (cfg_Auth Config) in
  (forall mode out,
      file <> [] -> os_Stat env file = Some mode ->
      executable_bits mode = true ->
      exec_Output env (str "./" ++ file) = (out, None) ->
      GetVaultPassword env Config w
      = let w' := after w [EvStat file; EvExec (str "./" ++ file)] in
        if is_empty (TrimSpace out) then Exited (exec_empty_error file) w'
        else Done (TrimSpace out) w') /\
  (forall mode content,
      file <> [] -> os_Stat env file = Some mode ->
      executable_bits mode = false ->
      ioutil_ReadFile env file = (content, None) ->
      GetVaultPassword env Config w
      = let w' := after w [EvStat file; EvReadFile file] in
        if is_empty (TrimSpace content) then Exited file_empty_error w'
        else if HasPrefix (TrimSpace content) (str "#!/")
        then Exited (looks_like_script_error file) w'
        else Done (TrimSpace content) w') /\
  (forall n a rest,
      file = [] -> tty w = replicate n [] ++ a :: rest -> a <> [] ->
      GetVaultPassword env Config w
      = Done a (mkWorld rest
                  (trace w ++ retried n
                   ++ [EvPrompt vault_prompt; EvPrint [LF]]))).
Proof.
  intros file. split; [|split].
  - intros mode out. apply GetVaultPassword_executable.
  - intros mode content. apply GetVaultPassword_plain_file.
  - intros n a rest. apply GetVaultPassword_prompted.
Qed.

(** The three sources at work: a script that prints the password, a plain
    file that holds it, and the prompt answered on the third try. *)
Lemma C8_witness :
  GetVaultPassword C8Sample.env_script C8Sample.cfg (Sample.typed [])
  = Done (str "secret")
      (mkWorld [] [EvStat C8Sample.vault_file;
                   EvExec (str "./" ++ C8Sample.vault_file)])
  /\ GetVaultPassword (C8Sample.env_plain (str "secret" ++ [LF]))
       C8Sample.cfg (Sample.typed [])
     = Done (str "secret")
         (mkWorld [] [EvStat C8Sample.vault_file;
                      EvReadFile C8Sample.vault_file])
  /\ GetVaultPassword Sample.env0 C8Sample.cfg_prompt
       (Sample.typed [[]; []; str "secret"; str "next"])
     = Done (str "secret")
         (mkWorld [str "next"]
            (retried 2 ++ [EvPrompt vault_prompt; EvPrint [LF]])).
Proof.
  split; [|split].
  - refine (proj1 (C8_vault_password_source C8Sample.env_script C8Sample.cfg
                     (Sample.typed [])) 493 (str " secret" ++ [LF]) _ _ _ _);
      [discriminate | reflexivity | reflexivity | reflexivity].
  - refine (proj1 (proj2 (C8_vault_password_source
                            (C8Sample.env_plain (str "secret" ++ [LF]))
                            C8Sample.cfg (Sample.typed [])))
              420 (str "secret" ++ [LF]) _ _ _ _);
      [discriminate | reflexivity | reflexivity | reflexivity].
  - refine (proj2 (proj2 (C8_vault_password_source Sample.env0
                            C8Sample.cfg_prompt
                            (Sample.typed [[]; []; str "secret"; str "next"])))
              2%nat (str "secret") [str "next"] _ _ _);
      [reflexivity | reflexivity | discriminate].
Defined.

(** C8, the claim as written, fails on a vault password file without an
    executable bit that is empty or blank: its trimmed contents are empty and
    do not begin with "#!/", yet they are not taken as the password; the
    process ends with "vault password file cannot be empty". *)
Lemma C8_counterexample_blank_file :
  let content := str "  " ++ [LF] in
  os_Stat (C8Sample.env_plain content) C8Sample.vault_file = Some 420 /\
  executable_bits 420 = false /\
  HasPrefix (TrimSpace content) (str "#!/") = false /\
  GetVaultPassword (C8Sample.env_plain content) C8Sample.cfg
    (Sample.typed [str "typed"])
  = Exited file_empty_error
      (mkWorld [str "typed"]
         [EvStat C8Sample.vault_file; EvReadFile C8Sample.vault_file]) /\
  forall w',
    GetVaultPassword (C8Sample.env_plain content) C8Sample.cfg
      (Sample.typed [str "typed"])
    <> Done (TrimSpace content) w'.
Proof.
  intros content. repeat split; try reflexivity.
  intros w'. discriminate.
Qed.

(** ** Passwords: decryption on use, the default password, the prompt *)

Section Passwords.

Variable env : Env.
Variable Config : ConfigFlags.

Lemma getPasswordFromPrompt_typed user w typed rest :
  tty w = typed :: rest ->
  getPasswordFromPrompt user w
  = Done typed
      (mkWorld rest (trace w ++ [EvPrompt (login_prompt user); EvPrint [LF]])).
Proof.
  intros Htty. unfold getPasswordFromPrompt, term_ReadPassword.
  unfold mbind, M_bind, mret, M_ret, emit, CheckErr. cbn.
  rewrite Htty. cbn. rewrite <- app_assoc. reflexivity.
Qed.

Lemma assignRealPass_plain pass host objectType w :
  aes_IsAES256CipherText env pass = false ->
  assignRealPass env Config pass host objectType w = Done pass w.
Proof. intros H. unfold assignRealPass. rewrite H. reflexivity. Qed.

Lemma assignRealPass_cipher pass host objectType w vaultPass w' :
  aes_IsAES256CipherText env pass = true ->
  GetVaultPassword env Config w = Done vaultPass w' ->
  assignRealPass env Config pass host objectType w
  = match aes_AES256Decode env pass vaultPass with
    | (_, Some e) => Exited e w'
    | (pass', None) => Done pass' w'
    end.
Proof.
  intros Hc Hv. unfold assignRealPass. rewrite Hc.
  rewrite (bind_Done _ _ _ _ _ Hv).
  destruct (aes_AES256Decode env pass vaultPass) as [pass' [e|]]; reflexivity.
Qed.

Lemma assignRealPass_cipher_inv pass host objectType w real w' :
  aes_IsAES256CipherText env pass = true ->
  assignRealPass env Config pass host objectType w = Done real w' ->
  exists vaultPass,
    GetVaultPassword env Config w = Done vaultPass w' /\
    aes_AES256Decode env pass vaultPass = (real, None).
Proof.
  intros Hc Hrun.
  destruct (GetVaultPassword env Config w) as [vaultPass wv|e wv] eqn:Hv.
  - rewrite (assignRealPass_cipher _ _ _ _ _ _ Hc Hv) in Hrun.
    destruct (aes_AES256Decode env pass vaultPass) as [pass' [e|]] eqn:Hd;
      [discriminate|].
    injection Hrun as -> ->. exists vaultPass. split; [reflexivity|exact Hd].
  - unfold assignRealPass in Hrun. rewrite Hc in Hrun.
    rewrite (bind_Exited _ _ _ _ _ Hv) in Hrun. discriminate.
Qed.

Lemma getDefaultPassword_unfold auth w :
  let file := auth_PassFile auth in
  let fromFile :=
    if is_empty file then [] else TrimSpace (fst (ioutil_ReadFile env file)) in
  let chosen :=
    if is_empty (auth_Password auth) then fromFile else auth_Password auth in
  let w0 := if is_empty file then w else after w [EvReadFile file] in
  (file <> [] -> snd (ioutil_ReadFile env file) = None) ->
  getDefaultPassword env Config auth w
  = (assignRealPass env Config chosen (str "default") (str "password") ≫=
       (fun password =>
          if auth_AskPass auth then getPasswordFromPrompt (auth_User auth)
          else mret password)) w0.
Proof.
  intros file fromFile chosen w0 Hread.
  unfold getDefaultPassword. subst file fromFile chosen w0.
  destruct (auth_PassFile auth) as [|c f] eqn:Ef; cbn [is_empty negb].
  - destruct (auth_Password auth); reflexivity.
  - specialize (Hread ltac:(discriminate)).
    destruct (ioutil_ReadFile env (c :: f)) as [content e].
    simpl in Hread. subst e.
    destruct (auth_Password auth); reflexivity.
Qed.

End Passwords.

(** ** The default authentication methods *)

Section DefaultAuth.

Variable env : Env.
Variable Config : ConfigFlags.

Lemma length_eqb_0 {A} (l : list A) :
  (length l =? 0)%nat = match l with [] => true | _ :: _ => false end.
Proof. destruct l; reflexivity. Qed.

Lemma setDefaultSSHAuthMethods_unfold t w :
  setDefaultSSHAuthMethods env Config t w
  = let sshAgent' :=
      if negb (is_empty (os_Getenv env "SSH_AUTH_SOCK"))
      then snd (agentSigners env) else sshAgent t in
    let auths := publicKeyMethod (defaultSigners env Config t) in
    if negb (is_empty (defaultPass t)) then
      Done (set_auth t sshAgent' (defaultPass t)
              (auths ++ [Password (defaultPass t)])) w
    else if run_Sudo (cfg_Run Config) then
      (getPasswordFromPrompt (defaultUser t) ≫=
         (fun pass =>
            mret (set_auth t sshAgent' pass (auths ++ [Password pass])))) w
    else Done (set_auth t sshAgent' (defaultPass t) auths) w.
Proof.
  unfold setDefaultSSHAuthMethods, defaultSigners.
  destruct (agentSigners env) as [agent conn]. cbn [fst snd].
  set (files := getSigners env (defaultIdentityFiles t)
                  (auth_Passphrase (cfg_Auth Config))).
  assert (Hsigners :
    (if negb (length (defaultIdentityFiles t) =? 0)%nat
     then if negb (length files =? 0)%nat then agent ++ files else agent
     else agent) = agent ++ files).
  { subst files. rewrite !length_eqb_0.
    destruct (defaultIdentityFiles t) as [|f fs]; cbn [negb].
    - cbn. rewrite app_nil_r. reflexivity.
    - destruct (getSigners env (f :: fs) _); cbn [negb];
        [rewrite app_nil_r|]; reflexivity. }
  rewrite Hsigners. rewrite length_eqb_0.
  unfold publicKeyMethod.
  destruct (agent ++ files) as [|s ss]; cbn [negb app];
    destruct (defaultPass t) as [|c p]; cbn [is_empty negb andb];
    try reflexivity;
    (destruct (run_Sudo (cfg_Run Config)); [|reflexivity]);
    unfold mbind, M_bind, mret, M_ret;
    destruct (getPasswordFromPrompt (defaultUser t) w); reflexivity.
Qed.

Lemma agentSigners_live sock conn :
  os_Getenv env "SSH_AUTH_SOCK" = sock -> sock <> [] ->
  net_Dial env sock = Some conn ->
  fst (agentSigners env) = fst (agent_Signers env conn).
Proof.
  intros Hs Hne Hd. unfold agentSigners. rewrite Hs.
  destruct sock; [congruence|]. cbn [is_empty negb]. rewrite Hd. reflexivity.
Qed.

End DefaultAuth.

(** C6. The default authentication methods: at most one public-key method,
    holding the agent's signers (those a live agent socket yields) followed
    by the signers parsed from the default identity files, and present when
    there is any signer; it comes first, and the password method with the
    configured password, when there is a password, comes after it. *)
Theorem C6_default_auth_order env Config t w :
  let pk := publicKeyMethod (defaultSigners env Config t) in
  (forall sock conn,
      os_Getenv env "SSH_AUTH_SOCK" = sock -> sock <> [] ->
      net_Dial env sock = Some conn ->
      defaultSigners env Config t
      = fst (agent_Signers env conn)
        ++ getSigners env (defaultIdentityFiles t)
             (auth_Passphrase (cfg_Auth Config))) /\
  (defaultPass t <> [] ->
     exists t',
       setDefaultSSHAuthMethods env Config t w = Done t' w /\
       defaultSSHAuthMethods t' = pk ++ [Password (defaultPass t)]) /\
  (defaultPass t = [] -> run_Sudo (cfg_Run Config) = false ->
     exists t',
       setDefaultSSHAuthMethods env Config t w = Done t' w /\
       defaultSSHAuthMethods t' = pk).
Proof.
  intros pk. split; [|split].
  - intros sock conn Hs Hne Hd. unfold defaultSigners.
    rewrite (agentSigners_live env sock conn Hs Hne Hd). reflexivity.
  - intros Hpass. rewrite setDefaultSSHAuthMethods_unfold. cbv zeta.
    destruct (defaultPass t) as [|c p] eqn:Ep; [congruence|].
    cbn [is_empty negb]. eexists. split; reflexivity.
  - intros Hpass Hsudo. rewrite setDefaultSSHAuthMethods_unfold. cbv zeta.
    rewrite Hpass, Hsudo. cbn [is_empty negb]. eexists. split; reflexivity.
Qed.

(** Two agent keys, one identity file and a password. *)
Lemma C6_witness :
  exists t',
    setDefaultSSHAuthMethods C6Sample.env C6Sample.cfg C6Sample.t
      (Sample.typed [])
    = Done t' (Sample.typed []) /\
    defaultSSHAuthMethods t' = [PublicKeys [11; 12; 21]; Password (str "pw")].
Proof.
  refine (proj1 (proj2 (C6_default_auth_order C6Sample.env C6Sample.cfg
                          C6Sample.t (Sample.typed []))) _).
  discriminate.
Defined.

(** ** Resolving the inventory hosts *)

Section HostLoop.

Variable env : Env.
Variable Config : ConfigFlags.

Lemma getAllHosts_inventory_exit t v vs hosts w e w' :
  getAllHosts_host env Config t v w = Exited e w' ->
  getAllHosts_inventory env Config t (v :: vs) hosts w = Exited e w'.
Proof.
  intros H. cbn [getAllHosts_inventory]. apply bind_Exited, H.
Qed.

Lemma getAllHosts_inventory_next t v vs hosts w h w' :
  getAllHosts_host env Config t v w = Done h w' ->
  getAllHosts_inventory env Config t (v :: vs) hosts w
  = getAllHosts_inventory env Config t vs (hosts ++ [h]) w'.
Proof.
  intros H. cbn [getAllHosts_inventory].
  rewrite (bind_Done _ _ _ _ _ H). reflexivity.
Qed.

Lemma getAllHosts_host_password_exit t v w e w' :
  inv_Keys v = [] ->
  assignRealPass env Config (password_source t v) (inv_Alias v)
    (str "password") w = Exited e w' ->
  getAllHosts_host env Config t v w = Exited e w'.
Proof.
  intros Hkeys Hpass. unfold getAllHosts_host, password_source in *.
  rewrite Hkeys. cbn [length Nat.eqb negb].
  unfold mbind at 1, M_bind at 1, mret at 1, M_ret at 1.
  destruct (inv_Password v) as [|c p]; cbn [is_empty] in *;
    unfold mbind, M_bind in *; rewrite Hpass; reflexivity.
Qed.

Lemma getAllHosts_host_passphrase_exit t v w e w' :
  inv_Keys v <> [] ->
  assignRealPass env Config (inv_Passphrase v) (inv_Alias v)
    (str "passphrase") w = Exited e w' ->
  getAllHosts_host env Config t v w = Exited e w'.
Proof.
  intros Hkeys Hpass. unfold getAllHosts_host.
  rewrite length_eqb_0.
  destruct (inv_Keys v) as [|k ks]; [congruence|]. cbn [negb].
  unfold mbind, M_bind in *. rewrite Hpass. reflexivity.
Qed.

Lemma assignRealPass_decode_error pass host objectType w vaultPass w' p e :
  aes_IsAES256CipherText env pass = true ->
  GetVaultPassword env Config w = Done vaultPass w' ->
  aes_AES256Decode env pass vaultPass = (p, Some e) ->
  assignRealPass env Config pass host objectType w = Exited e w'.
Proof.
  intros Hc Hv Hd.
  rewrite (assignRealPass_cipher env Config _ _ _ _ _ _ Hc Hv), Hd.
  reflexivity.
Qed.

End HostLoop.

(** C1 (as amended). A failure to decrypt the password of an inventory host
    (its own, or the default one it falls back to), or the passphrase of a
    host with identity files, ends the process with the decryption error
    while the hosts are being resolved: whatever hosts were resolved before
    ([hosts]) and whatever hosts follow ([vs]), [getAllHosts] does not
    return, so that no host is run and no result is produced. *)
Theorem C1_decrypt_failure_exits env Config t v vs hosts w vaultPass w' p e :
  let secret :=
    match inv_Keys v with
    | [] => password_source t v
    | _ :: _ => inv_Passphrase v
    end in
  aes_IsAES256CipherText env secret = true ->
  GetVaultPassword env Config w = Done vaultPass w' ->
  aes_AES256Decode env secret vaultPass = (p, Some e) ->
  getAllHosts_inventory env Config t (v :: vs) hosts w = Exited e w'.
Proof.
  intros secret Hc Hv Hd. apply getAllHosts_inventory_exit.
  subst secret. destruct (inv_Keys v) as [|k ks] eqn:Hkeys.
  - apply getAllHosts_host_password_exit; [exact Hkeys|].
    eapply assignRealPass_decode_error; eassumption.
  - apply getAllHosts_host_passphrase_exit; [congruence|].
    eapply assignRealPass_decode_error; eassumption.
Qed.

(** The first of two hosts has a password the typed vault password does not
    open. *)
Lemma C1_witness :
  getAllHosts_inventory C1Sample.env C1Sample.cfg C1Sample.t
    [C1Sample.h1; C1Sample.h2] [] C1Sample.w
  = Exited (LibError 7) (mkWorld [] [EvPrompt vault_prompt; EvPrint [LF]]).
Proof.
  refine (C1_decrypt_failure_exits C1Sample.env C1Sample.cfg C1Sample.t
            C1Sample.h1 [C1Sample.h2] [] C1Sample.w (str "wrong")
            (mkWorld [] [EvPrompt vault_prompt; EvPrint [LF]])
            [] (LibError 7) _ _ _);
    reflexivity.
Defined.

(** C1, the claim as written, fails: with two inventory hosts of which the
    first has a password that cannot be decrypted, the whole run ends in the
    decryption error; no record is sent for either host, and the second
    host, whose password is plain, is never run. *)
Lemma C1_counterexample_run_exits :
  C1Sample.run C1Sample.w
  = Exited (LibError 7) (mkWorld [] [EvPrompt vault_prompt; EvPrint [LF]])
  /\ forall t' sent w', C1Sample.run C1Sample.w <> Done (t', sent) w'.
Proof.
  assert (H : C1Sample.run C1Sample.w
              = Exited (LibError 7)
                  (mkWorld [] [EvPrompt vault_prompt; EvPrint [LF]])).
  { vm_compute. reflexivity. }
  split; [exact H|]. intros t' sent w'. rewrite H. discriminate.
Qed.

(** ** The vault password is obtained at every decryption *)

Section VaultPerSecret.

Variable env : Env.
Variable Config : ConfigFlags.

Lemma getAllHosts_host_cipher_password t v w vaultPass w' pw :
  inv_Keys v = [] -> inv_Password v <> [] ->
  aes_IsAES256CipherText env (inv_Password v) = true ->
  GetVaultPassword env Config w = Done vaultPass w' ->
  aes_AES256Decode env (inv_Password v) vaultPass = (pw, None) ->
  getAllHosts_host env Config t v w = Done (resolved Config t v pw) w'.
Proof.
  intros Hkeys Hne Hc Hv Hd. unfold getAllHosts_host.
  rewrite Hkeys. cbn [length Nat.eqb negb].
  unfold mbind at 1, M_bind at 1, mret at 1, M_ret at 1.
  assert (Hpass : assignRealPass env Config (inv_Password v) (inv_Alias v)
                    (str "password") w = Done pw w').
  { rewrite (assignRealPass_cipher env Config _ _ _ _ _ _ Hc Hv), Hd.
    reflexivity. }
  destruct (inv_Password v) as [|c p] eqn:Ep; [congruence|].
  cbn [is_empty]. unfold mbind, M_bind. rewrite Hpass.
  unfold resolved. rewrite Hkeys. reflexivity.
Qed.

Lemma getAllHosts_inventory_prompts t vs answers :
  auth_VaultPassFile (cfg_Auth Config) = [] ->
  Forall2 (opens env) vs answers ->
  forall hosts rest tr,
    getAllHosts_inventory env Config t vs hosts (mkWorld (answers ++ rest) tr)
    = Done (hosts
            ++ zip_with (fun v a => resolved Config t v (decoded env v a))
                 vs answers)
        (mkWorld rest
           (tr ++ concat ((fun _ => [EvPrompt vault_prompt; EvPrint [LF]])
                          <$> vs))).
Proof.
  intros Hfile Hall.
  induction Hall as [|v a vs answers (Hk & Hne & Hc & Ha & Hd) _ IH];
    intros hosts rest tr.
  - cbn. rewrite !app_nil_r. reflexivity.
  - assert (Hv : GetVaultPassword env Config (mkWorld ((a :: answers) ++ rest) tr)
                 = Done a (mkWorld (answers ++ rest)
                             (tr ++ [EvPrompt vault_prompt; EvPrint [LF]]))).
    { rewrite (GetVaultPassword_prompted env Config
                 (mkWorld ((a :: answers) ++ rest) tr) 0 a (answers ++ rest)
                 Hfile eq_refl Ha).
      reflexivity. }
    assert (Hdec : aes_AES256Decode env (inv_Password v) a
                   = (decoded env v a, None)).
    { unfold decoded.
      destruct (aes_AES256Decode env (inv_Password v) a) as [pw e].
      simpl in Hd. subst e. reflexivity. }
    pose proof (getAllHosts_host_cipher_password t v _ _ _ _
                  Hk Hne Hc Hv Hdec) as Hhost.
    rewrite (getAllHosts_inventory_next env Config t v vs hosts _ _ _ Hhost).
    rewrite IH. cbn [zip_with fmap list_fmap concat].
    rewrite <- !app_assoc. reflexivity.
Qed.

(** The same with a vault password file that is read: every host reads it
    again. *)
Lemma getAllHosts_inventory_reads t vs file mode content :
  auth_VaultPassFile (cfg_Auth Config) = file -> file <> [] ->
  os_Stat env file = Some mode -> executable_bits mode = false ->
  ioutil_ReadFile env file = (content, None) ->
  TrimSpace content <> [] ->
  HasPrefix (TrimSpace content) (str "#!/") = false ->
  Forall (opened_by env (TrimSpace content)) vs ->
  forall hosts w,
    getAllHosts_inventory env Config t vs hosts w
    = Done (hosts
            ++ ((fun v => resolved Config t v (decoded env v (TrimSpace content)))
                <$> vs))
        (after w (concat ((fun _ => [EvStat file; EvReadFile file]) <$> vs))).
Proof.
  intros Hfile Hne Hstat Hx Hread Hpw Hbang Hall.
  induction Hall as [|v vs (Hk & Hn & Hc & Hd) _ IH]; intros hosts w.
  - cbn. unfold after. rewrite !app_nil_r. destruct w; reflexivity.
  - assert (Hv : GetVaultPassword env Config w
                 = Done (TrimSpace content)
                     (after w [EvStat file; EvReadFile file])).
    { subst file.
      rewrite (GetVaultPassword_plain_file env Config w mode content
                 Hne Hstat Hx Hread).
      cbv zeta. destruct (TrimSpace content); [congruence|].
      cbn [is_empty]. rewrite Hbang. reflexivity. }
    assert (Hdec : aes_AES256Decode env (inv_Password v) (TrimSpace content)
                   = (decoded env v (TrimSpace content), None)).
    { unfold decoded.
      destruct (aes_AES256Decode env (inv_Password v) (TrimSpace content))
        as [pw e].
      simpl in Hd. subst e. reflexivity. }
    pose proof (getAllHosts_host_cipher_password t v _ _ _ _
                  Hk Hn Hc Hv Hdec) as Hhost.
    rewrite (getAllHosts_inventory_next env Config t v vs hosts _ _ _ Hhost).
    rewrite IH. cbn [fmap list_fmap concat]. unfold after. cbn [tty trace].
    rewrite <- !app_assoc. reflexivity.
Qed.

End VaultPerSecret.

(** C3 (as amended). The vault password is obtained anew at every
    decryption; nothing is kept between two calls.  Resolving inventory hosts
    whose passwords are ciphertexts prompts for the vault password once per
    host when no vault password file is configured, each password being
    decrypted with the answer typed for it; and with a vault password file
    that is read, the file is examined and read once per host. *)
Theorem C3_vault_password_per_decryption env Config t vs :
  (forall answers,
      auth_VaultPassFile (cfg_Auth Config) = [] ->
      Forall2 (opens env) vs answers ->
      forall hosts rest tr,
        getAllHosts_inventory env Config t vs hosts
          (mkWorld (answers ++ rest) tr)
        = Done (hosts
                ++ zip_with
                     (fun v a => resolved Config t v (decoded env v a))
                     vs answers)
            (mkWorld rest
               (tr ++ concat ((fun _ => [EvPrompt vault_prompt; EvPrint [LF]])
                              <$> vs)))) /\
  (forall file mode content,
      auth_VaultPassFile (cfg_Auth Config) = file -> file <> [] ->
      os_Stat env file = Some mode -> executable_bits mode = false ->
      ioutil_ReadFile env file = (content, None) ->
      TrimSpace content <> [] ->
      HasPrefix (TrimSpace content) (str "#!/") = false ->
      Forall (opened_by env (TrimSpace content)) vs ->
      forall hosts w,
        getAllHosts_inventory env Config t vs hosts w
        = Done (hosts
                ++ ((fun v =>
                       resolved Config t v (decoded env v (TrimSpace content)))
                    <$> vs))
            (after w (concat ((fun _ => [EvStat file; EvReadFile file])
                              <$> vs)))).
Proof.
  split.
  - intros answers. apply getAllHosts_inventory_prompts.
  - intros file mode content. apply getAllHosts_inventory_reads.
Qed.

(** Two hosts, two prompts. *)
Lemma C3_witness :
  getAllHosts_inventory C3Sample.env C3Sample.cfg C3Sample.t
    [C3Sample.h1; C3Sample.h2] []
    (mkWorld ([str "secret"; str "secret"] ++ []) [])
  = Done ([] ++ [resolved C3Sample.cfg C3Sample.t C3Sample.h1 (str "hunter2");
                 resolved C3Sample.cfg C3Sample.t C3Sample.h2
                   (str "swordfish")])
      (mkWorld []
         ([] ++ [EvPrompt vault_prompt; EvPrint [LF];
                 EvPrompt vault_prompt; EvPrint [LF]])).
Proof.
  refine (proj1 (C3_vault_password_per_decryption C3Sample.env C3Sample.cfg
                   C3Sample.t [C3Sample.h1; C3Sample.h2])
            [str "secret"; str "secret"] _ _ [] [] []).
  - reflexivity.
  - repeat constructor; discriminate.
Defined.

(** C3, the claim as written, fails: in one run over two hosts whose
    passwords are ciphertexts the user is prompted for the vault password
    twice; and when the second answer is missing the run ends at the second
    host, which shows that the first answer was not kept. *)
Lemma C3_counterexample_two_prompts :
  C3Sample.returned (C3Sample.run (Sample.typed [str "secret"; str "secret"]))
  = true /\
  vault_prompts
    (C3Sample.trace_of
       (C3Sample.run (Sample.typed [str "secret"; str "secret"]))) = 2%nat /\
  ~ (vault_prompts
       (C3Sample.trace_of
          (C3Sample.run (Sample.typed [str "secret"; str "secret"])))
     <= 1)%nat /\
  C3Sample.returned (C3Sample.run (Sample.typed [str "secret"])) = false.
Proof.
  assert (H : vault_prompts
                (C3Sample.trace_of
                   (C3Sample.run (Sample.typed [str "secret"; str "secret"])))
              = 2%nat) by (vm_compute; reflexivity).
  split; [vm_compute; reflexivity|].
  split; [exact H|]. split; [rewrite H; lia|].
  vm_compute; reflexivity.
Qed.

(** ** Sudo without a password: the prompt *)

Section SudoPrompt.

Variable env : Env.
Variable Config : ConfigFlags.

Lemma NewTask_no_password ty w :
  auth_AskPass (cfg_Auth Config) = false ->
  auth_Password (cfg_Auth Config) = [] ->
  auth_PassFile (cfg_Auth Config) = [] ->
  aes_IsAES256CipherText env [] = false ->
  exists t,
    NewTask env Config ty w = Done t w /\
    defaultPass t = [] /\ defaultUser t = auth_User (cfg_Auth Config).
Proof.
  intros Hask Hpw Hfile Hplain. unfold NewTask, getDefaultPassword.
  rewrite Hask, Hpw, Hfile. cbn [is_empty negb].
  unfold mbind, M_bind, mret, M_ret, assignRealPass. rewrite Hplain.
  eexists. split; [reflexivity|]. split; reflexivity.
Qed.

Lemma setDefaultSSHAuthMethods_prompt t w typed rest :
  run_Sudo (cfg_Run Config) = true ->
  defaultPass t = [] ->
  tty w = typed :: rest ->
  exists t',
    setDefaultSSHAuthMethods env Config t w
    = Done t'
        (mkWorld rest
           (trace w ++ [EvPrompt (login_prompt (defaultUser t));
                        EvPrint [LF]])) /\
    defaultPass t' = typed /\
    defaultUser t' = defaultUser t /\
    defaultIdentityFiles t' = defaultIdentityFiles t /\
    defaultSSHAuthMethods t'
    = publicKeyMethod (defaultSigners env Config t) ++ [Password typed].
Proof.
  intros Hsudo Hpass Htty. rewrite setDefaultSSHAuthMethods_unfold.
  cbv zeta. rewrite Hpass, Hsudo. cbn [is_empty negb].
  rewrite (bind_Done _ _ _ _ _ (getPasswordFromPrompt_typed _ _ _ _ Htty)).
  eexists. split; [reflexivity|]. repeat split; reflexivity.
Qed.

(** The hosts named on the command line carry the task's default password
    and its default methods. *)
Lemma getAllHosts_args_defaults t args :
  forall acc hosts e,
    Forall (fun h => HostPassword h = defaultPass t /\
                     SSHAuths h = defaultSSHAuthMethods t) acc ->
    getAllHosts_args env Config t args acc = (hosts, e) ->
    Forall (fun h => HostPassword h = defaultPass t /\
                     SSHAuths h = defaultSSHAuthMethods t) hosts.
Proof.
  induction args as [|a args IH]; intros acc hosts e Hacc Hrun;
    cbn [getAllHosts_args] in Hrun.
  - injection Hrun as <- _. exact Hacc.
  - destruct (is_empty (TrimSpace a)); [eapply IH; eassumption|].
    destruct (expandhost_PatternToHosts env (TrimSpace a)) as [hostList [e'|]].
    + injection Hrun as <- _. constructor.
    + eapply IH; [|exact Hrun].
      apply Forall_app. split; [exact Hacc|].
      apply Forall_fmap, Forall_forall. intros v _. split; reflexivity.
Qed.

Lemma deDuplSSHHosts_Forall (P : Host -> Prop) hosts :
  Forall P hosts -> Forall P (deDuplSSHHosts hosts).
Proof.
  intros H. pose proof (dedup_by_sublist Alias hosts) as Hsub.
  rewrite Forall_forall in *. intros h Hh. apply H.
  revert Hh. apply sublist_subseteq, Hsub.
Qed.

Lemma getAllHosts_host_default_password t v w :
  inv_Keys v = [] -> inv_Password v = [] ->
  aes_IsAES256CipherText env (defaultPass t) = false ->
  exists h,
    getAllHosts_host env Config t v w = Done h w /\
    HostPassword h = defaultPass t /\
    SSHAuths h = defaultSSHAuthMethods t.
Proof.
  intros Hkeys Hpw Hplain. unfold getAllHosts_host.
  rewrite Hkeys, Hpw. cbn [length Nat.eqb negb is_empty].
  unfold mbind, M_bind, mret, M_ret, assignRealPass. rewrite Hplain.
  eexists. split; [reflexivity|]. split; reflexivity.
Qed.

End SudoPrompt.

(** C7 (as amended). When sudo is requested, ask-pass is not set and neither
    the flag or configuration nor a password file gives a password, the user
    is prompted exactly once (one prompt on the trace, one line read); the
    typed password becomes the last default authentication method and the
    default password; every host named on the command line carries it as its
    password, and so does every inventory host without identity files and
    without a password of its own, provided the typed text is not itself a
    vault ciphertext. *)
Theorem C7_sudo_prompt_once env Config args cmd w typed rest :
  run_Sudo (cfg_Run Config) = true ->
  auth_AskPass (cfg_Auth Config) = false ->
  auth_Password (cfg_Auth Config) = [] ->
  auth_PassFile (cfg_Auth Config) = [] ->
  aes_IsAES256CipherText env [] = false ->
  tty w = typed :: rest ->
  exists t',
    prepareTask env Config args cmd w
    = Done t'
        (mkWorld rest
           (trace w ++ [EvPrompt (login_prompt (auth_User (cfg_Auth Config)));
                        EvPrint [LF]])) /\
    defaultPass t' = typed /\
    defaultSSHAuthMethods t'
    = publicKeyMethod (defaultSigners env Config t') ++ [Password typed] /\
    (forall hosts e,
        getAllHosts_args env Config t' (argHosts t') [] = (hosts, e) ->
        Forall (fun h => HostPassword h = typed /\
                         Password typed ∈ SSHAuths h)
               (deDuplSSHHosts hosts)) /\
    (aes_IsAES256CipherText env typed = false ->
     forall v w2, inv_Keys v = [] -> inv_Password v = [] ->
       exists h,
         getAllHosts_host env Config t' v w2 = Done h w2 /\
         HostPassword h = typed /\ Password typed ∈ SSHAuths h).
Proof.
  intros Hsudo Hask Hpw Hfile Hplain Htty.
  destruct (NewTask_no_password env Config CommandTask w Hask Hpw Hfile Hplain)
    as (t & Hnew & Hpass & Huser).
  destruct (setDefaultSSHAuthMethods_prompt env Config
              (SetCommand (SetTargetHosts t args) cmd) w typed rest
              Hsudo Hpass Htty)
    as (t' & Hset & Hpass' & Huser' & Hfiles' & Hauths').
  exists t'. split; [|split; [|split; [|split]]].
  - unfold prepareTask. rewrite (bind_Done _ _ _ _ _ Hnew), Hset.
    cbn [SetCommand SetTargetHosts set_command set_argHosts defaultUser].
    rewrite Huser. reflexivity.
  - exact Hpass'.
  - rewrite Hauths'. unfold defaultSigners. rewrite Hfiles'. reflexivity.
  - intros hosts e Hargs. apply deDuplSSHHosts_Forall.
    pose proof (getAllHosts_args_defaults env Config t' (argHosts t') []
                  hosts e (List.Forall_nil _) Hargs) as Hall.
    rewrite Forall_forall in *. intros h Hh.
    destruct (Hall h Hh) as [Hp Ha]. split; [congruence|].
    rewrite Ha, Hauths'. apply elem_of_app. right. left.
  - intros Hplain' v w2 Hkeys Hown.
    destruct (getAllHosts_host_default_password env Config t' v w2 Hkeys Hown)
      as (h & Hrun & Hp & Ha); [rewrite Hpass'; exact Hplain'|].
    exists h. split; [exact Hrun|]. split; [congruence|].
    rewrite Ha, Hauths'. apply elem_of_app. right. left.
Qed.

(** One host on the command line, sudo, no password anywhere. *)
Lemma C7_witness :
  exists t',
    prepareTask Sample.env0 C7Sample.cfg [str "h1"] (str "id -un")
      (Sample.typed [str "pw"])
    = Done t'
        (mkWorld []
           ([] ++ [EvPrompt (login_prompt (str "alice")); EvPrint [LF]])) /\
    defaultPass t' = str "pw".
Proof.
  destruct (C7_sudo_prompt_once Sample.env0 C7Sample.cfg [str "h1"]
              (str "id -un") (Sample.typed [str "pw"]) (str "pw") []
              eq_refl eq_refl eq_refl eq_refl eq_refl eq_refl)
    as (t' & Hrun & Hpass & _).
  exists t'. split; [exact Hrun|exact Hpass].
Defined.

(** C7, the claim as written, fails: sudo is requested and no password comes
    from the flag, the configuration, a password file or the inventory, but
    ask-pass is set and the user answers its prompt with an empty line; the
    user is then prompted a second time. *)
Lemma C7_counterexample_two_prompts :
  auth_Password (cfg_Auth C7Sample.cfg_ask) = [] /\
  auth_PassFile (cfg_Auth C7Sample.cfg_ask) = [] /\
  run_Sudo (cfg_Run C7Sample.cfg_ask) = true /\
  prompts
    (C7Sample.trace_of
       (prepareTask Sample.env0 C7Sample.cfg_ask [str "h1"] (str "id -un")
          (Sample.typed [[]; str "pw"]))) = 2%nat /\
  ~ prompts
      (C7Sample.trace_of
         (prepareTask Sample.env0 C7Sample.cfg_ask [str "h1"] (str "id -un")
            (Sample.typed [[]; str "pw"]))) = 1%nat.
Proof.
  assert (H : prompts
                (C7Sample.trace_of
                   (prepareTask Sample.env0 C7Sample.cfg_ask [str "h1"]
                      (str "id -un") (Sample.typed [[]; str "pw"])))
              = 2%nat) by (vm_compute; reflexivity).
  split; [reflexivity|]. split; [reflexivity|]. split; [reflexivity|].
  split; [exact H|]. rewrite H. discriminate.
Qed.

(** ** The default password and where it goes *)

Lemma getAllHosts_host_no_password env Config t v w :
  inv_Keys v = [] -> inv_Password v = [] ->
  getAllHosts_host env Config t v w
  = (assignRealPass env Config (defaultPass t) (inv_Alias v) (str "password")
       ≫= (fun pw => mret (resolved_default Config t v pw))) w.
Proof.
  intros Hkeys Hpw. unfold getAllHosts_host, resolved_default.
  rewrite Hkeys, Hpw. cbn [length Nat.eqb negb is_empty].
  unfold mbind, M_bind, mret, M_ret.
  destruct (assignRealPass env Config (defaultPass t) (inv_Alias v)
              (str "password") w); reflexivity.
Qed.

(** C10 (as amended). The default password: the password of the flag or
    configuration file, when not empty, is taken instead of the trimmed
    contents of the password file; what was taken is vault-decrypted exactly
    when it is a ciphertext; and with ask-pass the password typed at the
    prompt is returned by [getDefaultPassword] as typed, whether or not it
    looks like a ciphertext.  A task whose default password is the typed one
    gives it as typed to every host named on the command line, but passes
    it through [assignRealPass] for every inventory host without identity
    files and without a password of its own: such a host gets the typed
    password only when it is no ciphertext, and otherwise what the vault
    password decrypts it to (or the run ends). *)
Theorem C10_default_password env Config auth w real w1 :
  let file := auth_PassFile auth in
  let fromFile :=
    if is_empty file then [] else TrimSpace (fst (ioutil_ReadFile env file)) in
  let chosen :=
    if is_empty (auth_Password auth) then fromFile else auth_Password auth in
  let w0 := if is_empty file then w else after w [EvReadFile file] in
  (file <> [] -> snd (ioutil_ReadFile env file) = None) ->
  assignRealPass env Config chosen (str "default") (str "password") w0
  = Done real w1 ->
  (aes_IsAES256CipherText env chosen = false -> real = chosen /\ w1 = w0) /\
  (aes_IsAES256CipherText env chosen = true ->
     exists vaultPass,
       GetVaultPassword env Config w0 = Done vaultPass w1 /\
       aes_AES256Decode env chosen vaultPass = (real, None)) /\
  (auth_AskPass auth = false ->
     getDefaultPassword env Config auth w = Done real w1) /\
  (auth_AskPass auth = true ->
     forall typed rest, tty w1 = typed :: rest ->
       getDefaultPassword env Config auth w
       = Done typed
           (mkWorld rest
              (trace w1 ++ [EvPrompt (login_prompt (auth_User auth));
                            EvPrint [LF]])) /\
       forall t, defaultPass t = typed ->
         (forall args hosts e,
             getAllHosts_args env Config t args [] = (hosts, e) ->
             Forall (fun h => HostPassword h = typed) hosts) /\
         (forall v w2, inv_Keys v = [] -> inv_Password v = [] ->
            (aes_IsAES256CipherText env typed = false ->
             getAllHosts_host env Config t v w2
             = Done (resolved_default Config t v typed) w2) /\
            (aes_IsAES256CipherText env typed = true ->
             forall vaultPass w3,
               GetVaultPassword env Config w2 = Done vaultPass w3 ->
               getAllHosts_host env Config t v w2
               = match aes_AES256Decode env typed vaultPass with
                 | (_, Some e) => Exited e w3
                 | (pw, None) => Done (resolved_default Config t v pw) w3
                 end))).
Proof.
  intros file fromFile chosen w0 Hread Hreal.
  pose proof (getDefaultPassword_unfold env Config auth w Hread) as Hunf.
  cbv zeta in Hunf. fold file fromFile chosen w0 in Hunf.
  rewrite (bind_Done _ _ _ _ _ Hreal) in Hunf.
  split; [|split; [|split]].
  - intros Hplain.
    rewrite (assignRealPass_plain env Config _ _ _ _ Hplain) in Hreal.
    injection Hreal as <- <-. split; reflexivity.
  - intros Hcipher.
    apply (assignRealPass_cipher_inv env Config _ _ _ _ _ _ Hcipher Hreal).
  - intros Hask. rewrite Hunf, Hask. reflexivity.
  - intros Hask typed rest Htty. split.
    { rewrite Hunf, Hask. apply getPasswordFromPrompt_typed, Htty. }
    intros t Hpass. split.
    + intros args hosts e Hargs.
      pose proof (getAllHosts_args_defaults env Config t args [] hosts e
                    (List.Forall_nil _) Hargs) as Hall.
      rewrite Forall_forall in *. intros h Hh.
      destruct (Hall h Hh) as [Hp _]. congruence.
    + intros v w2 Hkeys Hown.
      rewrite (getAllHosts_host_no_password env Config t v w2 Hkeys Hown).
      rewrite Hpass. split.
      * intros Hplain. unfold mbind, M_bind.
        rewrite (assignRealPass_plain env Config _ _ _ _ Hplain).
        reflexivity.
      * intros Hcipher vaultPass w3 Hvault. unfold mbind, M_bind.
        rewrite (assignRealPass_cipher env Config _ _ _ _ _ _ Hcipher Hvault).
        destruct (aes_AES256Decode env typed vaultPass) as [pw [e|]];
          reflexivity.
Qed.

(** The typed password is returned as typed although it looks like a
    ciphertext, after the configured one has been decrypted. *)
Lemma C10_witness :
  getDefaultPassword C10Sample.env C10Sample.cfg C10Sample.auth C10Sample.w
  = Done (Sample.header ++ str "typed")
      (mkWorld []
         (trace C10Sample.w1
          ++ [EvPrompt (login_prompt (str "alice")); EvPrint [LF]])).
Proof.
  refine (proj1 (proj2 (proj2 (proj2
            (C10_default_password C10Sample.env C10Sample.cfg C10Sample.auth
               C10Sample.w (str "hunter2") C10Sample.w1 _ _)))
            _ (Sample.header ++ str "typed") [] _));
    reflexivity.
Defined.

(** C10, the claim as written, fails: with ask-pass the user types a text
    that begins with the vault header; it becomes the default password as
    typed, but the inventory host without a password of its own does not
    get it verbatim: the user is asked for the vault password and the host
    gets what the typed text decrypts to. *)
Lemma C10_counterexample_typed_decrypted :
  auth_AskPass (cfg_Auth C10Sample.cfg_inv) = true /\
  C10Sample.run_inv C10Sample.w_inv
  = Done (Sample.header ++ str "typed", [str "typed"])
      (mkWorld []
         [EvPrompt (login_prompt (str "alice")); EvPrint [LF];
          EvPrompt vault_prompt; EvPrint [LF]]) /\
  str "typed" <> Sample.header ++ str "typed".
Proof.
  split; [reflexivity|]. split; [vm_compute; reflexivity|].
  vm_compute. discriminate.
Qed.

(** ** HandleOutput: what the pattern removes *)

(** What follows the prompt in the pattern: [(\n|)]. *)
Lemma rx_newline_opt b :
  rx_match (RxAlt (rx_lit LF) RxEps) b Some = Some (drop_newline b).
Proof.
  unfold rx_lit, drop_newline. cbn [rx_match].
  destruct b as [|c b]; [reflexivity|].
  rewrite (N.eqb_sym LF c). destruct (c =? LF); reflexivity.
Qed.

Lemma rx_str_app h u k : rx_match (rx_str h) (h ++ u) k = k u.
Proof.
  induction h as [|c h IH]; [reflexivity|].
  cbn [rx_str fold_right app]. unfold rx_lit at 1. cbn [rx_match].
  rewrite N.eqb_refl. exact IH.
Qed.

Lemma rx_str_inv h u k r :
  rx_match (rx_str h) u k = Some r -> exists u', u = h ++ u' /\ k u' = Some r.
Proof.
  revert u. induction h as [|c h IH]; intros u H.
  - exists u. split; [reflexivity|exact H].
  - cbn [rx_str fold_right] in H. unfold rx_lit at 1 in H.
    cbn [rx_match] in H. destruct u as [|d u]; [discriminate|].
    destruct (N.eqb_spec c d) as [<-|]; [|discriminate].
    destruct (IH u H) as (u' & -> & Hk). exists u'. split; [reflexivity|exact Hk].
Qed.

Lemma rx_star_inv p s k x :
  rx_star p s k = Some x ->
  exists m s', s = m ++ s' /\ Forall (fun c => p c = true) m /\ k s' = Some x.
Proof.
  induction s as [|c s IH]; cbn [rx_star]; intros H.
  - exists [], []. split; [reflexivity|]. split; [constructor|exact H].
  - destruct (p c) eqn:Hc.
    + destruct (rx_star p s k) as [y|] eqn:Hs; cbn [or_else] in H.
      * injection H as ->. destruct (IH eq_refl) as (m & s' & -> & Hm & Hk).
        exists (c :: m), s'. split; [reflexivity|].
        split; [constructor; assumption|exact Hk].
      * exists [], (c :: s). split; [reflexivity|].
        split; [constructor|exact H].
    + exists [], (c :: s). split; [reflexivity|]. split; [constructor|exact H].
Qed.

(** A run of name characters is read to its end when what follows it can
    only begin with something else. *)
Lemma rx_star_stop p c t k : p c = false -> rx_star p (c :: t) k = k (c :: t).
Proof. intros H. cbn [rx_star]. rewrite H. reflexivity. Qed.

Lemma linuxUserRegex_inv u k r :
  rx_match linuxUserRegex u k = Some r ->
  exists name d u', user_name name /\ dollar_opt d /\
                    u = name ++ d ++ u' /\ k u' = Some r.
Proof.
  unfold linuxUserRegex, rx_plus, rx_opt, rx_lit. cbn [rx_match].
  destruct u as [|c u]; [discriminate|].
  destruct (linuxUserChar c) eqn:Hc; [|discriminate].
  intros H. apply rx_star_inv in H as (m & s' & -> & Hm & H).
  assert (Hname : user_name (c :: m)).
  { split; [discriminate|constructor; assumption]. }
  destruct s' as [|d s'].
  - cbn [or_else] in H. exists (c :: m), [], []. split; [exact Hname|].
    split; [left; reflexivity|]. split; [reflexivity|exact H].
  - destruct (N.eqb_spec 36 d) as [<-|].
    + destruct (k s') as [y|] eqn:Hk; cbn [or_else] in H.
      * injection H as ->. exists (c :: m), [36], s'.
        split; [exact Hname|]. split; [right; reflexivity|].
        split; [reflexivity|exact Hk].
      * exists (c :: m), [], (36 :: s'). split; [exact Hname|].
        split; [left; reflexivity|]. split; [reflexivity|exact H].
    + cbn [or_else] in H. exists (c :: m), [], (d :: s').
      split; [exact Hname|]. split; [left; reflexivity|].
      split; [reflexivity|exact H].
Qed.

Lemma sudo_en_body_inv u r :
  rx_match sudo_en_body u Some = Some r ->
  exists p b, sudo_prompt p /\ u = p ++ b /\ r = drop_newline b.
Proof.
  unfold sudo_en_body. cbn [rx_match]. intros H.
  apply rx_str_inv in H as (u1 & -> & H).
  apply linuxUserRegex_inv in H as (name & d & u2 & Hname & Hd & -> & H).
  unfold rx_lit at 1 in H. cbn [rx_match] in H.
  destruct u2 as [|c b]; [discriminate|].
  destruct (N.eqb_spec 58 c) as [<-|]; [|discriminate].
  change (or_else _ _) with (rx_match (RxAlt (rx_lit LF) RxEps) b Some) in H.
  rewrite rx_newline_opt in H. injection H as <-.
  exists (sudo_en_head ++ name ++ d ++ [58]), b.
  split; [constructor; assumption|]. split; [|reflexivity].
  rewrite <- !app_assoc. reflexivity.
Qed.

Lemma sudo_zh_body_inv u r :
  rx_match sudo_zh_body u Some = Some r ->
  exists p b, sudo_prompt p /\ u = p ++ b /\ r = drop_newline b.
Proof.
  unfold sudo_zh_body. cbn [rx_match]. intros H.
  apply rx_str_inv in H as (u1 & -> & H).
  apply linuxUserRegex_inv in H as (name & d & u2 & Hname & Hd & -> & H).
  apply rx_str_inv in H as (b & -> & H).
  change (rx_match (RxAlt (rx_lit LF) RxEps) b Some = Some r) in H.
  rewrite rx_newline_opt in H. injection H as <-.
  exists (sudo_zh_head ++ name ++ d ++ sudo_zh_tail), b.
  split; [constructor; assumption|]. split; [|reflexivity].
  rewrite <- !app_assoc. reflexivity.
Qed.

(** The prompt as the two alternatives read it. *)
Lemma linuxUserRegex_name name d t k r :
  user_name name -> dollar_opt d ->
  match t with c :: _ => linuxUserChar c = false /\ c <> 36 | [] => True end ->
  k t = Some r ->
  rx_match linuxUserRegex (name ++ d ++ t) k = Some r.
Proof.
  intros [Hne Hall] Hd Ht Hk.
  destruct name as [|c name]; [congruence|].
  inversion Hall as [|? ? Hc Hname]; subst.
  unfold linuxUserRegex, rx_plus, rx_opt, rx_lit. cbn [rx_match app].
  rewrite Hc. apply rx_star_keep; [exact Hname|].
  destruct Hd as [-> | ->]; cbn [app].
  - destruct t as [|c0 t]; [cbn; exact Hk|]. destruct Ht as [Hc0 Hne0].
    rewrite rx_star_stop by exact Hc0.
    destruct (N.eqb_spec 36 c0); [congruence|exact Hk].
  - rewrite rx_star_stop by reflexivity. cbn. rewrite Hk. reflexivity.
Qed.

Lemma sudo_en_body_prompt name d b :
  user_name name -> dollar_opt d ->
  rx_match sudo_en_body (sudo_en_head ++ name ++ d ++ [58] ++ b) Some
  = Some (drop_newline b).
Proof.
  intros Hname Hd. unfold sudo_en_body. cbn [rx_match].
  rewrite rx_str_app. apply linuxUserRegex_name; try assumption.
  - cbn. split; [reflexivity|discriminate].
  - unfold rx_lit at 1. cbn [rx_match app]. apply rx_newline_opt.
Qed.

Lemma sudo_zh_body_prompt name d b :
  user_name name -> dollar_opt d ->
  rx_match sudo_zh_body (sudo_zh_head ++ name ++ d ++ sudo_zh_tail ++ b) Some
  = Some (drop_newline b).
Proof.
  intros Hname Hd. unfold sudo_zh_body. cbn [rx_match].
  rewrite rx_str_app. apply linuxUserRegex_name; try assumption.
  - cbn. split; [reflexivity|discriminate].
  - rewrite rx_str_app. apply rx_newline_opt.
Qed.

(** A prompt begins with '[' and holds no other. *)
Lemma sudo_prompt_bracket p :
  sudo_prompt p -> exists t, p = 91 :: t /\ 91 ∉ t.
Proof.
  intros [name d [_ Hname] Hd|name d [_ Hname] Hd].
  - exists (str "sudo] password for " ++ name ++ d ++ [58]).
    split; [reflexivity|].
    pose proof (linuxUserChar_not_bracket name Hname) as Hn.
    rewrite !elem_of_app. intros [H|[H|[H|H]]].
    + vm_compute in H.
      repeat (apply elem_of_cons in H as [H|H]; [discriminate|]).
      apply elem_of_nil in H. exact H.
    + tauto.
    + destruct Hd as [-> | ->]; [apply elem_of_nil in H; exact H|].
      apply list_elem_of_singleton in H. discriminate.
    + apply list_elem_of_singleton in H. discriminate.
  - exists (str "sudo] " ++ name ++ d ++ sudo_zh_tail).
    split; [reflexivity|].
    pose proof (linuxUserChar_not_bracket name Hname) as Hn.
    rewrite !elem_of_app. intros [H|[H|[H|H]]].
    + vm_compute in H.
      repeat (apply elem_of_cons in H as [H|H]; [discriminate|]).
      apply elem_of_nil in H. exact H.
    + tauto.
    + destruct Hd as [-> | ->]; [apply elem_of_nil in H; exact H|].
      apply list_elem_of_singleton in H. discriminate.
    + vm_compute in H.
      repeat (apply elem_of_cons in H as [H|H]; [discriminate|]).
      apply elem_of_nil in H. exact H.
Qed.

Lemma user_run_unique n1 :
  forall n2 r1 r2,
    Forall (fun c => linuxUserChar c = true) n1 ->
    Forall (fun c => linuxUserChar c = true) n2 ->
    stops r1 -> stops r2 ->
    n1 ++ r1 = n2 ++ r2 -> n1 = n2 /\ r1 = r2.
Proof.
  induction n1 as [|c n1 IH]; intros [|c2 n2] r1 r2 H1 H2 S1 S2 E;
    cbn [app] in E.
  - split; [reflexivity|exact E].
  - subst r1. cbn in S1. inversion H2; subst. congruence.
  - subst r2. cbn in S2. inversion H1; subst. congruence.
  - injection E as <- E. inversion H1; subst. inversion H2; subst.
    destruct (IH n2 r1 r2) as [-> ->]; auto.
Qed.

Lemma stops_dollar d t :
  dollar_opt d -> stops t -> stops (d ++ t).
Proof. intros [-> | ->] Ht; [exact Ht|reflexivity]. Qed.

(** At one place in a text there is at most one prompt. *)
Lemma sudo_prompt_unique p p' b b' :
  sudo_prompt p -> sudo_prompt p' -> p ++ b = p' ++ b' -> p = p' /\ b = b'.
Proof.
  assert (Hen : sudo_en_head = sudo_zh_head ++ str "password for ")
    by reflexivity.
  assert (Hpw : Forall (fun c => linuxUserChar c = true) (str "password"))
    by (vm_compute; repeat constructor).
  intros [name d [_ Hname] Hd|name d [_ Hname] Hd]
         [name' d' [_ Hname'] Hd'|name' d' [_ Hname'] Hd'] E;
    rewrite <- ?app_assoc in E.
  - apply app_inv_head in E.
    apply user_run_unique in E as [<- E]; try assumption;
      try (apply stops_dollar; [assumption|reflexivity]).
    destruct Hd as [-> | ->], Hd' as [-> | ->]; cbn in E;
      try discriminate; injection E as <-; split; reflexivity.
  - exfalso. rewrite Hen, <- app_assoc in E. apply app_inv_head in E.
    change (str "password for ") with (str "password" ++ str " for ") in E.
    rewrite <- app_assoc in E.
    apply user_run_unique in E as [<- E]; try assumption;
      try reflexivity; try (apply stops_dollar; [assumption|reflexivity]).
    destruct Hd' as [-> | ->]; cbn in E; discriminate.
  - exfalso. rewrite Hen, <- app_assoc in E. apply app_inv_head in E.
    change (str "password for ") with (str "password" ++ str " for ") in E.
    rewrite <- app_assoc in E.
    apply user_run_unique in E as [-> E]; try assumption;
      try reflexivity; try (apply stops_dollar; [assumption|reflexivity]).
    destruct Hd as [-> | ->]; cbn in E; discriminate.
  - apply app_inv_head in E.
    apply user_run_unique in E as [<- E]; try assumption;
      try (apply stops_dollar; [assumption|reflexivity]).
    destruct Hd as [-> | ->], Hd' as [-> | ->]; cbn in E;
      try discriminate; injection E as <-; split; reflexivity.
Qed.

(** ** Where a match can begin *)

Lemma rx_find_Some_here r s before rest :
  rx_find r s = Some (before, rest) ->
  exists u, s = before ++ u /\ rx_here r u = Some rest.
Proof.
  revert before rest. induction s as [|c s IH]; intros before rest H;
    cbn [rx_find] in H.
  - destruct (rx_here r []) as [x|] eqn:Hh; [|discriminate].
    injection H as <- <-. exists []. split; [reflexivity|exact Hh].
  - destruct (rx_here r (c :: s)) as [x|] eqn:Hh.
    + injection H as <- <-. exists (c :: s). split; [reflexivity|exact Hh].
    + destruct (rx_find r s) as [[b' r']|] eqn:Hf; [|discriminate].
      injection H as <- <-. destruct (IH _ _ eq_refl) as (u & -> & Hu).
      exists u. split; [reflexivity|exact Hu].
Qed.

(** A match of the pattern ends in a prompt. *)
Lemma sudoPromptRegex_here_inv s rest :
  rx_here sudoPromptRegex s = Some rest ->
  exists a p b, s = a ++ p ++ b /\ sudo_prompt p /\ rest = drop_newline b.
Proof.
  unfold rx_here, sudoPromptRegex. cbn [rx_match]. intros H.
  destruct (rx_star rx_any s (fun s' => rx_match sudo_en_body s' Some))
    as [x|] eqn:Hen; cbn [or_else] in H.
  - injection H as ->.
    apply rx_star_inv in Hen as (a & u & -> & _ & Hu).
    apply sudo_en_body_inv in Hu as (p & b & Hp & -> & ->).
    exists a, p, b. repeat split; assumption.
  - apply rx_star_inv in H as (a & u & -> & _ & Hu).
    apply sudo_zh_body_inv in Hu as (p & b & Hp & -> & ->).
    exists a, p, b. repeat split; assumption.
Qed.

(** Where there is a prompt the pattern matches. *)
Lemma sudoPromptRegex_here_prompt a p b :
  sudo_prompt p -> rx_here sudoPromptRegex (a ++ p ++ b) <> None.
Proof.
  intros Hp. induction a as [|c a IH];
    [|apply sudoPromptRegex_here_cons, IH].
  cbn [app]. unfold rx_here, sudoPromptRegex. cbn [rx_match].
  assert (Hlast : forall k t r, k t = Some r ->
                    rx_star rx_any t k <> None).
  { intros k t r Hk. destruct t as [|c t]; cbn [rx_star]; [congruence|].
    unfold rx_any at 1. destruct (rx_star rx_any t k); cbn [or_else];
      congruence. }
  destruct Hp as [name d Hname Hd|name d Hname Hd].
  - pose proof (sudo_en_body_prompt name d b Hname Hd) as Hm.
    rewrite <- !app_assoc.
    destruct (rx_star rx_any _ (fun s' => rx_match sudo_en_body s' Some))
      eqn:Hs; cbn [or_else]; [discriminate|].
    exfalso. revert Hs. eapply Hlast. exact Hm.
  - pose proof (sudo_zh_body_prompt name d b Hname Hd) as Hm.
    rewrite <- !app_assoc.
    destruct (rx_star rx_any _ (fun s' => rx_match sudo_en_body s' Some));
      cbn [or_else]; [discriminate|].
    eapply Hlast. exact Hm.
Qed.

(** Whether a text is free of prompts can be computed. *)
Lemma prompt_free_iff s :
  prompt_free s <-> rx_find sudoPromptRegex s = None.
Proof.
  split.
  - intros Hfree.
    destruct (rx_find sudoPromptRegex s) as [[before rest]|] eqn:Hf;
      [|reflexivity].
    exfalso. apply rx_find_Some_here in Hf as (u & -> & Hu).
    apply sudoPromptRegex_here_inv in Hu as (a & p & b & -> & Hp & _).
    apply (Hfree (before ++ a) p b); [|exact Hp].
    rewrite <- app_assoc. reflexivity.
  - intros Hnone a p b -> Hp.
    pose proof (sudoPromptRegex_here_prompt a p b Hp) as Hhere.
    destruct (rx_here sudoPromptRegex (a ++ p ++ b)) as [x|] eqn:Hh;
      [|congruence].
    rewrite (rx_find_here _ _ _ Hh) in Hnone. discriminate.
Qed.

Lemma prompt_free_suffix s t :
  t `suffix_of` s -> prompt_free s -> prompt_free t.
Proof.
  intros [x ->] Hfree a p b -> Hp.
  apply (Hfree (x ++ a) p b); [|exact Hp].
  rewrite <- app_assoc. reflexivity.
Qed.

Lemma drop_newline_suffix s : drop_newline s `suffix_of` s.
Proof.
  destruct s as [|c s]; [reflexivity|]. cbn.
  destruct (c =? LF); [apply suffix_cons_r|]; reflexivity.
Qed.

Lemma trimSudoPrompt_prompt_free s :
  prompt_free s -> trimSudoPrompt s = s.
Proof.
  intros H. apply prompt_free_iff in H.
  unfold trimSudoPrompt, ReplaceAllEmpty. cbn [rx_delete_all].
  rewrite H. reflexivity.
Qed.

Lemma drop_newline_prompt p x :
  sudo_prompt p -> drop_newline (p ++ x) = p ++ x.
Proof.
  intros Hp. destruct (sudo_prompt_bracket p Hp) as (t & -> & _).
  reflexivity.
Qed.

(** No prompt begins inside another one. *)
Lemma sudo_prompt_no_overlap p c k k2 rest :
  sudo_prompt p -> p = (c :: k) ++ k2 -> head (k2 ++ rest) = Some 91 ->
  k2 = [].
Proof.
  intros Hp E Hh. destruct (sudo_prompt_bracket p Hp) as (t & -> & Hnot).
  destruct k2 as [|e k2]; [reflexivity|]. exfalso.
  cbn in Hh. injection Hh as ->. cbn in E. injection E as _ ->.
  apply Hnot. apply elem_of_app. right. left.
Qed.

(** The pattern from the start of a text that ends in a prompt and a
    prompt-free rest: the match ends at that prompt or before it. *)
Lemma sudoPromptRegex_here_last pre p post rest :
  sudo_prompt p -> prompt_free post ->
  rx_here sudoPromptRegex (pre ++ p ++ post) = Some rest ->
  rest = drop_newline post \/ exists pre', rest = pre' ++ p ++ post.
Proof.
  intros Hp Hfree Hhere.
  apply sudoPromptRegex_here_inv in Hhere as (a & p' & b & E & Hp' & ->).
  assert (Hsame : p' ++ b = p ++ post ->
                  drop_newline b = drop_newline post).
  { intros E'. destruct (sudo_prompt_unique _ _ _ _ Hp' Hp E') as [_ ->].
    reflexivity. }
  assert (Hhead : forall q x, sudo_prompt q -> head (q ++ x) = Some 91).
  { intros q x Hq. destruct (sudo_prompt_bracket q Hq) as (t & -> & _).
    reflexivity. }
  apply app_eq_inv in E as [(k & -> & E)|(k & -> & E)].
  - apply app_eq_inv in E as [(k2 & Ek & E)|(k2 & -> & ->)].
    + destruct k as [|c k].
      * cbn in Ek. subst k2. left. apply Hsame. symmetry. exact E.
      * assert (k2 = []) as ->.
        { apply (sudo_prompt_no_overlap p' c k k2 b Hp' Ek).
          rewrite <- E. apply Hhead, Hp. }
        cbn in E. subst b. right. exists [].
        exact (drop_newline_prompt p post Hp).
    + right. destruct k2 as [|c k2].
      * exists []. exact (drop_newline_prompt p post Hp).
      * cbn. destruct (c =? LF); [exists k2|exists (c :: k2)]; reflexivity.
  - apply app_eq_inv in E as [(k2 & Ek & E)|(k2 & -> & E)].
    + destruct k as [|c k].
      * cbn in Ek. subst k2. left. apply Hsame. exact E.
      * exfalso.
        assert (k2 = []) as ->.
        { apply (sudo_prompt_no_overlap p c k k2 post Hp Ek).
          rewrite <- E. apply Hhead, Hp'. }
        cbn in E. apply (Hfree [] p' b); [symmetry; exact E|exact Hp'].
    + exfalso. apply (Hfree k2 p' b); [exact E|exact Hp'].
Qed.

Lemma rx_delete_all_prompt_free n s :
  prompt_free s -> rx_delete_all n sudoPromptRegex s = s.
Proof.
  intros H. apply prompt_free_iff in H.
  destruct n; cbn [rx_delete_all]; [reflexivity|]. rewrite H. reflexivity.
Qed.

Lemma rx_delete_all_last_prompt p post :
  sudo_prompt p -> prompt_free post ->
  forall n pre,
    (length (pre ++ p ++ post) < n)%nat ->
    rx_delete_all n sudoPromptRegex (pre ++ p ++ post) = drop_newline post.
Proof.
  intros Hp Hfree. induction n as [|n IH]; intros pre Hlen; [lia|].
  cbn [rx_delete_all].
  pose proof (sudoPromptRegex_here_prompt pre p post Hp) as Hsome.
  destruct (rx_here sudoPromptRegex (pre ++ p ++ post)) as [rest|] eqn:Hhere;
    [|congruence].
  rewrite (rx_find_here _ _ _ Hhere). cbn [app].
  pose proof (rx_find_shorter sudoPromptRegex _ [] rest eq_refl
                (rx_find_here _ _ _ Hhere)) as Hshort.
  cbn [length] in Hshort.
  destruct (sudoPromptRegex_here_last pre p post rest Hp Hfree Hhere)
    as [->|[pre' ->]].
  - apply rx_delete_all_prompt_free.
    apply (prompt_free_suffix post); [apply drop_newline_suffix|exact Hfree].
  - apply IH. lia.
Qed.

(** Every text is free of prompts or has a last prompt. *)
Lemma last_prompt_exists :
  forall n s, (length s < n)%nat ->
    prompt_free s \/
    exists pre p post, s = pre ++ p ++ post /\ sudo_prompt p /\
                       prompt_free post.
Proof.
  induction n as [|n IH]; intros s Hlen; [lia|].
  destruct (rx_find sudoPromptRegex s) as [[before rest]|] eqn:Hf.
  - right. apply rx_find_Some_here in Hf as (u & -> & Hu).
    apply sudoPromptRegex_here_inv in Hu as (a & p & b & -> & Hp & _).
    destruct (sudo_prompt_bracket p Hp) as (t & Ep & _).
    destruct (IH b) as [Hb|(pre' & p' & post' & -> & Hp' & Hpost')].
    { rewrite !length_app in Hlen. subst p. cbn [length] in Hlen. lia. }
    + exists (before ++ a), p, b. rewrite <- app_assoc.
      repeat split; assumption.
    + exists (before ++ a ++ p ++ pre'), p', post'.
      rewrite <- !app_assoc. repeat split; assumption.
  - left. apply prompt_free_iff, Hf.
Qed.

(** C2 (as amended). What is stripped is the whole span the pattern
    matches, and the pattern begins with [(?s).*]: in an output that holds a
    sudo prompt ("[sudo] password for U:" or "[sudo] U 的密码：", U a user name
    with an optional '$'), everything from the start of the output up to
    and including the last prompt is removed, however many lines come
    before it, together with one newline directly after the prompt; the
    text after that is kept as it is, whatever it holds.  An output
    without a prompt is left unchanged.  Every output is of one of the two
    kinds, and what is logged is the stripped text without the white space
    at its ends. *)
Theorem C2_strips_up_to_prompt s :
  (prompt_free s -> trimSudoPrompt s = s) /\
  (forall pre p post,
      s = pre ++ p ++ post -> sudo_prompt p -> prompt_free post ->
      trimSudoPrompt s = drop_newline post) /\
  (prompt_free s \/
   exists pre p post, s = pre ++ p ++ post /\ sudo_prompt p /\
                      prompt_free post) /\
  (forall raw, crlf_to_lf raw = s ->
               handledOutput raw = TrimSpace (trimSudoPrompt s)).
Proof.
  split; [apply trimSudoPrompt_prompt_free|]. split; [|split].
  - intros pre p post -> Hp Hfree.
    apply rx_delete_all_last_prompt; [assumption|assumption|lia].
  - apply (last_prompt_exists (S (length s))). lia.
  - intros raw <-. reflexivity.
Qed.

(** Three lines before the prompt and two after it, the first on the line
    of the prompt; then the Chinese prompt with a '$' after the name. *)
Lemma C2_witness :
  trimSudoPrompt
    ((nl "alpha" ++ nl "beta" ++ nl "gamma")
     ++ (sudo_en_head ++ str "alice" ++ [] ++ [58])
     ++ (str " [1,2,3]" ++ [LF] ++ str "[INFO] started"))
  = drop_newline (str " [1,2,3]" ++ [LF] ++ str "[INFO] started")
  /\ trimSudoPrompt
       (nl "alpha"
        ++ (sudo_zh_head ++ str "bob" ++ [36] ++ sudo_zh_tail)
        ++ (nl "" ++ nl "[1/2] done" ++ str "root"))
     = drop_newline (nl "" ++ nl "[1/2] done" ++ str "root").
Proof.
  split.
  - refine (proj1 (proj2 (C2_strips_up_to_prompt _)) _ _ _ eq_refl _ _).
    + apply prompt_en; [split; [discriminate|repeat constructor]|].
      left. reflexivity.
    + apply prompt_free_iff. vm_compute. reflexivity.
  - refine (proj1 (proj2 (C2_strips_up_to_prompt _)) _ _ _ eq_refl _ _).
    + apply prompt_zh; [split; [discriminate|repeat constructor]|].
      right. reflexivity.
    + apply prompt_free_iff. vm_compute. reflexivity.
Defined.

(** C2, the claim as written, fails: three lines printed before the prompt
    are all missing from what is logged, not at most one. *)
Lemma C2_counterexample_three_lines_lost :
  handledOutput C2Sample.raw = str "root" /\
  lost_lines C2Sample.raw = [str "alpha"; str "beta"; str "gamma"] /\
  ~ (length (lost_lines C2Sample.raw) <= 1)%nat.
Proof.
  assert (H : lost_lines C2Sample.raw = [str "alpha"; str "beta"; str "gamma"])
    by (vm_compute; reflexivity).
  split; [vm_compute; reflexivity|]. split; [exact H|].
  rewrite H. simpl. lia.
Qed.

(** C4 at a concrete run: a timeout of one second, one host result and the
    summary to send. *)
Lemma C4_witness :
  exists s,
    Start.run (str "success") (str "20240101120000") 1
      (Start.timer_first
         [OnDetailOutput (detailOf (str "20240101120000")
                            (mkResult (str "h1") (str "success") (str "hi")));
          OnTaskOutput (mkTaskResult (str "20240101120000") 1 0)])
      (Start.init 1
         [OnDetailOutput (detailOf (str "20240101120000")
                            (mkResult (str "h1") (str "success") (str "hi")));
          OnTaskOutput (mkTaskResult (str "20240101120000") 1 0)])
    = Some s /\
    Start.LogTaskTimeout (str "20240101120000") 1 ∈ Start.log s /\
    Start.detailOpen s = false /\ Start.taskOpen s = false /\
    Start.panicked s <> None.
Proof.
  refine (C4_timeout_shutdown_panics (str "success") (str "20240101120000") 1
            _ _).
  reflexivity.
Defined.

(** ** BatchRun: the records and the summary it sends *)

Lemma setDefaultSSHAuthMethods_keeps env Config t w t' w' :
  setDefaultSSHAuthMethods env Config t w = Done t' w' ->
  err t' = err t /\ id t' = id t.
Proof.
  rewrite setDefaultSSHAuthMethods_unfold. cbv zeta.
  destruct (negb (is_empty (defaultPass t))); [intros [= <- _]; auto|].
  destruct (run_Sudo (cfg_Run Config)); [|intros [= <- _]; auto].
  unfold mbind, M_bind, mret, M_ret.
  destruct (getPasswordFromPrompt (defaultUser t) w); [|discriminate].
  intros [= <- _]; auto.
Qed.

(** C5. Whenever [BatchRun] returns: when it was asked to list the hosts,
    or leaves an error in [t.err] (an operand is missing, the hosts cannot
    be resolved), it has sent nothing; otherwise it has run the batch over
    the hosts [getAllHosts] resolved and has sent one detail record per
    result it received, in the order received and with the result's own
    status, and then exactly one summary.  The summary counts as successes
    the results whose status is the success identifier, as failures all
    others, and the two counts add up to the number of detail records sent
    (the ssh client reporting fewer than 2^63 results, so that the [int]
    counters do not wrap). *)
Theorem C5_summary_counts env Config t w t' sent w' :
  (forall hosts,
      (Z.of_nat (length (batchssh_BatchRun env hosts)) < 2 ^ 63)%Z) ->
  BatchRun env Config t w = Done (t', sent) w' ->
  (hosts_List (cfg_Hosts Config) = true \/ err t' <> None -> sent = []) /\
  (hosts_List (cfg_Hosts Config) = false -> err t' = None ->
   exists allHosts w0,
     getAllHosts env Config t' w0 = Done (allHosts, None) w' /\
     let results := batchssh_BatchRun env allHosts in
     let s := Z.of_nat (length (filter (succeeded env) results)) in
     let f :=
       Z.of_nat (length (filter (fun v => ~ succeeded env v) results)) in
     let summary :=
       {| r_taskID := id t; hostsSuccessCount := s;
          hostsFailureCount := f |} in
     sent = (OnDetailOutput <$> (detailOf (id t) <$> results))
            ++ [OnTaskOutput summary] /\
     details sent = detailOf (id t) <$> results /\
     summaries sent = [summary] /\
     (s + f)%Z = Z.of_nat (length (details sent))).
Proof.
  intros Hsmall Hrun. unfold BatchRun in Hrun.
  destruct (hosts_List (cfg_Hosts Config)) eqn:Hlist.
  - split; [|discriminate]. intros _.
    destruct (ListHosts env Config t) as [hs [e|]].
    + injection Hrun as _ <- _. reflexivity.
    + unfold mbind, M_bind in Hrun.
      match type of Hrun with
      | match ?m with _ => _ end = _ =>
          destruct m as [[] w1|e w1]; [|discriminate]
      end.
      cbn in Hrun. injection Hrun as _ <- _. reflexivity.
  - unfold mbind, M_bind in Hrun.
    destruct (BatchRun_check env t w) as [t1 w1|e w1] eqn:Hcheck;
      [|discriminate].
    destruct (err t1) as [e1|] eqn:Herr1.
    + injection Hrun as <- <- _. split; [reflexivity|]. congruence.
    + destruct (setDefaultSSHAuthMethods env Config t1 w1) as [t2 w2|e w2]
        eqn:Hset; [|discriminate].
      destruct (setDefaultSSHAuthMethods_keeps _ _ _ _ _ _ Hset)
        as [Herr2 Hid2].
      assert (Hid1 : id t1 = id t).
      { clear -Hcheck. unfold BatchRun_check in Hcheck.
        unfold mbind, M_bind, mret, M_ret, emit, CheckErr in Hcheck.
        repeat match type of Hcheck with
               | context [match ?x with _ => _ end] => destruct x
               | context [if ?x then _ else _] => destruct x
               end;
          try discriminate; injection Hcheck as <- _; reflexivity. }
      destruct (getAllHosts env Config t2 w2) as [[allHosts [e|]] w3|e w3]
        eqn:Hhosts; [| |discriminate].
      * injection Hrun as <- <- _. split; [reflexivity|]. discriminate.
      * injection Hrun as <- <- <-. split.
        { intros [Hl|He]; [discriminate|]. exfalso. apply He. congruence. }
        intros _ _. exists allHosts, w2. split; [exact Hhosts|].
        cbv zeta.
        assert (Hsent :
          BatchRun_collect env t2 (batchssh_BatchRun env allHosts)
          = (OnDetailOutput
               <$> (detailOf (id t) <$> batchssh_BatchRun env allHosts))
            ++ [OnTaskOutput
                  {| r_taskID := id t;
                     hostsSuccessCount :=
                       Z.of_nat (length (filter (succeeded env)
                                           (batchssh_BatchRun env allHosts)));
                     hostsFailureCount :=
                       Z.of_nat (length (filter (fun v => ~ succeeded env v)
                                           (batchssh_BatchRun env allHosts)))
                  |}]).
        { unfold BatchRun_collect.
          rewrite BatchRun_loop_spec by (specialize (Hsmall allHosts); lia).
          rewrite Hid2, Hid1. reflexivity. }
        rewrite Hsent.
        assert (Hdetails : forall ds r,
                  details ((OnDetailOutput <$> ds) ++ [OnTaskOutput r]) = ds).
        { intros ds r. unfold details. rewrite omap_app. cbn.
          rewrite app_nil_r.
          induction ds as [|d ds IH]; [reflexivity|].
          cbn. f_equal. exact IH. }
        assert (Hsummaries : forall ds r,
                  summaries ((OnDetailOutput <$> ds) ++ [OnTaskOutput r])
                  = [r]).
        { intros ds r. unfold summaries. rewrite omap_app. cbn.
          induction ds as [|d ds IH]; [reflexivity|]. exact IH. }
        split; [reflexivity|]. split; [apply Hdetails|].
        split; [apply Hsummaries|].
        rewrite Hdetails, length_fmap.
        pose proof (filter_split_length (succeeded env)
                      (batchssh_BatchRun env allHosts)). lia.
Qed.

(** Three hosts, two successes and one failure. *)
Lemma C5_witness :
  exists allHosts w0,
    getAllHosts C5Sample.env C5Sample.cfg C5Sample.t' w0
    = Done (allHosts, None) (Sample.typed []) /\
    C5Sample.sent
    = (OnDetailOutput
         <$> (detailOf (str "20240101120000")
                <$> batchssh_BatchRun C5Sample.env allHosts))
      ++ [OnTaskOutput
            (mkTaskResult (str "20240101120000")
               (Z.of_nat (length (filter (succeeded C5Sample.env)
                            (batchssh_BatchRun C5Sample.env allHosts))))
               (Z.of_nat (length (filter (fun v => ~ succeeded C5Sample.env v)
                            (batchssh_BatchRun C5Sample.env allHosts)))))] /\
    details C5Sample.sent
    = detailOf (str "20240101120000")
        <$> batchssh_BatchRun C5Sample.env allHosts /\
    summaries C5Sample.sent
    = [mkTaskResult (str "20240101120000")
         (Z.of_nat (length (filter (succeeded C5Sample.env)
                      (batchssh_BatchRun C5Sample.env allHosts))))
         (Z.of_nat (length (filter (fun v => ~ succeeded C5Sample.env v)
                      (batchssh_BatchRun C5Sample.env allHosts))))] /\
    (Z.of_nat (length (filter (succeeded C5Sample.env)
                 (batchssh_BatchRun C5Sample.env allHosts)))
     + Z.of_nat (length (filter (fun v => ~ succeeded C5Sample.env v)
                   (batchssh_BatchRun C5Sample.env allHosts))))%Z
    = Z.of_nat (length (details C5Sample.sent)).
Proof.
  refine (proj2 (C5_summary_counts C5Sample.env C5Sample.cfg C5Sample.t
                   (Sample.typed []) C5Sample.t' C5Sample.sent
                   (Sample.typed []) _ _) eq_refl eq_refl).
  - intros hosts. vm_compute. reflexivity.
  - vm_compute. reflexivity.
Defined.

(** * Further properties of the facade *)

(** ** HandleOutput: what is left after the stripping *)

(** X1. The stripping of the sudo prompt only ever removes a prefix of the
    output: what is left is a suffix of the input; no part of it matches the
    prompt pattern any more; and stripping it again changes nothing. *)
Theorem trimSudoPrompt_leaves_suffix_without_prompt s :
  trimSudoPrompt s `suffix_of` s /\
  rx_find sudoPromptRegex (trimSudoPrompt s) = None /\
  trimSudoPrompt (trimSudoPrompt s) = trimSudoPrompt s.
Proof.
  destruct (rx_delete_all_sudo_suffix (S (length s)) s ltac:(lia))
    as [Hsuf Hnone].
  split; [exact Hsuf|]. split; [exact Hnone|].
  unfold trimSudoPrompt at 1. unfold ReplaceAllEmpty. cbn [rx_delete_all].
  fold (trimSudoPrompt s). unfold trimSudoPrompt in Hnone |- *.
  unfold ReplaceAllEmpty in Hnone |- *. rewrite Hnone. reflexivity.
Qed.

Lemma TrimLeftSpace_head s c t :
  TrimLeftSpace s = c :: t -> IsSpace c = false.
Proof.
  induction s as [|d s IH]; cbn [TrimLeftSpace]; [discriminate|].
  destruct (IsSpace d) eqn:Hd; [exact IH|].
  intros [= <- _]. exact Hd.
Qed.

Lemma TrimLeftSpace_suffix s : TrimLeftSpace s `suffix_of` s.
Proof.
  induction s as [|d s IH]; cbn [TrimLeftSpace]; [reflexivity|].
  destruct (IsSpace d); [apply suffix_cons_r, IH|reflexivity].
Qed.

Lemma TrimSpace_trimmed s : trimmed (TrimSpace s).
Proof.
  unfold TrimSpace, TrimRightSpace. split.
  - intros c t H.
    assert (Hrev : TrimLeftSpace (rev (TrimLeftSpace s)) = rev t ++ [c]).
    { rewrite <- (rev_involutive (TrimLeftSpace (rev (TrimLeftSpace s)))).
      rewrite H. reflexivity. }
    destruct (TrimLeftSpace_suffix (rev (TrimLeftSpace s))) as [k Hk].
    rewrite Hrev in Hk.
    assert (Hy : TrimLeftSpace s = c :: t ++ rev k).
    { rewrite <- (rev_involutive (TrimLeftSpace s)), Hk.
      rewrite !rev_app_distr, rev_involutive. reflexivity. }
    apply (TrimLeftSpace_head _ _ _ Hy).
  - intros u c H.
    assert (Hrev : TrimLeftSpace (rev (TrimLeftSpace s)) = c :: rev u).
    { rewrite <- (rev_involutive (TrimLeftSpace (rev (TrimLeftSpace s)))).
      rewrite H, rev_app_distr. reflexivity. }
    apply (TrimLeftSpace_head _ _ _ Hrev).
Qed.

Lemma TrimSpace_of_trimmed s : trimmed s -> TrimSpace s = s.
Proof.
  intros [Hhead Hlast].
  assert (Hleft : forall x, (forall c t, x = c :: t -> IsSpace c = false) ->
                            TrimLeftSpace x = x).
  { intros [|c t] Hx; [reflexivity|]. cbn [TrimLeftSpace].
    rewrite (Hx c t eq_refl). reflexivity. }
  unfold TrimSpace, TrimRightSpace.
  rewrite (Hleft s Hhead). rewrite Hleft; [apply rev_involutive|].
  intros c t Hrev. apply (Hlast (rev t) c).
  rewrite <- (rev_involutive s), Hrev. reflexivity.
Qed.

(** X2. What [HandleOutput] logs as the output of a host never begins or
    ends with white space (Unicode white space included), and an output that
    is already free of carriage returns, of '[' and of white space at its
    ends is logged unchanged. *)
Theorem handledOutput_trimmed raw :
  trimmed (handledOutput raw) /\
  (CR ∉ raw -> 91 ∉ raw -> trimmed raw -> handledOutput raw = raw).
Proof.
  split; [apply TrimSpace_trimmed|].
  intros Hcr Hbr Htr. unfold handledOutput.
  assert (Hsame : crlf_to_lf raw = raw).
  { clear Hbr Htr. induction raw as [|c s IH]; [reflexivity|].
    cbn [crlf_to_lf].
    assert (Hc : (c =? CR) = false).
    { apply N.eqb_neq. intros ->. apply Hcr. left. }
    rewrite Hc. cbn [andb]. destruct s as [|d s']; [reflexivity|].
    rewrite IH; [reflexivity|]. intros Hin. apply Hcr. right. exact Hin. }
  rewrite Hsame, (trimSudoPrompt_no_bracket raw Hbr).
  apply TrimSpace_of_trimmed, Htr.
Qed.

(** A line of plain output. *)
Lemma handledOutput_trimmed_witness :
  handledOutput (str "uptime 3 days") = str "uptime 3 days".
Proof.
  refine (proj2 (handledOutput_trimmed (str "uptime 3 days")) _ _ _).
  - vm_compute. intros H.
    repeat (apply elem_of_cons in H as [H|H]; [discriminate|]).
    apply elem_of_nil in H. exact H.
  - vm_compute. intros H.
    repeat (apply elem_of_cons in H as [H|H]; [discriminate|]).
    apply elem_of_nil in H. exact H.
  - split.
    + intros c t [= <- _]. reflexivity.
    + intros u c H.
      assert (Hl : last (str "uptime 3 days") = last (u ++ [c]))
        by (rewrite H; reflexivity).
      rewrite last_snoc in Hl. vm_compute in Hl. injection Hl as <-.
      reflexivity.
Defined.

(** ** Deduplication: composition *)

Section DedupMore.

Context {A : Type} (key : A -> gostring).

Lemma dedup_by_NoDup l : NoDup (key <$> l) -> dedup_by key l = l.
Proof.
  induction l as [|x l IH] using rev_ind; [reflexivity|].
  rewrite fmap_app, NoDup_app. intros (Hnd & Hdisj & _).
  rewrite dedup_by_snoc, decide_False, IH; [reflexivity|exact Hnd|].
  intros Hin. apply (Hdisj _ Hin). left.
Qed.

Lemma dedup_by_idemp l : dedup_by key (dedup_by key l) = dedup_by key l.
Proof.
  apply dedup_by_NoDup, dedup_by_NoDup_keys.
Qed.

End DedupMore.

Lemma dedup_by_keys {A} (key : A -> gostring) (l : list A) :
  key <$> dedup_by key l = dedup_by (fun v : gostring => v) (key <$> l).
Proof.
  induction l as [|x l IH] using rev_ind; [reflexivity|].
  rewrite fmap_app. cbn [fmap list_fmap].
  rewrite (dedup_by_snoc key l x).
  rewrite (dedup_by_snoc (fun v : gostring => v) (key <$> l) (key x)).
  rewrite (list_fmap_id (key <$> l)).
  destruct (decide (key x ∈ key <$> l)); [exact IH|].
  rewrite fmap_app, IH. reflexivity.
Qed.


(** X3. Deduplication leaves a list without repeated aliases as it is, is
    idempotent, and commutes with taking the aliases: the aliases of the
    deduplicated hosts are the deduplicated aliases. *)
Theorem deDuplSSHHosts_compose (hosts : list Host) :
  (NoDup (Alias <$> hosts) -> deDuplSSHHosts hosts = hosts) /\
  deDuplSSHHosts (deDuplSSHHosts hosts) = deDuplSSHHosts hosts /\
  Alias <$> deDuplSSHHosts hosts = deDuplicate (Alias <$> hosts).
Proof.
  split; [|split].
  - apply (dedup_by_NoDup Alias).
  - apply (dedup_by_idemp Alias).
  - apply (dedup_by_keys Alias).
Qed.

Lemma deDuplSSHHosts_compose_witness :
  deDuplSSHHosts [Sample.resolved_sample (str "a"); Sample.resolved_sample (str "b")]
  = [Sample.resolved_sample (str "a"); Sample.resolved_sample (str "b")].
Proof.
  refine (proj1 (deDuplSSHHosts_compose _) _).
  vm_compute. repeat constructor; rewrite ?elem_of_cons, ?elem_of_nil.
  - intros [H|[]]. discriminate.
  - intros [].
Defined.

(** ** Hosts named on the command line *)

Section ArgHosts.

Variable env : Env.
Variable Config : ConfigFlags.

Lemma getAllHosts_args_names t args :
  forall acc,
    snd (getAllHosts_args env Config t args acc)
    = snd (ListHosts_args env args (Alias <$> acc)) /\
    Alias <$> fst (getAllHosts_args env Config t args acc)
    = fst (ListHosts_args env args (Alias <$> acc)) /\
    (Forall (fun h => HostAddr h = Alias h) acc ->
     Forall (fun h => HostAddr h = Alias h)
            (fst (getAllHosts_args env Config t args acc))).
Proof.
  induction args as [|a args IH]; intros acc;
    cbn [getAllHosts_args ListHosts_args].
  - repeat split. intros H. exact H.
  - destruct (is_empty (TrimSpace a)); [apply IH|].
    destruct (expandhost_PatternToHosts env (TrimSpace a)) as [hostList [e|]].
    + repeat split. intros _. constructor.
    + match goal with
      | |- context [getAllHosts_args env Config t args ?acc'] =>
          destruct (IH acc') as (He & Hn & Ha)
      end.
      assert (Hal : forall (f : gostring -> Host) (l : list gostring),
                 (forall v, Alias (f v) = v) -> Alias <$> map f l = l).
      { clear. intros f l Hf. induction l as [|v vs IHv]; [reflexivity|].
        cbn [map fmap list_fmap]. rewrite Hf. f_equal. exact IHv. }
      rewrite fmap_app, Hal in He, Hn by reflexivity.
      split; [exact He|]. split; [exact Hn|].
      intros Hacc. apply Ha, Forall_app. split; [exact Hacc|].
      apply Forall_fmap, Forall_forall. intros v _. reflexivity.
Qed.

Lemma getAllHosts_args_blank t args :
  Forall (fun a => TrimSpace a = []) args ->
  forall acc, getAllHosts_args env Config t args acc = (acc, None).
Proof.
  induction 1 as [|a args Ha _ IH]; intros acc; cbn [getAllHosts_args];
    [reflexivity|].
  rewrite Ha. cbn [is_empty]. apply IH.
Qed.

End ArgHosts.

(** X4. Without an inventory and with arguments, [getAllHosts] and
    [ListHosts] agree: they fail on the same arguments with the same error,
    and otherwise the aliases of the hosts that would be run are exactly the
    names that [--hosts.list] prints, in the same order; every such host is
    addressed by its alias; neither touches the terminal. *)
Theorem getAllHosts_agrees_with_ListHosts env Config t w :
  hosts_Inventory (cfg_Hosts Config) = [] ->
  argHosts t <> [] ->
  exists hosts,
    getAllHosts env Config t w
    = Done (hosts, snd (ListHosts env Config t)) w /\
    Alias <$> hosts = fst (ListHosts env Config t) /\
    Forall (fun h => HostAddr h = Alias h) hosts.
Proof.
  intros Hinv Hargs. unfold getAllHosts, ListHosts. rewrite Hinv.
  cbn [is_empty]. rewrite length_eqb_0.
  destruct (argHosts t) as [|a args] eqn:Ea; [congruence|]. cbn [negb].
  destruct (getAllHosts_args_names env Config t (a :: args) [])
    as (He & Hn & Ha).
  cbn [fmap list_fmap] in He, Hn.
  destruct (getAllHosts_args env Config t (a :: args) []) as [hs e].
  destruct (ListHosts_args env (a :: args) []) as [ns e'].
  cbn [fst snd] in *. subst e'.
  destruct e as [e|].
  - exists []. repeat split. constructor.
  - exists (deDuplSSHHosts hs). split; [reflexivity|]. cbn [fst snd]. split.
    + rewrite <- Hn. apply (dedup_by_keys Alias).
    + apply deDuplSSHHosts_Forall, Ha. constructor.
Qed.

(** X5. The edges of [getAllHosts] without an inventory: with no argument
    at all it reports that target hosts are needed, whereas [ListHosts]
    returns the empty list without error; with arguments that are all blank
    it returns no host and no error. *)
Theorem getAllHosts_no_hosts env Config t w :
  hosts_Inventory (cfg_Hosts Config) = [] ->
  (argHosts t = [] ->
     getAllHosts env Config t w = Done ([], Some helpErr) w /\
     ListHosts env Config t = ([], None)) /\
  (argHosts t <> [] -> Forall (fun a => TrimSpace a = []) (argHosts t) ->
     getAllHosts env Config t w = Done ([], None) w).
Proof.
  intros Hinv. unfold getAllHosts, ListHosts. rewrite Hinv. cbn [is_empty].
  split.
  - intros ->. split; reflexivity.
  - intros Hne Hblank. rewrite length_eqb_0.
    destruct (argHosts t) as [|a args] eqn:Ea; [congruence|]. cbn [negb].
    rewrite (getAllHosts_args_blank env Config t _ Hblank). reflexivity.
Qed.

(** ** BatchRun: what happens before any host is contacted *)

Section BatchRunEarly.

Variable env : Env.
Variable Config : ConfigFlags.

Lemma BatchRun_check_missing t w e :
  missing_operand t = Some e ->
  BatchRun_check env t w = Done (set_err t (Some e)) w.
Proof.
  unfold missing_operand, BatchRun_check. rewrite !length_eqb_0.
  destruct (taskType t).
  - destruct (command t); [|discriminate]. intros [= <-]. reflexivity.
  - destruct (scriptFile t); [|discriminate]. intros [= <-]. reflexivity.
  - destruct (pushFiles t) as [[[|f fs] zs]|]; try discriminate;
      intros [= <-]; reflexivity.
  - destruct (fetchFiles t) as [|f fs]; [intros [= <-]; reflexivity|].
    destruct (dstDir t); [|discriminate]. intros [= <-]. reflexivity.
Qed.

Lemma print_all names k w :
  (fold_right (fun v (k : M unit) => emit (EvPrint (v ++ [LF]));; k)
              k names) w
  = k (after w ((fun v => EvPrint (v ++ [LF])) <$> names)).
Proof.
  revert w. induction names as [|v names IH]; intros w.
  - cbn. unfold after. rewrite app_nil_r. destruct w; reflexivity.
  - cbn [fold_right fmap list_fmap].
    unfold mbind at 1, M_bind at 1, emit at 1.
    rewrite IH. unfold after. cbn [tty trace].
    rewrite <- app_assoc. reflexivity.
Qed.

End BatchRunEarly.

(** X6. A task without the operand its type needs (no command, no script,
    no files to push, no files or no destination to fetch) is refused by
    [BatchRun] before anything else happens: the error is kept in the task,
    nothing is sent on the channels, the user is not prompted and the
    inventory is not resolved. *)
Theorem BatchRun_refuses_missing_operand env Config t w e :
  hosts_List (cfg_Hosts Config) = false ->
  missing_operand t = Some e ->
  BatchRun env Config t w = Done (set_err t (Some e), []) w.
Proof.
  intros Hlist Hmiss. unfold BatchRun. rewrite Hlist.
  rewrite (bind_Done _ _ _ _ _ (BatchRun_check_missing env t w e Hmiss)).
  reflexivity.
Qed.

(** X7. With [--hosts.list] the hosts are only listed: [BatchRun] prints
    each name on a line of its own and then their number, sends nothing on
    the channels, runs nothing, asks nothing, and leaves the task as it is,
    even when the task has no operand; when the names cannot be resolved
    the error is kept in the task and nothing is printed. *)
Theorem BatchRun_lists_hosts env Config t w :
  hosts_List (cfg_Hosts Config) = true ->
  BatchRun env Config t w
  = match ListHosts env Config t with
    | (_, Some e) => Done (set_err t (Some e), []) w
    | (names, None) => Done (t, []) (after w (listed names))
    end.
Proof.
  intros Hlist. unfold BatchRun. rewrite Hlist.
  destruct (ListHosts env Config t) as [names [e|]]; [reflexivity|].
  unfold mbind at 1, M_bind at 1.
  rewrite (print_all names (mret tt) w).
  unfold listed, after. cbn.
  unfold mbind, M_bind, emit, mret, M_ret. cbn [tty trace].
  rewrite <- app_assoc. reflexivity.
Qed.

(** ** Identity files *)

Lemma replace_first_head c new s :
  replace_first c new (c :: s) = new ++ s.
Proof. cbn [replace_first]. rewrite N.eqb_refl. reflexivity. Qed.

(** X8. Only a leading "~/" of an identity file is expanded, to the value
    of HOME followed by the path from the slash on (so to "/..." when HOME
    is not set); every other path, "~" and "~user/..." included, is kept as
    written, and the files keep their order. *)
Theorem parseItentityFiles_expands_home env files :
  parseItentityFiles env files
  = expand_home (os_Getenv env "HOME") <$> files.
Proof.
  unfold parseItentityFiles.
  induction files as [|file files IH]; [reflexivity|].
  cbn [map fmap list_fmap]. f_equal; [|exact IH].
  unfold expand_home.
  destruct (HasPrefix file (str "~/")) eqn:Hp; [|reflexivity].
  destruct file as [|c file]; [discriminate|].
  change (str "~/") with [126; 47] in Hp. cbn [HasPrefix] in Hp.
  apply andb_prop in Hp as [Hc _]. apply N.eqb_eq in Hc. subst c.
  apply replace_first_head.
Qed.

Section Signers.

Variable env : Env.

Lemma getSigners_loop keyfiles passphrase :
  forall acc,
    fold_left (fun signers f =>
                 match getSigner env f passphrase with
                 | Some signer => signers ++ [signer]
                 | None => signers
                 end) keyfiles acc
    = acc ++ omap (fun f => getSigner env f passphrase) keyfiles.
Proof.
  induction keyfiles as [|f fs IH]; intros acc; cbn [fold_left omap list_omap].
  - rewrite app_nil_r. reflexivity.
  - rewrite IH. destruct (getSigner env f passphrase) as [k|];
      [rewrite <- app_assoc|]; reflexivity.
Qed.

End Signers.

(** X9. [getSigners] never fails and returns, in the order of the files,
    the signer of every identity file that has one: a file that is read and
    parsed yields the key parsed from it; a file that is read and found
    encrypted yields what parsing it with the passphrase gives (nothing, if
    that fails); a file that cannot be read or that is no key yields
    nothing.  So when every file is read and parsed there is one signer per
    file, a signer returned always comes from one of the files, and the
    signers of two lists of files are those of the first followed by those
    of the second. *)
Theorem getSigners_skips_bad_files env passphrase :
  (forall keyfiles,
      getSigners env keyfiles passphrase
      = omap (fun f => getSigner env f passphrase) keyfiles) /\
  (forall f buf e, ioutil_ReadFile env f = (buf, Some e) ->
               getSigner env f passphrase = None) /\
  (forall f buf k, ioutil_ReadFile env f = (buf, None) ->
               ssh_ParsePrivateKey env buf = KeyParsed k ->
               getSigner env f passphrase = Some k) /\
  (forall f buf, ioutil_ReadFile env f = (buf, None) ->
               ssh_ParsePrivateKey env buf = KeyPassphraseMissing ->
               getSigner env f passphrase
               = sshkeys_ParseEncryptedPrivateKey env buf passphrase) /\
  (forall f buf, ioutil_ReadFile env f = (buf, None) ->
               ssh_ParsePrivateKey env buf = KeyParseError ->
               getSigner env f passphrase = None) /\
  (forall keyfiles keys,
      Forall2 (fun f k =>
                 snd (ioutil_ReadFile env f) = None /\
                 ssh_ParsePrivateKey env (fst (ioutil_ReadFile env f))
                 = KeyParsed k) keyfiles keys ->
      getSigners env keyfiles passphrase = keys) /\
  (forall keyfiles k,
      k ∈ getSigners env keyfiles passphrase <->
      exists f, f ∈ keyfiles /\ getSigner env f passphrase = Some k) /\
  (forall files1 files2,
      getSigners env (files1 ++ files2) passphrase
      = getSigners env files1 passphrase ++ getSigners env files2 passphrase) /\
  (forall keyfiles,
      (length (getSigners env keyfiles passphrase) <= length keyfiles)%nat).
Proof.
  assert (H : forall keyfiles,
             getSigners env keyfiles passphrase
             = omap (fun f => getSigner env f passphrase) keyfiles).
  { intros keyfiles. unfold getSigners. rewrite getSigners_loop. reflexivity. }
  split; [exact H|].
  split; [intros f buf e Hr; unfold getSigner; rewrite Hr; reflexivity|].
  split; [intros f buf k Hr Hp; unfold getSigner; rewrite Hr, Hp;
          reflexivity|].
  split; [intros f buf Hr Hp; unfold getSigner; rewrite Hr, Hp;
          reflexivity|].
  split; [intros f buf Hr Hp; unfold getSigner; rewrite Hr, Hp;
          reflexivity|].
  split; [|split; [|split]].
  - intros keyfiles keys Hall. rewrite H.
    induction Hall as [|f k fs ks [Hr Hp] _ IH]; [reflexivity|].
    cbn [omap list_omap]. unfold getSigner at 1.
    destruct (ioutil_ReadFile env f) as [buf e]. cbn [fst snd] in Hr, Hp.
    subst e. rewrite Hp. cbn. f_equal. exact IH.
  - intros keyfiles k. rewrite H, list_elem_of_omap. reflexivity.
  - intros files1 files2. rewrite !H. apply omap_app.
  - intros keyfiles. rewrite H.
    induction keyfiles as [|f fs IH]; [reflexivity|].
    cbn [omap list_omap length].
    destruct (getSigner env f passphrase); cbn [length]; lia.
Qed.

(** ** The jump host and the hosts of the inventory *)

(** X10. The authentication methods for the jump host always end with a
    password method, so the list is never empty: the proxy's own password
    when it has one, else the task's default password, even when that is
    empty too; before it comes the one public-key method, when the agent or
    the proxy's identity files yield any signer. *)
Theorem getProxySSHAuthMethods_ends_with_password env Proxy t :
  getProxySSHAuthMethods env Proxy t
  = publicKeyMethod (proxySigners env Proxy t)
    ++ [Password (if is_empty (proxy_Password Proxy) then defaultPass t
                  else proxy_Password Proxy)].
Proof.
  unfold getProxySSHAuthMethods, proxySigners.
  set (agent := match sshAgent t with
                | Some conn => fst (agent_Signers env conn)
                | None => []
                end).
  set (files := getSigners env
                  (parseItentityFiles env (proxy_IdentityFiles Proxy))
                  (proxy_Passphrase Proxy)).
  assert (Hsigners :
    (if negb (length (parseItentityFiles env (proxy_IdentityFiles Proxy))
              =? 0)%nat
     then if negb (length files =? 0)%nat then agent ++ files else agent
     else agent) = agent ++ files).
  { subst files. rewrite !length_eqb_0.
    destruct (parseItentityFiles env (proxy_IdentityFiles Proxy)) as [|f fs];
      cbn [negb].
    - cbn. rewrite app_nil_r. reflexivity.
    - destruct (getSigners env (f :: fs) _); cbn [negb];
        [rewrite app_nil_r|]; reflexivity. }
  rewrite Hsigners, length_eqb_0. unfold publicKeyMethod.
  destruct (agent ++ files); destruct (proxy_Password Proxy); reflexivity.
Qed.

Section PlainHosts.

Variable env : Env.
Variable Config : ConfigFlags.

Lemma getAllHosts_host_plain t v w :
  aes_IsAES256CipherText env (inv_Passphrase v) = false ->
  aes_IsAES256CipherText env (inv_Password v) = false ->
  aes_IsAES256CipherText env (defaultPass t) = false ->
  getAllHosts_host env Config t v w
  = Done (resolved_plain env Config t v) w.
Proof.
  intros Hphrase Hpw Hdef.
  unfold getAllHosts_host, resolved_plain, assignRealPass.
  rewrite Hphrase, !length_eqb_0.
  destruct (inv_Keys v) as [|k ks] eqn:Hkeys; cbn [negb];
    destruct (inv_Password v) as [|c p] eqn:Hown; cbn [is_empty];
    rewrite ?Hdef, ?Hpw;
    unfold mbind, M_bind, mret, M_ret; rewrite ?length_eqb_0;
    unfold publicKeyMethod; cbn [app];
    try reflexivity;
    destruct (getSigners env (parseItentityFiles env (k :: ks))
                (inv_Passphrase v)); reflexivity.
Qed.

Lemma getAllHosts_inventory_plain t vs :
  Forall (fun v => aes_IsAES256CipherText env (inv_Passphrase v) = false /\
                   aes_IsAES256CipherText env (inv_Password v) = false) vs ->
  aes_IsAES256CipherText env (defaultPass t) = false ->
  forall hosts w,
    getAllHosts_inventory env Config t vs hosts w
    = Done (hosts ++ (resolved_plain env Config t <$> vs)) w.
Proof.
  intros Hall Hdef. induction Hall as [|v vs [Hphrase Hpw] _ IH];
    intros hosts w.
  - cbn. rewrite app_nil_r. reflexivity.
  - rewrite (getAllHosts_inventory_next env Config t v vs hosts w _ w
               (getAllHosts_host_plain t v w Hphrase Hpw Hdef)).
    rewrite IH. cbn [fmap list_fmap]. rewrite <- app_assoc. reflexivity.
Qed.

End PlainHosts.

(** X11. When no secret is a vault ciphertext, resolving the inventory hosts
    touches neither the terminal nor any file, and builds one host per
    inventory host, in order: port 0 and an empty user are replaced by the
    defaults; a host without a password takes the default password; and its
    authentication methods are its own public keys (when its identity files
    yield a signer), then its own password (when it has one), then the
    default methods. *)
Theorem getAllHosts_inventory_resolves_plain env Config t vs hosts w :
  Forall (fun v => aes_IsAES256CipherText env (inv_Passphrase v) = false /\
                   aes_IsAES256CipherText env (inv_Password v) = false) vs ->
  aes_IsAES256CipherText env (defaultPass t) = false ->
  getAllHosts_inventory env Config t vs hosts w
  = Done (hosts ++ (resolved_plain env Config t <$> vs)) w.
Proof.
  intros Hall Hdef. apply getAllHosts_inventory_plain; assumption.
Qed.

(** ** package vault: a new vault password is typed twice *)

Lemma confirm_loop_unfold prompt warnStr w :
  (let '(r, w') := confirm_loop prompt warnStr (tty w) (trace w) in Done r w')
  = confirm_round prompt warnStr
      (fun w => let '(r, w') := confirm_loop prompt warnStr (tty w) (trace w)
                in Done r w') w.
Proof.
  destruct w as [inputs tr]. unfold confirm_round.
  destruct inputs as [|a rest]; [reflexivity|].
  destruct a as [|c a]; reflexivity.
Qed.

Lemma confirm_loop_retries prompt warnStr n a rest tr :
  a <> [] ->
  confirm_loop prompt warnStr (replicate n [] ++ a :: rest) tr
  = ((a, None), mkWorld rest (tr ++ asked prompt warnStr n)).
Proof.
  intros Ha. unfold asked. revert tr. induction n as [|n IH]; intros tr.
  - destruct a; [congruence|]. cbn. rewrite <- app_assoc. reflexivity.
  - cbn [replicate app confirm_loop is_empty negb]. rewrite IH.
    cbn [replicate concat]. rewrite <- !app_assoc. reflexivity.
Qed.

(** X12. A new vault password taken from the terminal is accepted only when
    it is typed twice identically: empty lines are asked again at either
    prompt, any number of times; when the two non-empty inputs differ the
    process ends with "two inputs do not match" instead of asking again; in
    both cases exactly the lines up to the second non-empty one are read. *)
Theorem getVaultConfirmPassword_typed_twice env Config Yellow w n a m b rest :
  auth_VaultPassFile (cfg_Auth Config) = [] ->
  tty w = replicate n [] ++ a :: replicate m [] ++ b :: rest ->
  a <> [] -> b <> [] ->
  let warnStr := Yellow (str "input can not be null, retry") in
  let w' :=
    mkWorld rest
      (trace w ++ asked new_vault_prompt warnStr n
       ++ asked (str "Confirm new vault password: ") warnStr m) in
  getVaultConfirmPassword env Config Yellow w
  = if decide (a = b) then Done a w'
    else Exited (confirm_failed two_inputs_differ) w'.
Proof.
  intros Hfile Htty Ha Hb warnStr w'.
  unfold getVaultConfirmPassword, getVaultPasswordFromFile.
  rewrite Hfile. cbn [is_empty negb].
  unfold mbind at 1, M_bind at 1, mret at 1, M_ret at 1. cbn [is_empty negb].
  unfold mbind at 1, M_bind at 1, getConfirmPasswordFromPrompt.
  rewrite Htty. fold warnStr.
  rewrite (confirm_loop_retries new_vault_prompt warnStr n a _ _ Ha).
  cbn [tty trace].
  change (str "Confirm " ++ ToLower new_vault_prompt)
    with (str "Confirm new vault password: ").
  rewrite (confirm_loop_retries _ warnStr m b rest _ Hb).
  unfold str_eqb. subst w'. rewrite <- !app_assoc.
  destruct (decide (a = b)) as [Heq|Hne].
  - rewrite bool_decide_eq_true_2 by exact Heq. reflexivity.
  - rewrite bool_decide_eq_false_2 by exact Hne. reflexivity.
Qed.

(** ** package vault: encrypted files *)

(** X13. [decryptFile] returns content only for a file that can be read,
    is a vault ciphertext and is opened by the vault password, and then it
    returns what the codec decoded; in every other case it returns the empty
    string together with an error, never a part of the file. *)
Theorem decryptFile_content_or_error env file vaultPass w :
  exists content err,
    decryptFile env file vaultPass w
    = Done (content, err) (after w [EvReadFile file]) /\
    (err = None <->
       snd (ioutil_ReadFile env file) = None /\
       aes_IsAES256CipherText env (fst (ioutil_ReadFile env file)) = true /\
       snd (aes_AES256Decode env (fst (ioutil_ReadFile env file)) vaultPass)
       = None) /\
    (err = None ->
       content
       = fst (aes_AES256Decode env (fst (ioutil_ReadFile env file)) vaultPass))
    /\ (err <> None -> content = []).
Proof.
  unfold decryptFile, mbind, M_bind, emit, mret, M_ret, after.
  destruct (ioutil_ReadFile env file) as [p [e|]]; cbn [fst snd];
    [|destruct (aes_IsAES256CipherText env p); cbn [negb];
      [destruct (aes_AES256Decode env p vaultPass) as [d [e|]];
       cbn [fst snd]|]];
    eexists _, _; (split; [reflexivity|]);
    intuition (try discriminate; try congruence).
Qed.

(** X14. [vault view] asks for the vault password before it looks at the
    file; when the password cannot be obtained the file is not read; the
    pager is started only on the decoded content of a readable vault file
    that the password opens, and in every other case the process ends with
    the error, whatever the pager is. *)
Theorem viewRun_pages_only_decrypted env Config Less file w :
  (forall e w1, GetVaultPassword env Config w = Exited e w1 ->
                viewRun env Config Less file w = Exited e w1) /\
  (forall vaultPass w1,
      GetVaultPassword env Config w = Done vaultPass w1 ->
      let w2 := after w1 [EvReadFile file] in
      let p := fst (ioutil_ReadFile env file) in
      let readable_vault :=
        snd (ioutil_ReadFile env file) = None /\
        aes_IsAES256CipherText env p = true /\
        snd (aes_AES256Decode env p vaultPass) = None in
      (readable_vault ->
         viewRun env Config Less file w
         = (Less (fst (aes_AES256Decode env p vaultPass)) ≫= CheckErr) w2) /\
      (~ readable_vault ->
         exists e, viewRun env Config Less file w = Exited e w2)).
Proof.
  split.
  - intros e w1 Hv. unfold viewRun. apply bind_Exited, Hv.
  - intros vaultPass w1 Hv w2 p readable_vault.
    destruct (decryptFile_content_or_error env file vaultPass w1)
      as (content & err & Hrun & Hiff & Hok & _).
    assert (Hview : viewRun env Config Less file w
                    = match err with
                      | Some e => Exited e w2
                      | None => (Less content ≫= CheckErr) w2
                      end).
    { unfold viewRun. rewrite (bind_Done _ _ _ _ _ Hv).
      rewrite (bind_Done _ _ _ _ _ Hrun). destruct err; reflexivity. }
    split.
    + intros Hr. apply Hiff in Hr. subst err. rewrite Hview, (Hok eq_refl).
      reflexivity.
    + intros Hn. destruct err as [e|]; [exists e; exact Hview|].
      exfalso. apply Hn, Hiff. reflexivity.
Qed.

(** ** package vault: the password is never empty *)

Lemma GetVaultPassword_loop_nonempty inputs :
  forall tr p w', GetVaultPassword_loop inputs tr = Done p w' -> p <> [].
Proof.
  induction inputs as [|a rest IH]; intros tr p w';
    cbn [GetVaultPassword_loop]; [discriminate|].
  destruct a as [|c a]; cbn [is_empty negb].
  - apply IH.
  - intros [= <- _]. discriminate.
Qed.

Lemma getVaultPasswordFromFile_world env Config w :
  tty (outcome_world (getVaultPasswordFromFile env Config w)) = tty w /\
  (auth_VaultPassFile (cfg_Auth Config) <> [] ->
   forall p w', getVaultPasswordFromFile env Config w = Done p w' -> p <> []).
Proof.
  unfold getVaultPasswordFromFile, isExectuable.
  destruct (auth_VaultPassFile (cfg_Auth Config)) as [|c f];
    cbn [is_empty negb]; [split; [reflexivity|congruence]|].
  unfold mbind, M_bind, mret, M_ret, emit, CheckErr. cbn [tty trace].
  destruct (os_Stat env (c :: f)) as [mode|];
    [|split; [reflexivity|discriminate]].
  destruct (negb (N.land (N.land mode 511) 73 =? 0)).
  - destruct (exec_Output env (str "./" ++ c :: f)) as [out [e|]];
      [split; [reflexivity|discriminate]|].
    destruct (TrimSpace out) as [|d o]; cbn [is_empty];
      (split; [reflexivity|]); intros _ p w' H; [discriminate|].
    injection H as <- _. discriminate.
  - destruct (ioutil_ReadFile env (c :: f)) as [content [e|]];
      [split; [reflexivity|discriminate]|].
    destruct (TrimSpace content) as [|d o] eqn:Et; cbn [is_empty];
      [split; [reflexivity|discriminate]|].
    destruct (HasPrefix (d :: o) (str "#!/"));
      (split; [reflexivity|]); intros _ p w' H; [discriminate|].
    injection H as <- _. discriminate.
Qed.

(** X15. [GetVaultPassword] never returns an empty password; and when a
    vault password file is configured it never reads the terminal, whether
    it returns or ends the process: a file that is unusable is not made up
    for by a prompt. *)
Theorem GetVaultPassword_never_empty env Config w :
  (forall p w', GetVaultPassword env Config w = Done p w' -> p <> []) /\
  (auth_VaultPassFile (cfg_Auth Config) <> [] ->
   tty (outcome_world (GetVaultPassword env Config w)) = tty w).
Proof.
  destruct (getVaultPasswordFromFile_world env Config w) as [Htty Hfile].
  unfold GetVaultPassword, mbind, M_bind.
  destruct (getVaultPasswordFromFile env Config w) as [p0 w0|e w0] eqn:Hf;
    cbn [outcome_world] in *.
  - split.
    + intros p w'. destruct p0 as [|c p0]; cbn [is_empty negb].
      * apply GetVaultPassword_loop_nonempty.
      * intros [= <- _]. discriminate.
    + intros Hne. specialize (Hfile Hne p0 w0 eq_refl).
      destruct p0; [congruence|]. cbn [is_empty negb]. exact Htty.
  - split; [discriminate|]. intros _. exact Htty.
Qed.

(** ** Start without a task timeout: every record is logged once *)

Module StartLogFacts.
Import Start StartLog.

Ltac split_inv :=
  unfold log_inv; cbn;
  repeat match goal with |- _ /\ _ => split end;
  try solve [auto | discriminate | intros; discriminate | tauto].

Lemma sent_of_head o todo rest r :
  o :: todo = sent_of rest r ->
  (exists d rest', o = OnDetailOutput d /\ rest = d :: rest' /\
                   todo = sent_of rest' r) \/
  (exists r0, r = Some r0 /\ o = OnTaskOutput r0 /\ rest = [] /\ todo = []).
Proof.
  unfold sent_of. destruct rest as [|d rest']; cbn [fmap list_fmap app].
  - destruct r as [r0|]; cbn; [|discriminate].
    intros [= -> ->]. right. exists r0. repeat split.
  - intros [= -> ->]. left. exists d, rest'. repeat split.
Qed.

Lemma log_inv_init sid tt ds r :
  (tt <= 0)%Z -> log_inv sid ds r (init tt (sent_of ds r)).
Proof.
  intros Htt. unfold log_inv, init. cbn.
  destruct (Z.ltb_spec 0 tt); [lia|].
  repeat split; try discriminate; auto.
  right. exists ds. reflexivity.
Qed.

Lemma log_inv_step sid tid tt ds r g s s' :
  log_inv sid ds r s -> step sid tid tt g s = Some s' -> log_inv sid ds r s'.
Proof.
  intros (Ht & Hp & Hlog & Hbuf & Hshape & Hchan & Hclosed & Hret) Hstep.
  unfold step in Hstep. rewrite Hp in Hstep.
  destruct s as [rn tm h dO tO buf lg p]; cbn in *. subst tm p.
  assert (Hnot_returned : tO = true -> h <> Returned).
  { intros -> Hh. destruct (Hret Hh). discriminate. }
  destruct g; cbn in Hstep; [| discriminate |].
  - unfold step_runner in Hstep; cbn in Hstep.
    destruct rn as [[|o todo]| | |]; cbn in *.
    + destruct Hchan as [-> ->]. injection Hstep as <-.
      split_inv.
    + destruct Hchan as [-> ->].
      destruct Hshape as [Hnil|[rest Hrest]]; [discriminate|].
      destruct Hbuf as [->|Hnil]; [|discriminate].
      apply sent_of_head in Hrest
        as [(d & rest' & -> & -> & ->)|(r0 & -> & -> & -> & ->)];
        cbn in Hstep.
      * destruct h; try discriminate. injection Hstep as <-.
        split_inv.
        -- rewrite <- Hlog. cbn. rewrite <- app_assoc. reflexivity.
        -- right. exists rest'. reflexivity.
      * injection Hstep as <-. split_inv;
          try (intros Hh; exfalso; apply (Hnot_returned eq_refl Hh)).
    + destruct Hchan as [-> ->]. injection Hstep as <-. split_inv;
        try (intros Hh; exfalso; apply (Hnot_returned eq_refl Hh)).
    + subst tO. destruct dO; cbn in Hstep; injection Hstep as <-; split_inv;
        try (intros Hh; exfalso; apply (Hnot_returned eq_refl Hh)).
    + discriminate.
  - unfold step_handler in Hstep; cbn in Hstep.
    destruct h; cbn in *.
    + destruct dO; cbn in Hstep; [discriminate|]. injection Hstep as <-.
      split_inv.
    + destruct buf as [|r0 buf'].
      * destruct tO; cbn in Hstep; [discriminate|]. injection Hstep as <-.
        split_inv.
      * injection Hstep as <-.
        destruct Hbuf as [Hnil|Htodo]; [discriminate|].
        rewrite Htodo in *. cbn in *. split_inv.
        rewrite Htodo, <- Hlog, <- app_assoc. reflexivity.
    + discriminate.
Qed.

Lemma log_inv_run sid tid tt ds r schedule :
  forall s s', log_inv sid ds r s -> run sid tid tt schedule s = Some s' ->
               log_inv sid ds r s'.
Proof.
  induction schedule as [|g schedule IH]; intros s s' Hinv Hrun;
    cbn [run] in Hrun.
  - injection Hrun as <-. exact Hinv.
  - destruct (step sid tid tt g s) as [s1|] eqn:Hstep; [|discriminate].
    apply (IH s1 s'); [|exact Hrun]. eapply log_inv_step; eassumption.
Qed.

Lemma log_inv_returned sid ds r s :
  log_inv sid ds r s -> handler s = Returned ->
  log s = entry_of sid <$> sent_of ds r.
Proof.
  intros (_ & _ & Hlog & _ & _ & _ & Hclosed & Hret) Hh.
  destruct (Hret Hh) as [Hbuf HtO]. rewrite (Hclosed HtO), Hbuf in Hlog.
  cbn in Hlog. rewrite app_nil_r in Hlog. exact Hlog.
Qed.

(** Handing over the records one after the other. *)
Lemma run_details sid tid tt r rest_schedule :
  forall (todo : list detailResult) lg,
    run sid tid tt (replicate (length todo) GoRunner ++ rest_schedule)
      (mkState (Sending (sent_of todo r)) NoTimer RangeDetail true true []
         lg None)
    = run sid tid tt rest_schedule
        (mkState (Sending (OnTaskOutput <$> option_list r)) NoTimer
           RangeDetail true true [] (lg ++ (logDetail sid <$> todo)) None).
Proof.
  induction todo as [|d todo IH]; intros lg.
  - cbn. rewrite app_nil_r. reflexivity.
  - cbn [length replicate app run]. cbn [step panicked].
    unfold step_runner. cbn. rewrite IH. rewrite <- app_assoc. reflexivity.
Qed.

Lemma run_to_end_returns sid tid tt ds r :
  (tt <= 0)%Z ->
  exists s, run sid tid tt (run_to_end ds r) (init tt (sent_of ds r)) = Some s
            /\ handler s = Returned.
Proof.
  intros Htt. unfold run_to_end, init.
  destruct (Z.ltb_spec 0 tt); [lia|].
  rewrite run_details.
  destruct r as [r0|]; eexists; (split; [reflexivity|reflexivity]).
Qed.

End StartLogFacts.

(** What the loop of [BatchRun] sends has the shape the invariant speaks
    of, whatever the counters do. *)
Lemma BatchRun_loop_sent env t results :
  forall st,
    snd (fold_left (BatchRun_step env t) results st)
    = snd st ++ (OnDetailOutput <$> (detailOf (id t) <$> results)).
Proof.
  induction results as [|v results IH]; intros [[s f] sent];
    cbn [fold_left snd fmap list_fmap].
  - rewrite app_nil_r. reflexivity.
  - rewrite IH. unfold BatchRun_step.
    destruct (str_eqb (res_Status v) (batchssh_SuccessIdentifier env));
      cbn [snd]; rewrite <- app_assoc; reflexivity.
Qed.

Lemma BatchRun_sent_shape env Config t w t' sent w' :
  BatchRun env Config t w = Done (t', sent) w' ->
  exists ds r, sent = StartLog.sent_of ds r.
Proof.
  intros Hrun. destruct (BatchRun_sent _ _ _ _ _ _ _ Hrun)
    as [->|[allHosts ->]].
  - exists [], None. reflexivity.
  - unfold BatchRun_collect.
    pose proof (BatchRun_loop_sent env t' (batchssh_BatchRun env allHosts)
                  (0%Z, 0%Z, [])) as Hloop.
    destruct (fold_left (BatchRun_step env t')
                (batchssh_BatchRun env allHosts) (0%Z, 0%Z, []))
      as [[s f] sent0].
    cbn [snd app] in Hloop. subst sent0.
    exists (detailOf (id t') <$> batchssh_BatchRun env allHosts),
      (Some {| r_taskID := id t'; hostsSuccessCount := s;
               hostsFailureCount := f |}).
    reflexivity.
Qed.

(** X16. Without a task timeout, [Start] never panics, whatever [BatchRun]
    has sent when it returns (the host records and the summary, or nothing
    at all after an early return) and whatever the interleaving of the
    goroutines; whenever [HandleOutput] returns it has logged everything
    that was sent, each record exactly once and in the order sent (so
    nothing at all after an early return); and there is an interleaving on
    which it does return. *)
Theorem Start_without_timeout_logs_everything env Config t w t' sent w' :
  BatchRun env Config t w = Done (t', sent) w' ->
  (cfg_TimeoutTask Config <= 0)%Z ->
  let sid := batchssh_SuccessIdentifier env in
  let tt := cfg_TimeoutTask Config in
  (forall schedule s,
      Start.run sid (id t') tt schedule (Start.init tt sent) = Some s ->
      Start.panicked s = None /\
      (Start.handler s = Start.Returned ->
       Start.log s = StartLog.entry_of sid <$> sent))
  /\ exists schedule s,
      Start.run sid (id t') tt schedule (Start.init tt sent) = Some s /\
      Start.handler s = Start.Returned.
Proof.
  intros Hrun Htt sid tt.
  destruct (BatchRun_sent_shape _ _ _ _ _ _ _ Hrun) as (ds & r & ->).
  split.
  - intros schedule s Hs.
    pose proof (StartLogFacts.log_inv_run sid (id t') tt ds r schedule _ _
                  (StartLogFacts.log_inv_init sid tt ds r Htt) Hs) as Hinv.
    split; [apply Hinv|].
    apply StartLogFacts.log_inv_returned, Hinv.
  - exists (StartLog.run_to_end ds r).
    apply StartLogFacts.run_to_end_returns, Htt.
Qed.

(** ** Hosts of the inventory: names, and names the inventory does not know *)

(** X17. With an inventory whose selected hosts carry no vault ciphertext,
    [getAllHosts] returns without touching the terminal, with one host per
    deduplicated inventory host, and the aliases of these hosts are exactly
    the names [ListHosts] returns, in the same order. *)
Theorem getAllHosts_inventory_agrees_with_ListHosts env Config t w targets :
  hosts_Inventory (cfg_Hosts Config) <> [] ->
  getInventoryHosts env Config t = (targets, None) ->
  targets <> [] ->
  Forall (fun v => aes_IsAES256CipherText env (inv_Passphrase v) = false /\
                   aes_IsAES256CipherText env (inv_Password v) = false)
         (inventory_DeDuplHosts env targets) ->
  aes_IsAES256CipherText env (defaultPass t) = false ->
  exists hosts,
    getAllHosts env Config t w = Done (hosts, None) w /\
    hosts = resolved_plain env Config t <$> inventory_DeDuplHosts env targets /\
    ListHosts env Config t = (Alias <$> hosts, None).
Proof.
  intros Hinv Htargets Hne Hplain Hdef.
  unfold getAllHosts, ListHosts.
  destruct (hosts_Inventory (cfg_Hosts Config)) as [|c i] eqn:Ei;
    [congruence|].
  cbn [is_empty]. rewrite Htargets, length_eqb_0.
  destruct targets as [|v vs]; [congruence|].
  rewrite (bind_Done _ _ _ _ _
             (getAllHosts_inventory_plain env Config t _ Hplain Hdef [] w)).
  cbn [app]. eexists. split; [reflexivity|]. split; [reflexivity|].
  f_equal. rewrite <- list_fmap_compose. reflexivity.
Qed.

(** X18. A name given on the command line that is neither a group nor an
    alias of the inventory is run all the same, as a host of that name and
    address with the default port, user, password and authentication
    methods, and with no identity files of its own. *)
Theorem getAllHosts_anonymous_host env Config t name w :
  inventory_GetHostsByGroup env name = None ->
  inventory_GetHostByAlias env name = None ->
  aes_IsAES256CipherText env [] = false ->
  aes_IsAES256CipherText env (defaultPass t) = false ->
  lookupInventory env name = [anonymous name] /\
  getAllHosts_host env Config t (anonymous name) w
  = Done {| Alias := name; HostAddr := name;
            Port := hosts_Port (cfg_Hosts Config);
            User := defaultUser t; HostPassword := defaultPass t;
            Keys := []; SSHAuths := defaultSSHAuthMethods t |} w.
Proof.
  intros Hg Ha Hempty Hdef. split.
  - unfold lookupInventory. rewrite Hg, Ha. reflexivity.
  - rewrite (getAllHosts_host_plain env Config t (anonymous name) w
               Hempty Hempty Hdef).
    reflexivity.
Qed.

(** ** The executable bits *)

Lemma testbit_73 n :
  N.testbit 73 n = (n =? 0) || (n =? 3) || (n =? 6).
Proof.
  destruct (N.lt_ge_cases n 7) as [Hlt|Hge].
  - assert (H : n = 0 \/ n = 1 \/ n = 2 \/ n = 3 \/ n = 4 \/ n = 5 \/ n = 6)
      by lia.
    decompose [or] H; subst; reflexivity.
  - rewrite N.bits_above_log2 by (change (N.log2 73) with 6; lia).
    symmetry. rewrite !orb_false_iff, !N.eqb_neq. lia.
Qed.

(** X19. Whether the vault password file is executed depends on the three
    execute permission bits of its mode only (owner, group, others): any
    one of them suffices, and no other bit of the mode plays a part. *)
Theorem executable_bits_spec mode :
  executable_bits mode
  = N.testbit mode 0 || N.testbit mode 3 || N.testbit mode 6.
Proof.
  unfold executable_bits.
  set (x := N.land (N.land mode 511) 73).
  assert (Hbit : forall n, N.testbit x n
                           = N.testbit mode n && N.testbit 511 n
                             && N.testbit 73 n).
  { intros n. subst x. rewrite !N.land_spec. reflexivity. }
  destruct (N.testbit mode 0) eqn:H0; [|destruct (N.testbit mode 3) eqn:H3;
    [|destruct (N.testbit mode 6) eqn:H6]]; cbn [orb].
  - assert (Hx : N.testbit x 0 = true) by (rewrite Hbit, H0; reflexivity).
    destruct (N.eqb_spec x 0) as [E|]; [|reflexivity].
    rewrite E in Hx. discriminate.
  - assert (Hx : N.testbit x 3 = true) by (rewrite Hbit, H3; reflexivity).
    destruct (N.eqb_spec x 0) as [E|]; [|reflexivity].
    rewrite E in Hx. discriminate.
  - assert (Hx : N.testbit x 6 = true) by (rewrite Hbit, H6; reflexivity).
    destruct (N.eqb_spec x 0) as [E|]; [|reflexivity].
    rewrite E in Hx. discriminate.
  - assert (Hx : x = 0).
    { apply N.bits_inj. intros n. rewrite Hbit, testbit_73, N.bits_0.
      destruct (N.eqb_spec n 0) as [->|];
        [rewrite H0; reflexivity|].
      destruct (N.eqb_spec n 3) as [->|];
        [rewrite H3; reflexivity|].
      destruct (N.eqb_spec n 6) as [->|];
        [rewrite H6; reflexivity|].
      cbn [orb]. apply andb_false_r. }
    rewrite Hx. reflexivity.
Qed.

(** ** The properties above at concrete inputs *)

(** Three arguments, one of them repeated. *)
Lemma getAllHosts_agrees_with_ListHosts_witness :
  exists hosts,
    getAllHosts Sample.env0 MoreSamples.cfg
      (MoreSamples.t_args [str "h1"; str "h2"; str "h1"]) (Sample.typed [])
    = Done (hosts, None) (Sample.typed []) /\
    Alias <$> hosts = [str "h1"; str "h2"].
Proof.
  destruct (getAllHosts_agrees_with_ListHosts Sample.env0 MoreSamples.cfg
              (MoreSamples.t_args [str "h1"; str "h2"; str "h1"])
              (Sample.typed []) eq_refl ltac:(discriminate))
    as (hosts & Hrun & Hnames & _).
  exists hosts. split; [exact Hrun|exact Hnames].
Defined.

(** Two blank arguments. *)
Lemma getAllHosts_no_hosts_witness :
  getAllHosts Sample.env0 MoreSamples.cfg
    (MoreSamples.t_args [str " "; []]) (Sample.typed [])
  = Done ([], None) (Sample.typed []).
Proof.
  refine (proj2 (getAllHosts_no_hosts Sample.env0 MoreSamples.cfg
                   (MoreSamples.t_args [str " "; []]) (Sample.typed [])
                   eq_refl) _ _).
  - discriminate.
  - repeat constructor.
Defined.

(** A command task without command. *)
Lemma BatchRun_refuses_missing_operand_witness :
  BatchRun Sample.env0 MoreSamples.cfg
    (SetCommand (MoreSamples.t_args [str "h1"]) []) (Sample.typed [str "x"])
  = Done (set_err (SetCommand (MoreSamples.t_args [str "h1"]) [])
            (Some need_execute), [])
      (Sample.typed [str "x"]).
Proof.
  refine (BatchRun_refuses_missing_operand Sample.env0 MoreSamples.cfg
            (SetCommand (MoreSamples.t_args [str "h1"]) [])
            (Sample.typed [str "x"]) need_execute _ _);
    reflexivity.
Defined.

(** Listing two hosts. *)
Lemma BatchRun_lists_hosts_witness :
  BatchRun Sample.env0 MoreSamples.cfg_list
    (MoreSamples.t_args [str "h1"; str "h2"; str "h1"]) (Sample.typed [])
  = Done (MoreSamples.t_args [str "h1"; str "h2"; str "h1"], [])
      (after (Sample.typed []) (listed [str "h1"; str "h2"])).
Proof.
  refine (BatchRun_lists_hosts Sample.env0 MoreSamples.cfg_list
            (MoreSamples.t_args [str "h1"; str "h2"; str "h1"])
            (Sample.typed []) _).
  reflexivity.
Defined.

(** One host with a password of its own, one without. *)
Lemma getAllHosts_inventory_resolves_plain_witness :
  getAllHosts_inventory Sample.env0 MoreSamples.cfg_inventory
    (Sample.task0 (str "pw") [])
    [Sample.inv_host (str "h1") (str "plain"); Sample.inv_host (str "h2") []]
    [] (Sample.typed [])
  = Done ([] ++ (resolved_plain Sample.env0 MoreSamples.cfg_inventory
                   (Sample.task0 (str "pw") [])
                 <$> [Sample.inv_host (str "h1") (str "plain");
                      Sample.inv_host (str "h2") []]))
      (Sample.typed []).
Proof.
  refine (getAllHosts_inventory_resolves_plain Sample.env0
            MoreSamples.cfg_inventory (Sample.task0 (str "pw") []) _ []
            (Sample.typed []) _ _).
  - repeat constructor.
  - reflexivity.
Defined.

(** An empty line, then the new password typed twice. *)
Lemma getVaultConfirmPassword_typed_twice_witness :
  getVaultConfirmPassword Sample.env0 MoreSamples.cfg (fun s => s)
    (Sample.typed [[]; str "pw"; str "pw"])
  = Done (str "pw")
      (mkWorld []
         ([] ++ asked new_vault_prompt (str "input can not be null, retry") 1
          ++ asked (str "Confirm new vault password: ")
               (str "input can not be null, retry") 0)).
Proof.
  refine (getVaultConfirmPassword_typed_twice Sample.env0 MoreSamples.cfg
            (fun s => s) (Sample.typed [[]; str "pw"; str "pw"])
            1 (str "pw") 0 (str "pw") [] _ _ _ _).
  - reflexivity.
  - reflexivity.
  - discriminate.
  - discriminate.
Defined.

(** A vault file and the right vault password. *)
Lemma viewRun_pages_only_decrypted_witness :
  viewRun MoreSamples.env_vault_file MoreSamples.cfg MoreSamples.pager
    (str "secret.txt") (Sample.typed [str "secret"])
  = Done tt
      (mkWorld [] [EvPrompt vault_prompt; EvPrint [LF];
                   EvReadFile (str "secret.txt"); EvPrint (str "hunter2")]).
Proof.
  refine (proj1 (proj2 (viewRun_pages_only_decrypted
                          MoreSamples.env_vault_file MoreSamples.cfg
                          MoreSamples.pager (str "secret.txt")
                          (Sample.typed [str "secret"]))
                   (str "secret")
                   (mkWorld [] [EvPrompt vault_prompt; EvPrint [LF]]) _) _).
  - reflexivity.
  - repeat split.
Defined.

(** With a vault password script configured, what is typed stays unread. *)
Lemma GetVaultPassword_never_empty_witness :
  tty (outcome_world
         (GetVaultPassword C8Sample.env_script C8Sample.cfg
            (Sample.typed [str "typed"])))
  = [str "typed"].
Proof.
  refine (proj2 (GetVaultPassword_never_empty C8Sample.env_script
                   C8Sample.cfg (Sample.typed [str "typed"])) _).
  discriminate.
Defined.

(** Three hosts, no timeout: the run of the command-line sample. *)
Lemma Start_without_timeout_logs_everything_witness :
  exists schedule s,
    Start.run (str "success") (str "20240101120000") 0 schedule
      (Start.init 0 C5Sample.sent) = Some s /\
    Start.handler s = Start.Returned.
Proof.
  refine (proj2 (Start_without_timeout_logs_everything C5Sample.env
                   C5Sample.cfg C5Sample.t (Sample.typed []) C5Sample.t'
                   C5Sample.sent (Sample.typed []) _ _)).
  - vm_compute. reflexivity.
  - discriminate.
Defined.

(** Two inventory hosts without ciphertexts. *)
Lemma getAllHosts_inventory_agrees_with_ListHosts_witness :
  exists hosts,
    getAllHosts MoreSamples.env_inventory MoreSamples.cfg_inventory
      (Sample.task0 (str "pw") []) (Sample.typed [])
    = Done (hosts, None) (Sample.typed []) /\
    ListHosts MoreSamples.env_inventory MoreSamples.cfg_inventory
      (Sample.task0 (str "pw") [])
    = (Alias <$> hosts, None).
Proof.
  destruct (getAllHosts_inventory_agrees_with_ListHosts
              MoreSamples.env_inventory MoreSamples.cfg_inventory
              (Sample.task0 (str "pw") []) (Sample.typed [])
              [Sample.inv_host (str "h1") (str "plain");
               Sample.inv_host (str "h2") []]
              ltac:(discriminate) eq_refl ltac:(discriminate)
              ltac:(repeat constructor) eq_refl)
    as (hosts & Hrun & _ & Hlist).
  exists hosts. split; [exact Hrun|exact Hlist].
Defined.

(** A name the empty inventory does not know. *)
Lemma getAllHosts_anonymous_host_witness :
  lookupInventory Sample.env0 (str "ghost") = [anonymous (str "ghost")] /\
  getAllHosts_host Sample.env0 MoreSamples.cfg_inventory
    (Sample.task0 (str "pw") []) (anonymous (str "ghost")) (Sample.typed [])
  = Done {| Alias := str "ghost"; HostAddr := str "ghost"; Port := 22%Z;
            User := str "alice"; HostPassword := str "pw"; Keys := [];
            SSHAuths := [] |} (Sample.typed []).
Proof.
  refine (getAllHosts_anonymous_host Sample.env0 MoreSamples.cfg_inventory
            (Sample.task0 (str "pw") []) (str "ghost") (Sample.typed [])
            _ _ _ _);
    reflexivity.
Defined.
